(** * Verification of the e-commerce product-URL crawler

    Shallow embedding of [crawler/utils/url_helpers.py], [direct_crawler.py],
    [crawler/pipelines.py] and the classifier of
    [crawler/spiders/ecommerce_spider.py].

    Python [str] values are [string]s of bytes, Python [int]s are [Z],
    Python [set]s of strings are [gset string], the [deque] is a [list]
    whose head is the left end.  A raised exception is [None]. *)

From Stdlib Require Import ZArith Ascii String List Bool Lia Permutation.
From stdpp Require Import base gmap sets list strings.
Import ListNotations.
Local Open Scope string_scope.
Local Open Scope Z_scope.

(** ** Byte strings *)

Module Str.

Definition code (c : ascii) : nat := nat_of_ascii c.

Definition is_upper (c : ascii) : bool := (65 <=? code c)%nat && (code c <=? 90)%nat.
Definition is_lower (c : ascii) : bool := (97 <=? code c)%nat && (code c <=? 122)%nat.
(** [[a-zA-Z]] *)
Definition is_alpha (c : ascii) : bool := is_upper c || is_lower c.
Definition is_digit (c : ascii) : bool := (48 <=? code c)%nat && (code c <=? 57)%nat.

Definition lower_char (c : ascii) : ascii :=
  if is_upper c then ascii_of_nat (code c + 32) else c.

Fixpoint map (f : ascii -> ascii) (s : string) : string :=
  match s with
  | EmptyString => EmptyString
  | String c s' => String (f c) (map f s')
  end.

Fixpoint forallb (p : ascii -> bool) (s : string) : bool :=
  match s with
  | EmptyString => true
  | String c s' => p c && forallb p s'
  end.

Fixpoint existsb (p : ascii -> bool) (s : string) : bool :=
  match s with
  | EmptyString => false
  | String c s' => p c || existsb p s'
  end.

Fixpoint filter (p : ascii -> bool) (s : string) : string :=
  match s with
  | EmptyString => EmptyString
  | String c s' => if p c then String c (filter p s') else filter p s'
  end.

(** [c in s] for a one-character [c]. *)
Definition mem (c : ascii) (s : string) : bool := existsb (Ascii.eqb c) s.

(** Longest prefix whose characters all satisfy [p], and the rest. *)
Fixpoint span (p : ascii -> bool) (s : string) : string * string :=
  match s with
  | EmptyString => (EmptyString, EmptyString)
  | String c s' =>
      if p c then let (a, b) := span p s' in (String c a, b)
      else (EmptyString, s)
  end.

(** [s.lstrip(chars)] for the characters satisfying [p]. *)
Fixpoint lstrip (p : ascii -> bool) (s : string) : string :=
  match s with
  | EmptyString => EmptyString
  | String c s' => if p c then lstrip p s' else s
  end.

(** [Some rest] when [s = p ++ rest]. *)
Fixpoint strip_prefix (p s : string) : option string :=
  match p, s with
  | EmptyString, _ => Some s
  | String a p', String b s' => if Ascii.eqb a b then strip_prefix p' s' else None
  | String _ _, EmptyString => None
  end.

Definition startswith (s p : string) : bool :=
  match strip_prefix p s with Some _ => true | None => false end.

(** [sub in s] *)
Fixpoint contains (sub s : string) : bool :=
  startswith s sub ||
  match s with
  | EmptyString => false
  | String _ s' => contains sub s'
  end.

Fixpoint drop (n : nat) (s : string) : string :=
  match n, s with
  | O, _ => s
  | S k, String _ s' => drop k s'
  | S _, EmptyString => EmptyString
  end.

(** [s.rstrip(chars)] for the characters satisfying [p]. *)
Fixpoint rstrip (p : ascii -> bool) (s : string) : string :=
  match s with
  | EmptyString => EmptyString
  | String c s' =>
      match rstrip p s' with
      | EmptyString => if p c then EmptyString else String c EmptyString
      | r => String c r
      end
  end.

(** ASCII characters for which [str.isspace] holds. *)
Definition is_space (c : ascii) : bool :=
  ((9 <=? code c)%nat && (code c <=? 13)%nat) ||
  ((28 <=? code c)%nat && (code c <=? 32)%nat).

(** [s.strip()] *)
Definition strip (s : string) : string := rstrip is_space (lstrip is_space s).

Definition nonempty (s : string) : bool :=
  match s with EmptyString => false | String _ _ => true end.

(** [sep.join(l)] *)
Fixpoint join (sep : string) (l : list string) : string :=
  match l with
  | [] => EmptyString
  | [x] => x
  | x :: l' => x ++ sep ++ join sep l'
  end.

(** [s] is obtained from [t] by deleting characters. *)
Inductive subseq : string -> string -> Prop :=
| subseq_nil : subseq EmptyString EmptyString
| subseq_keep c s t : subseq s t -> subseq (String c s) (String c t)
| subseq_skip c s t : subseq s t -> subseq s (String c t).

End Str.

(** ** [urllib.parse]

    Model of [urlparse] / [ParseResult.geturl] of CPython 3.11 as
    [direct_crawler.py] and [url_helpers.py] call them (default arguments,
    [str] input).  The bracket check of [urlsplit] raises [ValueError] on a
    netloc with an unbalanced square bracket; bracketed hosts are not
    validated further. *)

Module Urllib.

Record ParseResult := mkParseResult {
  scheme : string;
  netloc : string;
  path : string;
  params : string;
  query : string;
  fragment : string
}.

Definition replace_fragment (f : string) (p : ParseResult) : ParseResult :=
  mkParseResult (scheme p) (netloc p) (path p) (params p) (query p) f.

Definition replace_query (q : string) (p : ParseResult) : ParseResult :=
  mkParseResult (scheme p) (netloc p) (path p) (params p) q (fragment p).

Definition uses_netloc : list string :=
  [""; "ftp"; "http"; "gopher"; "nntp"; "telnet"; "imap"; "wais"; "file";
   "mms"; "https"; "shttp"; "snews"; "prospero"; "rtsp"; "rtspu"; "rsync";
   "svn"; "svn+ssh"; "sftp"; "nfs"; "git"; "git+ssh"; "ws"; "wss"].

Definition uses_params : list string :=
  [""; "ftp"; "hdl"; "prospero"; "http"; "imap"; "https"; "shttp"; "rtsp";
   "rtspu"; "sip"; "sips"; "mms"; "sftp"; "tel"].

Definition in_list (s : string) (l : list string) : bool :=
  List.existsb (String.eqb s) l.

(** [scheme_chars]: letters, digits and [+-.] *)
Definition scheme_char (c : ascii) : bool :=
  Str.is_alpha c || Str.is_digit c || Str.mem c "+-.".

(** The characters [urlsplit] strips on the left (C0 controls and space)
    and the ones it removes everywhere (tab, LF, CR). *)
Definition c0_control_or_space (c : ascii) : bool := (Str.code c <=? 32)%nat.
Definition unsafe_byte (c : ascii) : bool :=
  (Str.code c =? 9)%nat || (Str.code c =? 10)%nat || (Str.code c =? 13)%nat.

(** The scheme test of [urlsplit]: [i = url.find(':')], [i > 0], the first
    character a letter and [url[:i]] made of scheme characters. *)
Definition split_scheme (url : string) : string * string :=
  let (pre, rest) := Str.span (fun c => negb (Ascii.eqb c ":")) url in
  match pre, rest with
  | String c0 _, String _ rest' =>
      if Str.is_alpha c0 && Str.forallb scheme_char pre
      then (Str.map Str.lower_char pre, rest')
      else (EmptyString, url)
  | _, _ => (EmptyString, url)
  end.

(** [_splitnetloc(url, 2)], called when [url[:2] == '//'] *)
Definition _splitnetloc (url : string) : string * string :=
  Str.span (fun c => negb (Str.mem c "/?#")) (Str.drop 2 url).

Definition bracket_error (nl : string) : bool :=
  (Str.mem "[" nl && negb (Str.mem "]" nl)) ||
  (Str.mem "]" nl && negb (Str.mem "[" nl)).

(** [url.split(c, 1)] when [c in url]; otherwise [(url, "")]. *)
Definition split_once (c : ascii) (url : string) : string * string :=
  let (a, b) := Str.span (fun x => negb (Ascii.eqb x c)) url in
  (a, Str.drop 1 b).

Record SplitResult := mkSplitResult {
  s_scheme : string;
  s_netloc : string;
  s_path : string;
  s_query : string;
  s_fragment : string
}.

Definition urlsplit (url0 : string) : option SplitResult :=
  let url := Str.filter (fun c => negb (unsafe_byte c))
               (Str.lstrip c0_control_or_space url0) in
  let (sch, url1) := split_scheme url in
  let (nl, url2) :=
    if Str.startswith url1 "//" then _splitnetloc url1 else (EmptyString, url1) in
  if bracket_error nl then None
  else
    let (url3, frag) := split_once "#" url2 in
    let (url4, q) := split_once "?" url3 in
    Some (mkSplitResult sch nl url4 q frag).

Definition with_fragment (f : string) (r : SplitResult) : SplitResult :=
  mkSplitResult (s_scheme r) (s_netloc r) (s_path r) (s_query r) f.

(** The prefix of [s] through its last ['/'] and the segment after it. *)
Fixpoint last_segment (s : string) : string * string :=
  match s with
  | EmptyString => (EmptyString, EmptyString)
  | String c s' =>
      let (pre, seg) := last_segment s' in
      if Str.nonempty pre then (String c pre, seg)
      else if Ascii.eqb c "/" then (String c EmptyString, seg)
      else (EmptyString, String c seg)
  end.

(** [_splitparams(url)], called when [';' in url] *)
Definition _splitparams (url : string) : string * string :=
  let (pre, seg) := last_segment url in
  if Str.mem ";" seg
  then let (a, b) := split_once ";" seg in (pre ++ a, b)
  else (url, EmptyString).

Definition urlparse (url : string) : option ParseResult :=
  match urlsplit url with
  | None => None
  | Some r =>
      let (p, prm) :=
        if in_list (s_scheme r) uses_params && Str.mem ";" (s_path r)
        then _splitparams (s_path r)
        else (s_path r, EmptyString) in
      Some (mkParseResult (s_scheme r) (s_netloc r) p prm (s_query r) (s_fragment r))
  end.

Definition urlunsplit (sch nl url q frag : string) : string :=
  let url1 :=
    if Str.nonempty nl
       || (Str.nonempty sch && in_list sch uses_netloc && negb (Str.startswith url "//"))
    then "//" ++ nl ++
         (if Str.nonempty url && negb (Str.startswith url "/") then "/" ++ url else url)
    else url in
  let url2 := if Str.nonempty sch then sch ++ ":" ++ url1 else url1 in
  let url3 := if Str.nonempty q then url2 ++ "?" ++ q else url2 in
  if Str.nonempty frag then url3 ++ "#" ++ frag else url3.

(** [ParseResult.geturl()], that is [urlunparse(self)] *)
Definition geturl (p : ParseResult) : string :=
  let url := if Str.nonempty (params p) then path p ++ ";" ++ params p else path p in
  urlunsplit (scheme p) (netloc p) url (query p) (fragment p).

End Urllib.

(** ** [re.sub(r'utm_[a-zA-Z]+=[^&]*&?', '', s)]

    Every quantifier of the pattern is greedy and none can give characters
    back: ['='] is not a letter and ['&'] is excluded from the value, so a
    match that starts at a position is unique. *)

Module Re.

(** The rest of [s] after a match of the pattern anchored at its start. *)
Definition noise_match (s : string) : option string :=
  match Str.strip_prefix "utm_" s with
  | None => None
  | Some s1 =>
      let (key, s2) := Str.span Str.is_alpha s1 in
      match key, Str.strip_prefix "=" s2 with
      | String _ _, Some s3 =>
          let (_, s4) := Str.span (fun c => negb (Ascii.eqb c "&")) s3 in
          Some (default s4 (Str.strip_prefix "&" s4))
      | _, _ => None
      end
  end.

(** Leftmost non-overlapping matches are deleted; [skip] counts the
    characters of the current match still to drop. *)
Fixpoint sub_noise_from (skip : nat) (s : string) : string :=
  match s with
  | EmptyString => EmptyString
  | String c s' =>
      match skip with
      | S k => sub_noise_from k s'
      | O =>
          match noise_match s with
          | Some rest => sub_noise_from (String.length s' - String.length rest) s'
          | None => String c (sub_noise_from 0 s')
          end
      end
  end.

Definition sub_noise (s : string) : string := sub_noise_from 0 s.




End Re.

(** ** [crawler/utils/url_helpers.py] (and the copies in [direct_crawler.py]) *)

(** [all([result.scheme, result.netloc])]; the bare [except] turns the
    [ValueError] of [urlparse] into [False]. *)
Definition is_valid_url (url : string) : bool :=
  match Urllib.urlparse url with
  | Some result => Str.nonempty (Urllib.scheme result) && Str.nonempty (Urllib.netloc result)
  | None => false
  end.

Definition normalize_url (url : string) : option string :=
  match Urllib.urlparse url with
  | Some parsed => Some (Urllib.geturl (Urllib.replace_fragment "" parsed))
  | None => None
  end.

Definition clean_url (url : string) : option string :=
  match Urllib.urlparse url with
  | Some parsed =>
      Some (Urllib.geturl (Urllib.replace_query (Re.sub_noise (Urllib.query parsed)) parsed))
  | None => None
  end.

(** [clean_url(normalize_url(url))], the canonical form both drivers use. *)
Definition canonicalize (url : string) : option string :=
  match normalize_url url with
  | Some u => clean_url u
  | None => None
  end.

(** ** [re.search]

    The library function is a parameter of everything below; [PyRe.search]
    is an executable model of it for the syntax the built-in pattern lists
    use: literal characters, backslash escapes, [\d], [.], bracket classes
    with ranges, the postfix quantifiers [?], [*] and [+] on one character,
    and [$].  A pattern outside this syntax matches nothing in the model
    (groups, alternation, braces, [^], escapes inside a class and a class
    that opens with a closing bracket are not modelled). *)

Module PyRe.

Inductive atom :=
| AChar (c : ascii)
| AAny
| ADigit
| AClass (negated : bool) (ranges : list (ascii * ascii)).

Inductive quant := One | Opt | Star | Plus.

Inductive item :=
| IAtom (a : atom) (q : quant)
| IEnd.

Definition in_range (c : ascii) (r : ascii * ascii) : bool :=
  (Str.code (fst r) <=? Str.code c)%nat && (Str.code c <=? Str.code (snd r))%nat.

Definition atom_ok (a : atom) (c : ascii) : bool :=
  match a with
  | AChar x => Ascii.eqb x c
  | AAny => negb (Str.code c =? 10)%nat
  | ADigit => Str.is_digit c
  | AClass neg rs => xorb neg (List.existsb (in_range c) rs)
  end.

(** The items of a bracket class up to its closing bracket. *)
Fixpoint parse_class (s : string) (acc : list (ascii * ascii))
  : option (list (ascii * ascii) * string) :=
  match s with
  | EmptyString => None
  | String "\" _ => None
  | String "]" rest =>
      match acc with
      | [] => None
      | _ :: _ => Some (rev acc, rest)
      end
  | String lo (String "-" (String hi rest)) =>
      if Ascii.eqb hi "]" then Some (rev (("-"%char, "-"%char) :: (lo, lo) :: acc), rest)
      else parse_class rest ((lo, hi) :: acc)
  | String c rest => parse_class rest ((c, c) :: acc)
  end.

Definition parse_quant (s : string) : quant * string :=
  match s with
  | String "?" rest => (Opt, rest)
  | String "*" rest => (Star, rest)
  | String "+" rest => (Plus, rest)
  | _ => (One, s)
  end.

Definition special (c : ascii) : bool := Str.mem c "()|{}^?*+".

Definition parse_atom (s : string) : option (option atom * string) :=
  match s with
  | EmptyString => None
  | String "\" (String "d" rest) => Some (Some ADigit, rest)
  | String "\" (String c rest) =>
      if Str.is_alpha c || Str.is_digit c then None else Some (Some (AChar c), rest)
  | String "\" EmptyString => None
  | String "." rest => Some (Some AAny, rest)
  | String "$" rest => Some (None, rest)
  | String "[" (String "^" rest) =>
      match parse_class rest [] with
      | Some (rs, rest') => Some (Some (AClass true rs), rest')
      | None => None
      end
  | String "[" rest =>
      match parse_class rest [] with
      | Some (rs, rest') => Some (Some (AClass false rs), rest')
      | None => None
      end
  | String c rest => if special c then None else Some (Some (AChar c), rest)
  end.

Fixpoint compile_fuel (fuel : nat) (s : string) : option (list item) :=
  match s with
  | EmptyString => Some []
  | _ =>
      match fuel with
      | O => None
      | S f =>
          match parse_atom s with
          | None => None
          | Some (None, rest) =>
              match compile_fuel f rest with
              | Some r => Some (IEnd :: r)
              | None => None
              end
          | Some (Some a, rest) =>
              let (q, rest') := parse_quant rest in
              match compile_fuel f rest' with
              | Some r => Some (IAtom a q :: r)
              | None => None
              end
          end
      end
  end.

Definition compile (pattern : string) : option (list item) :=
  compile_fuel (String.length pattern) pattern.

(** [a*] followed by the continuation [k]. *)
Fixpoint match_star (a : atom) (k : string -> bool) (s : string) : bool :=
  k s ||
  match s with
  | EmptyString => false
  | String c s' => atom_ok a c && match_star a k s'
  end.

(** [$]: the end of the string, or just before a final newline. *)
Definition at_end (s : string) : bool :=
  match s with
  | EmptyString => true
  | String c EmptyString => (Str.code c =? 10)%nat
  | _ => false
  end.

Fixpoint match_here (r : list item) (s : string) : bool :=
  match r with
  | [] => true
  | IEnd :: r' => at_end s && match_here r' s
  | IAtom a One :: r' =>
      match s with
      | EmptyString => false
      | String c s' => atom_ok a c && match_here r' s'
      end
  | IAtom a Opt :: r' =>
      match_here r' s ||
      match s with
      | EmptyString => false
      | String c s' => atom_ok a c && match_here r' s'
      end
  | IAtom a Star :: r' => match_star a (match_here r') s
  | IAtom a Plus :: r' =>
      match s with
      | EmptyString => false
      | String c s' => atom_ok a c && match_star a (match_here r') s'
      end
  end.

Fixpoint search_from (r : list item) (s : string) : bool :=
  match_here r s ||
  match s with
  | EmptyString => false
  | String _ s' => search_from r s'
  end.

(** [bool(re.search(pattern, s))] *)
Definition search (pattern s : string) : bool :=
  match compile pattern with
  | Some r => search_from r s
  | None => false
  end.

End PyRe.

(** ** Pattern lists *)

(** [default_patterns] of [is_product_url], equal to
    [EcommerceSpider.common_product_patterns] *)
Definition default_patterns : list string :=
  ["/product[s]?/";
   "/p/";
   "/item[s]?/";
   "/pd/";
   "/shop/product[s]?";
   "/good[s]?/"].

Definition common_product_patterns : list string := default_patterns.

(** [exclude_patterns] of [direct_crawler.py] and of [EcommerceSpider] *)
Definition exclude_patterns : list string :=
  ["/login";
   "/register";
   "/cart";
   "/checkout";
   "/wishlist";
   "/account";
   "/blog";
   "/article";
   "/search";
   "/contact";
   "/about";
   "/faq";
   "/help";
   "/support";
   "/privacy";
   "/terms";
   "/policy";
   "/sitemap";
   "\.xml$";
   "\.pdf$";
   "\.jpg$";
   "\.png$";
   "\.gif$"].

(** ** [tldextract]

    [ExtractResult] carries the three fields the code reads.  The library
    itself is a parameter of the code below; [extract] is an executable
    model of its algorithm over a table of public suffixes (plain rules,
    no wildcard or exception rules). *)

Module Tldextract.

Record ExtractResult := mkExtractResult {
  subdomain : string;
  domain : string;
  suffix : string
}.

(** [s.split(".")] *)
Fixpoint split_dots (s : string) : list string :=
  match s with
  | EmptyString => [EmptyString]
  | String c s' =>
      match split_dots s' with
      | [] => [String c EmptyString]
      | x :: l => if Ascii.eqb c "." then EmptyString :: x :: l else String c x :: l
      end
  end.

(** The text after ["://"] when only scheme characters stand before it. *)
Fixpoint schemeless_from (s : string) : option string :=
  match Str.strip_prefix "://" s with
  | Some rest => Some rest
  | None =>
      match s with
      | EmptyString => None
      | String c s' => if Urllib.scheme_char c then schemeless_from s' else None
      end
  end.

Definition schemeless_url (url : string) : string :=
  match Str.strip_prefix "//" url with
  | Some rest => rest
  | None => default url (schemeless_from url)
  end.

(** The text after the last ['@'], the whole text without one. *)
Fixpoint after_userinfo (s : string) : string :=
  match s with
  | EmptyString => EmptyString
  | String c s' =>
      if Str.mem "@" s' then after_userinfo s'
      else if Ascii.eqb c "@" then s' else s
  end.

Definition lenient_netloc (url : string) : string :=
  let authority := fst (Str.span (fun c => negb (Str.mem c "/?#")) (schemeless_url url)) in
  let host := fst (Str.span (fun c => negb (Ascii.eqb c ":")) (after_userinfo authority)) in
  Str.rstrip (fun c => Ascii.eqb c ".") (Str.strip host).

(** The index of the first label of the longest suffix in the table, the
    number of labels when there is none. *)
Fixpoint suffix_index (suffixes : list string) (labels : list string) : nat :=
  match labels with
  | [] => O
  | l :: rest =>
      if Urllib.in_list (Str.join "." labels) suffixes then O
      else S (suffix_index suffixes rest)
  end.

Definition looks_like_ip (labels : list string) : bool :=
  (List.length labels =? 4)%nat
  && List.forallb (fun l => Str.nonempty l && Str.forallb Str.is_digit l) labels.

Definition extract (suffixes : list string) (url : string) : ExtractResult :=
  let netloc := lenient_netloc url in
  let labels := split_dots netloc in
  let i := suffix_index suffixes labels in
  if (i =? List.length labels)%nat && looks_like_ip labels
  then mkExtractResult "" netloc ""
  else
    mkExtractResult
      (Str.join "." (firstn (i - 1) labels))
      (match i with O => "" | S j => nth j labels "" end)
      (Str.join "." (skipn i labels)).

End Tldextract.

Section Classifier.

(** [bool(re.search(pattern, url))] for patterns that compile.  A pattern
    that is no regular expression makes [re.search] raise [re.error],
    which no classifier catches; the classifiers with that exception are
    in [Raising]. *)
Variable re_search : string -> string -> bool.

(** [for pattern in patterns: if re.search(pattern, url): return True]
    falling through to [return False] *)
Fixpoint any_match (patterns : list string) (url : string) : bool :=
  match patterns with
  | [] => false
  | pattern :: rest => if re_search pattern url then true else any_match rest url
  end.

(** [is_product_url(url, patterns=None)]: [patterns or default_patterns]
    takes the default for [None] and for the empty list. *)
Definition is_product_url (url : string) (patterns : option (list string)) : bool :=
  let patterns :=
    match patterns with
    | Some (p :: ps) => p :: ps
    | Some [] | None => default_patterns
    end in
  any_match patterns url.

(** [SimpleEcommerceCrawler.is_excluded] *)
Definition is_excluded (url : string) : bool := any_match exclude_patterns url.

(** [SimpleEcommerceCrawler.is_product] *)
Definition is_product (product_patterns : list string) (url : string) : bool :=
  if any_match product_patterns url then true
  else is_product_url url None.

(** [EcommerceSpider.is_product_url], with
    [all_patterns = common_product_patterns + site_specific_patterns] *)
Definition all_patterns (site_specific_patterns : list string) : list string :=
  common_product_patterns ++ site_specific_patterns.

Definition spider_is_product_url (site_specific_patterns : list string) (url : string) : bool :=
  any_match (all_patterns site_specific_patterns) url.

End Classifier.

Section Domain.

Variable tld_extract : string -> Tldextract.ExtractResult.

(** [f"{ext.domain}.{ext.suffix}"] *)
Definition get_domain (url : string) : string :=
  let ext := tld_extract url in
  Tldextract.domain ext ++ "." ++ Tldextract.suffix ext.

Definition is_same_domain (url1 url2 : string) : bool :=
  let domain1 := tld_extract url1 in
  let domain2 := tld_extract url2 in
  String.eqb (Tldextract.domain domain1) (Tldextract.domain domain2)
  && String.eqb (Tldextract.suffix domain1) (Tldextract.suffix domain2).

End Domain.

(** ** [SimpleEcommerceCrawler] of [direct_crawler.py] *)

(** One entry of [domains.json]; a key that is absent is [None]. *)
Record domain_config := mkDomainConfig {
  cfg_start_urls : option (list string);
  cfg_product_patterns : option (list string)
}.

(** The attributes [__init__] and [_configure_for_domain] set and the
    crawl never changes. *)
Record settings := mkSettings {
  start_urls : list string;
  product_patterns : list string;
  max_products : Z;
  max_depth : Z
}.

(** The same settings under another product limit. *)
Definition with_limit (limit : Z) (cfg : settings) : settings :=
  mkSettings (start_urls cfg) (product_patterns cfg) limit (max_depth cfg).

(** [_configure_for_domain] *)
Definition _configure_for_domain (domain_configs : gmap string domain_config)
    (domain : string) (max_products max_depth : Z) : settings :=
  match domain_configs !! domain with
  | None => mkSettings ["https://www." ++ domain ++ "/"] [] max_products max_depth
  | Some config =>
      mkSettings
        (default ["https://www." ++ domain ++ "/"] (cfg_start_urls config))
        (default [] (cfg_product_patterns config))
        max_products max_depth
  end.

(** The crawler state of [__init__], with the two effects the claims
    speak of kept as traces, oldest first: the URLs handed to
    [fetch_page] and the URLs of the [Found product URL] log lines. *)
Record crawler := mkCrawler {
  visited_urls : gset string;
  product_urls : gset string;
  queue : list (string * Z);
  fetch_log : list string;
  found_log : list string
}.

Definition initial : crawler := mkCrawler ∅ ∅ [] [] [].

Definition set_queue (q : list (string * Z)) (st : crawler) : crawler :=
  mkCrawler (visited_urls st) (product_urls st) q (fetch_log st) (found_log st).

(** [self.visited_urls.add(url)] *)
Definition mark_visited (url : string) (st : crawler) : crawler :=
  mkCrawler ({[url]} ∪ visited_urls st) (product_urls st) (queue st)
            (fetch_log st) (found_log st).

(** [logger.info(f"Found product URL: {url}")] and
    [self.product_urls.add(url)] *)
Definition add_product (url : string) (st : crawler) : crawler :=
  mkCrawler (visited_urls st) ({[url]} ∪ product_urls st) (queue st)
            (fetch_log st) (found_log st ++ [url]).

Definition log_fetch (url : string) (st : crawler) : crawler :=
  mkCrawler (visited_urls st) (product_urls st) (queue st)
            (fetch_log st ++ [url]) (found_log st).

(** [len(self.product_urls)] *)
Definition product_count (st : crawler) : Z := Z.of_nat (size (product_urls st)).

(** [list(s)] for a Python set: the elements, each once, in an order the
    language does not fix. *)
Definition set_listing (s : gset string) (l : list string) : Prop :=
  NoDup l ∧ ∀ x, x ∈ l ↔ x ∈ s.

(** [_save_results]: the list written to the domain file. *)
Definition _save_results (st : crawler) (written : list string) : Prop :=
  set_listing (product_urls st) written.

(** What leaves one pass of the [while] body. *)
Inductive flow := Continue | Break.

(** The collaborators: [re.search] (for patterns that compile, as in
    [Classifier]), [requests.get] behind [fetch_page]
    ([None] for a failure or a status other than 200), the [href]
    attributes BeautifulSoup finds, [urljoin] ([None] when it raises) and
    [tldextract.extract]. *)
Record collaborators := mkCollaborators {
  re_search : string -> string -> bool;
  fetch_page : string -> option string;
  find_hrefs : string -> list string;
  urljoin : string -> string -> option string;
  tld_extract : string -> Tldextract.ExtractResult
}.

Section Crawl.

Variable env : collaborators.

(** The [for a_tag in ...] loop of [extract_links]; an exception leaves
    the loop through the [except] clause with the links found so far. *)
Fixpoint extract_links_loop (base_url : string) (hrefs links : list string)
  : list string :=
  match hrefs with
  | [] => links
  | h :: rest =>
      let href := Str.strip h in
      if Str.nonempty href
         && negb (Str.startswith href "javascript:")
         && negb (Str.startswith href "#")
      then
        match urljoin env base_url href with
        | None => links
        | Some absolute_url =>
            match canonicalize absolute_url with
            | None => links
            | Some absolute_url =>
                if is_valid_url absolute_url
                   && is_same_domain (tld_extract env) absolute_url base_url
                then extract_links_loop base_url rest (links ++ [absolute_url])
                else extract_links_loop base_url rest links
            end
        end
      else extract_links_loop base_url rest links
  end.

Definition extract_links (html base_url : string) : list string :=
  extract_links_loop base_url (find_hrefs env html) [].

(** The [for link in links] loop of [crawl]. *)
Fixpoint enqueue_links (links : list string) (depth : Z) (st : crawler) : crawler :=
  match links with
  | [] => st
  | link :: rest =>
      if is_excluded (re_search env) link then enqueue_links rest depth st
      else if bool_decide (link ∈ visited_urls st) then enqueue_links rest depth st
      else enqueue_links rest depth (set_queue (queue st ++ [(link, depth + 1)]) st)
  end.

(** [while self.queue and len(self.product_urls) < self.max_products] *)
Definition loop_condition (cfg : settings) (st : crawler) : bool :=
  match queue st with
  | [] => false
  | _ :: _ => product_count st <? max_products cfg
  end.

(** One pass of the body of the [while] loop. *)
Definition iteration (cfg : settings) (st : crawler) : flow * crawler :=
  match queue st with
  | [] => (Continue, st)
  | (url, depth) :: q =>
      let st := set_queue q st in
      if bool_decide (url ∈ visited_urls st) then (Continue, st)
      else
        let st := mark_visited url st in
        let found := is_product (re_search env) (product_patterns cfg) url in
        let st := if found then add_product url st else st in
        if found && (max_products cfg <=? product_count st) then (Break, st)
        else if max_depth cfg <=? depth then (Continue, st)
        else
          let st := log_fetch url st in
          match fetch_page env url with
          | None => (Continue, st)
          | Some html =>
              if Str.nonempty html
              then (Continue, enqueue_links (extract_links html url) depth st)
              else (Continue, st)
          end
  end.

Fixpoint crawl_loop (cfg : settings) (fuel : nat) (st : crawler) : option crawler :=
  if loop_condition cfg st then
    match fuel with
    | O => None
    | S fuel' =>
        match iteration cfg st with
        | (Break, st') => Some st'
        | (Continue, st') => crawl_loop cfg fuel' st'
        end
    end
  else Some st.

(** [for url in self.start_urls: self.queue.append((url, 0))] *)
Definition seed (cfg : settings) (st : crawler) : crawler :=
  set_queue (queue st ++ List.map (fun url => (url, 0)) (start_urls cfg)) st.

(** [crawl], up to the call of [_save_results] *)
Definition crawl (cfg : settings) (fuel : nat) : option crawler :=
  crawl_loop cfg fuel (seed cfg initial).

(** The states a crawl goes through: after seeding, and after each pass
    of the loop body, whichever way it is left. *)
Inductive reachable (cfg : settings) : crawler -> Prop :=
| reach_seed : reachable cfg (seed cfg initial)
| reach_pass st fl st' :
    reachable cfg st ->
    loop_condition cfg st = true ->
    iteration cfg st = (fl, st') ->
    reachable cfg st'.

(** The links a page yields when it is fetched. *)
Definition page_links (url : string) : list string :=
  match fetch_page env url with
  | None => []
  | Some html => if Str.nonempty html then extract_links html url else []
  end.

(** A bound on the passes an item of the queue can cause: itself, and,
    while [k] levels remain below [max_depth], the items its links add. *)
Fixpoint cost (k : nat) (url : string) : nat :=
  match k with
  | O => 1
  | S k' => S (list_sum (List.map (cost k') (page_links url)))
  end.

Definition item_cost (cfg : settings) (it : string * Z) : nat :=
  cost (Z.to_nat (max_depth cfg - snd it)) (fst it).

Definition queue_cost (cfg : settings) (q : list (string * Z)) : nat :=
  list_sum (List.map (item_cost cfg) q).

(** The links of a page that pass the two tests of the enqueue loop. *)
Definition accepted (st : crawler) (links : list string) : list string :=
  List.filter
    (fun link => negb (is_excluded (re_search env) link)
                 && negb (bool_decide (link ∈ visited_urls st)))
    links.

(** The state once a popped, unvisited URL has been marked and classified. *)
Definition classified (cfg : settings) (url : string) (q : list (string * Z))
    (st : crawler) : crawler :=
  let st1 := mark_visited url (set_queue q st) in
  if is_product (re_search env) (product_patterns cfg) url then add_product url st1 else st1.

(** The ways through the loop body. *)
Inductive pass (cfg : settings) (st : crawler) : flow -> crawler -> Prop :=
| pass_skip url depth q :
    queue st = (url, depth) :: q ->
    url ∈ visited_urls st ->
    pass cfg st Continue (set_queue q st)
| pass_limit url depth q :
    queue st = (url, depth) :: q ->
    url ∉ visited_urls st ->
    is_product (re_search env) (product_patterns cfg) url = true ->
    max_products cfg <= product_count (classified cfg url q st) ->
    pass cfg st Break (classified cfg url q st)
| pass_deep url depth q :
    queue st = (url, depth) :: q ->
    url ∉ visited_urls st ->
    (is_product (re_search env) (product_patterns cfg) url = true ->
     product_count (classified cfg url q st) < max_products cfg) ->
    max_depth cfg <= depth ->
    pass cfg st Continue (classified cfg url q st)
| pass_expand url depth q :
    queue st = (url, depth) :: q ->
    url ∉ visited_urls st ->
    (is_product (re_search env) (product_patterns cfg) url = true ->
     product_count (classified cfg url q st) < max_products cfg) ->
    depth < max_depth cfg ->
    pass cfg st Continue
      (enqueue_links (page_links url) depth
         (log_fetch url (classified cfg url q st))).

(** The two sets and the two traces agree. *)
Record consistent (cfg : settings) (st : crawler) : Prop := mkConsistent {
  products_visited : product_urls st ⊆ visited_urls st;
  visited_classified : forall u,
    u ∈ visited_urls st ->
    is_product (re_search env) (product_patterns cfg) u = true ->
    u ∈ product_urls st;
  found_nodup : NoDup (found_log st);
  found_products : forall u, u ∈ found_log st <-> u ∈ product_urls st;
  fetch_nodup : NoDup (fetch_log st);
  fetch_visited : forall u, u ∈ fetch_log st -> u ∈ visited_urls st
}.

(** A URL that is a seed or passes the exclusion gate. *)
Definition gated (cfg : settings) (u : string) : Prop :=
  u ∈ start_urls cfg \/ is_excluded (re_search env) u = false.

(** Nothing but gated URLs in the queue and in the visited set. *)
Record all_gated (cfg : settings) (st : crawler) : Prop := mkAllGated {
  queue_gated : forall u d, (u, d) ∈ queue st -> gated cfg u;
  visited_gated : forall u, u ∈ visited_urls st -> gated cfg u
}.

(** [v] is a link of the page [u] that passes the exclusion gate. *)
Definition edge (u v : string) : Prop :=
  v ∈ page_links u /\ is_excluded (re_search env) v = false.

(** The link graph the crawl can walk: [reach cfg n v] when a chain of [n]
    links leads from a seed URL to [v], every page of the chain being left
    at a depth below [max_depth]. *)
Inductive reach (cfg : settings) : nat -> string -> Prop :=
| reach_start s : s ∈ start_urls cfg -> reach cfg 0 s
| reach_link n u v :
    reach cfg n u -> Z.of_nat n < max_depth cfg -> edge u v -> reach cfg (S n) v.

(** A URL at [n] links from the seeds is accounted for: visited, queued at
    a depth of at most [n], or behind a page that is not visited yet. *)
Definition cover (cfg : settings) (st : crawler) (n : nat) (v : string) : Prop :=
  v ∈ visited_urls st
  \/ (exists d, d <= Z.of_nat n /\ (v, d) ∈ queue st)
  \/ (exists k w, n = S k /\ reach cfg k w /\ Z.of_nat k < max_depth cfg
                  /\ edge w v /\ w ∉ visited_urls st).

(** The queue holds items of one depth followed by items of the next. *)
Definition queue_levels (q : list (string * Z)) : Prop :=
  exists m A B,
    q = (List.map (fun u => (u, m)) A ++ List.map (fun u => (u, m + 1)) B)%list.

(** The breadth-first invariant of the loop. *)
Record bfs (cfg : settings) (st : crawler) : Prop := mkBfs {
  bfs_levels : queue_levels (queue st);
  bfs_cover : forall n v, reach cfg n v -> cover cfg st n v
}.

End Crawl.

(** ** The Scrapy driver: [EcommerceSpider.parse_links] and the pipelines *)

Module Items.

(** [crawler/items.py]; [discovery_time] is a clock reading and is left
    out of the record. *)
Record ProductURL := mkProductURL {
  url : string;
  domain : string;
  found_on : string
}.

End Items.

Section Spider.

Variable env : collaborators.

(** [self.max_products and self.products_found >= self.max_products] *)
Definition limit_reached (max_products products_found : Z) : bool :=
  negb (max_products =? 0) && (max_products <=? products_found).

(** The [for link in links] loop of [parse_links]: the items yielded,
    oldest first, and [self.products_found] afterwards. *)
Fixpoint parse_links_loop (site_specific_patterns : list string) (max_products : Z)
    (response_url domain : string) (links : list string) (products_found : Z)
  : list Items.ProductURL * Z :=
  match links with
  | [] => ([], products_found)
  | link :: rest =>
      let continue_ := parse_links_loop site_specific_patterns max_products
                         response_url domain rest in
      match urljoin env response_url link with
      | None => ([], products_found)
      | Some url =>
          if negb (is_valid_url url) then continue_ products_found
          else if negb (is_same_domain (tld_extract env) url response_url)
          then continue_ products_found
          else
            match canonicalize url with
            | None => ([], products_found)
            | Some url =>
                if spider_is_product_url (re_search env) site_specific_patterns url then
                  if limit_reached max_products products_found
                  then ([], products_found)
                  else
                    let (items, n) := continue_ (products_found + 1) in
                    (Items.mkProductURL url domain response_url :: items, n)
                else continue_ products_found
            end
      end
  end.

Definition parse_links (site_specific_patterns : list string) (max_products : Z)
    (response_url : string) (links : list string) (products_found : Z)
  : list Items.ProductURL * Z :=
  let domain := get_domain (tld_extract env) response_url in
  if limit_reached max_products products_found then ([], products_found)
  else parse_links_loop site_specific_patterns max_products
         response_url domain links products_found.

End Spider.

Module Pipelines.

(** [DuplicatesPipeline.urls_seen] and [OutputPipeline.items_per_domain] *)
Record state := mkState {
  urls_seen : gset string;
  items_per_domain : gmap string (list Items.ProductURL)
}.

Definition empty : state := mkState ∅ ∅.

(** [DuplicatesPipeline.process_item]; [None] stands for [DropItem]. *)
Definition duplicates_process_item (item : Items.ProductURL) (st : state)
  : option Items.ProductURL * state :=
  if bool_decide (Items.url item ∈ urls_seen st) then (None, st)
  else (Some item, mkState ({[Items.url item]} ∪ urls_seen st) (items_per_domain st)).

(** [OutputPipeline.process_item] *)
Definition output_process_item (item : Items.ProductURL) (st : state) : state :=
  let domain := Items.domain item in
  let items := default [] (items_per_domain st !! domain) in
  mkState (urls_seen st) (<[domain := (items ++ [item])%list]> (items_per_domain st)).

(** [ITEM_PIPELINES]: [DuplicatesPipeline] (300) runs before
    [OutputPipeline] (500); a dropped item goes no further. *)
Definition process_item (st : state) (item : Items.ProductURL) : state :=
  match duplicates_process_item item st with
  | (None, st') => st'
  | (Some item', st') => output_process_item item' st'
  end.

Definition process_items (items : list Items.ProductURL) (st : state) : state :=
  fold_left process_item items st.

(** [close_spider]: [[item['url'] for item in items]] for one domain *)
Definition domain_urls (st : state) (domain : string) : list string :=
  List.map Items.url (default [] (items_per_domain st !! domain)).

End Pipelines.

(** The items left when each URL is kept at its first occurrence only. *)
Fixpoint first_occurrences (seen : gset string) (items : list Items.ProductURL)
  : list Items.ProductURL :=
  match items with
  | [] => []
  | item :: rest =>
      if bool_decide (Items.url item ∈ seen) then first_occurrences seen rest
      else item :: first_occurrences ({[Items.url item]} ∪ seen) rest
  end.

(** [item['domain'] == d] *)
Definition in_domain (d : string) (item : Items.ProductURL) : bool :=
  String.eqb (Items.domain item) d.

(** ** A synthetic site

    Concrete collaborators for the executable examples: a page is fetched
    as its own URL, the table lists the [href]s of each page, every
    [href] is absolute. *)

Module Site.

Definition table := list (string * list string).

Fixpoint lookup (t : table) (url : string) : option (list string) :=
  match t with
  | [] => None
  | (u, hrefs) :: rest => if String.eqb u url then Some hrefs else lookup rest url
  end.

Definition env (t : table) : collaborators :=
  mkCollaborators
    PyRe.search
    (fun url => match lookup t url with Some _ => Some url | None => None end)
    (fun html => default [] (lookup t html))
    (fun base href => Some href)
    (Tldextract.extract ["com"; "co.uk"]).

Definition home : string := "https://www.shop.com/".

(** The home page links to three product pages. *)
Definition shop : table :=
  [(home, ["https://www.shop.com/p/1"; "https://www.shop.com/p/2";
           "https://www.shop.com/p/3"]);
   ("https://www.shop.com/p/1", []);
   ("https://www.shop.com/p/2", []);
   ("https://www.shop.com/p/3", [])].

(** The home page links twice to the same category page. *)
Definition twice : table :=
  [(home, ["https://www.shop.com/c/shoes"; "https://www.shop.com/c/shoes"]);
   ("https://www.shop.com/c/shoes", [])].

(** A seed that matches both [/product[s]?/] and [/about]. *)
Definition about_us : string := "https://www.shop.com/products/about-us".
Definition about : table := [(about_us, [])].

(** [max_products = 2], [max_depth = 5] *)
Definition two_products : settings := mkSettings [home] [] 2 5.
Definition ten_products : settings := mkSettings [home] [] 10 5.
Definition about_settings : settings := mkSettings [about_us] [] 10 5.

(** The final state of a run, the initial state when the fuel runs out. *)
Definition final (t : table) (cfg : settings) (fuel : nat) : crawler :=
  default initial (crawl (env t) cfg fuel).

End Site.

(** ** Further invariants of the crawl *)

Section CrawlGraph.

Variable env : collaborators.

(** Every queued, visited or fetched URL lies in the link graph, a queued
    one at the depth it is queued with, a fetched one below [max_depth];
    every recorded URL is one the classifier accepts. *)
Record grounded (cfg : settings) (st : crawler) : Prop := mkGrounded {
  queue_grounded : forall u d,
    (u, d) ∈ queue st -> exists n, d = Z.of_nat n /\ reach env cfg n u;
  visited_grounded : forall u,
    u ∈ visited_urls st -> exists n, reach env cfg n u;
  fetch_grounded : forall u,
    u ∈ fetch_log st -> exists n, reach env cfg n u /\ Z.of_nat n < max_depth cfg;
  products_accepted : forall u,
    u ∈ product_urls st ->
    is_product (re_search env) (product_patterns cfg) u = true
}.

End CrawlGraph.

(** The state of the three-product crawl after the pass over the home page. *)
Definition site_after_home : crawler :=
  snd (iteration (Site.env Site.shop) Site.two_products (seed Site.two_products initial)).

(** ** Shapes of [urlsplit] results *)

(** A scheme as [urlsplit] returns it when it finds one. *)
Definition good_scheme (s : string) : Prop :=
  exists c0 s', s = String c0 s'
    /\ Str.is_alpha c0 = true
    /\ Str.forallb Urllib.scheme_char s = true
    /\ Str.map Str.lower_char s = s.

(** A network location as [urlsplit] returns it when it finds one. *)
Definition good_netloc (nl : string) : Prop :=
  nl <> ""
  /\ Str.forallb (fun c => negb (Str.mem c "/?#")) nl = true
  /\ Str.forallb (fun c => negb (Urllib.unsafe_byte c)) nl = true
  /\ Urllib.bracket_error nl = false.

(** Empty, or opening with one of ['/'], ['?'], ['#']. *)
Definition after_netloc (r : string) : Prop :=
  r = "" \/ exists c r', r = String c r' /\ Str.mem c "/?#" = true.

(** ** The domains of a crawl *)

(** A seed URL, or a valid URL without fragment of the registrable domain
    of a seed URL. *)
Definition on_seed_domain (env : collaborators) (cfg : settings) (u : string) : Prop :=
  u ∈ start_urls cfg
  \/ (is_valid_url u = true
      /\ Str.mem "#" u = false
      /\ exists s, s ∈ start_urls cfg /\ is_same_domain (tld_extract env) u s = true).


(** ** Result files *)

Module Files.

(** [s.replace(old, new)] for one-character [old] and [new] *)
Definition replace (old new : ascii) (s : string) : string :=
  Str.map (fun c => if Ascii.eqb c old then new else c) s.

(** [s.split(sep)] for a one-character [sep]: never the empty list *)
Fixpoint split (sep : ascii) (s : string) : list string :=
  match s with
  | EmptyString => [EmptyString]
  | String c s' =>
      if Ascii.eqb c sep then EmptyString :: split sep s'
      else match split sep s' with
           | [] => [String c EmptyString]
           | x :: l => String c x :: l
           end
  end.

(** The text before and the text after the last [c] of [s], where
    [s.rfind(c)] finds one. *)
Fixpoint rsplit (c : ascii) (s : string) : option (string * string) :=
  match s with
  | EmptyString => None
  | String a s' =>
      match rsplit c s' with
      | Some (pre, post) => Some (String a pre, post)
      | None => if Ascii.eqb a c then Some (EmptyString, s') else None
      end
  end.

(** Modelled from pathlib ([PurePath.stem]): with [i = name.rfind('.')],
    [name[:i]] if [0 < i < len(name) - 1], and [name] otherwise. *)
Definition stem (name : string) : string :=
  match rsplit "." name with
  | Some (String a pre, String _ _) => String a pre
  | _ => name
  end.

(** The file name of [_save_results] and of [close_spider]:
    [f"{domain.replace('.', '_')}_{timestamp}.json"] *)
Definition results_filename (domain timestamp : string) : string :=
  replace "." "_" domain ++ "_" ++ timestamp ++ ".json".

(** What [json.load] makes of a file: it raises for text that is not JSON
    ([Invalid]); it returns the list of strings a crawler wrote ([Urls]);
    or it returns a number, [true], [false] or [null] ([Scalar]), which
    [list.extend] refuses with a [TypeError].  Files holding a JSON object,
    a JSON string or a list of other values are outside the model. *)
Inductive content :=
| Invalid
| Urls (urls : list string)
| Scalar.

(** A path [Path.glob] returns, as its [name] and what the file holds. *)
Record file := mkFile { name : string; data : content }.

(** A [defaultdict(list)] with its keys in the order of their insertion:
    reading a key without creating it. *)
Fixpoint lookup (k : string) (results : list (string * list string))
  : option (list string) :=
  match results with
  | [] => None
  | (k', v) :: rest => if String.eqb k k' then Some v else lookup k rest
  end.

(** [results[k]] changed in place by [f]; a missing key is created with
    the empty list first, at the end. *)
Fixpoint update (k : string) (f : list string -> list string)
    (results : list (string * list string)) : list (string * list string) :=
  match results with
  | [] => [(k, f [])]
  | (k', v) :: rest =>
      if String.eqb k k' then (k', f v) :: rest else (k', v) :: update k f rest
  end.

(** [combine_results]: [parts = filename.split('_')] and, if
    [len(parts) >= 2], [parts[0].replace('_', '.')] *)
Definition file_domain (name : string) : option string :=
  match split "_" (stem name) with
  | part :: _ :: _ => Some (replace "_" "." part)
  | _ => None
  end.

(** The body of the loop of [combine_results].  The [defaultdict] creates
    the key when [results[domain]] is evaluated, before [extend] runs or
    raises. *)
Definition combine_file (results : list (string * list string)) (f : file)
  : list (string * list string) :=
  if Str.startswith (name f) "all_domains_" then results
  else
    match data f with
    | Invalid => results
    | Urls urls =>
        match file_domain (name f) with
        | Some domain => update domain (fun v => (v ++ urls)%list) results
        | None => results
        end
    | Scalar =>
        match file_domain (name f) with
        | Some domain => update domain (fun v => v) results
        | None => results
        end
    end.

(** [combine_results], for the paths the directory listing returns: the
    dictionary written to the combined file, [None] when the listing is
    empty and nothing is written. *)
Definition combine_results (json_files : list file)
  : option (list (string * list string)) :=
  match json_files with
  | [] => None
  | _ :: _ => Some (fold_left combine_file json_files [])
  end.

(** [process_results.merge_results]: the file name is not split-checked,
    only lists are read, and a URL is appended unless it is in the list of
    the domain already; the key is created when the first URL is tested. *)
Definition merge_domain (name : string) : string :=
  replace "_" "." (List.hd EmptyString (split "_" (stem name))).

Definition add_unique (url : string) (v : list string) : list string :=
  if Urllib.in_list url v then v else (v ++ [url])%list.

Definition merge_file (all_results : list (string * list string)) (f : file)
  : list (string * list string) :=
  if Str.startswith (name f) "all_domains_" then all_results
  else
    match data f with
    | Urls urls =>
        fold_left (fun r url => update (merge_domain (name f)) (add_unique url) r)
                  urls all_results
    | Invalid | Scalar => all_results
    end.

Definition merge_results (json_files : list file) : list (string * list string) :=
  fold_left merge_file json_files [].

(** The URLs a file gives to the key [domain] of the combined dictionary,
    and whether it creates that key. *)
Definition counted (domain : string) (f : file) : bool :=
  negb (Str.startswith (name f) "all_domains_")
  && bool_decide (file_domain (name f) = Some domain).

Definition file_urls (domain : string) (f : file) : list string :=
  match data f with
  | Urls urls => if counted domain f then urls else []
  | Invalid | Scalar => []
  end.

Definition creates (domain : string) (f : file) : bool :=
  match data f with
  | Invalid => false
  | Urls _ | Scalar => counted domain f
  end.

(** The URLs a file gives to the key [domain] of the merged dictionary. *)
Definition merged_urls (domain : string) (f : file) : list string :=
  match data f with
  | Urls urls =>
      if negb (Str.startswith (name f) "all_domains_")
         && String.eqb (merge_domain (name f)) domain
      then urls else []
  | Invalid | Scalar => []
  end.

(** [v] followed by the URLs of [urls] that are new, each once. *)
Definition add_all_unique (v urls : list string) : list string :=
  fold_left (fun v url => add_unique url v) urls v.

End Files.

(** A listing with the files of two shops, a file holding a number and a
    combined file. *)
Definition two_shops : list Files.file :=
  [Files.mkFile "shop_com_20240101_120000.json" (Files.Urls ["u1"; "u2"]);
   Files.mkFile "num_1.json" Files.Scalar;
   Files.mkFile "shop_in_20240101_120500.json" (Files.Urls ["u3"; "u1"]);
   Files.mkFile "all_domains_20240101_120000.json" Files.Invalid].

(** ** The TataCliq crawler ([tatacliq_crawler.py]) *)

Module Tata.

(** [l[:n]] for a Python [int] [n]: a negative [n] counts from the end. *)
Definition slice_to (n : Z) (l : list string) : list string :=
  if 0 <=? n then firstn (Z.to_nat n) l
  else firstn (Z.to_nat (Z.of_nat (List.length l) + n)) l.

Section Driver.

(** [load url]: the [href] attributes of the [a] tags of the page the
    driver shows after [driver.get(url)]; [None] when [get], [page_source]
    or the parser raises.  [urljoin] is [None] when it raises. *)
Variable load : string -> option (list string).
Variable urljoin : string -> string -> option string.

(** [extract_product_urls], from the anchors of the current page: an
    exception of [urljoin] leaves the function. *)
Fixpoint extract_product_urls (hrefs : list string) (current_url : string)
  : option (list string) :=
  match hrefs with
  | [] => Some []
  | href :: rest =>
      if Str.contains "/p-" href then
        match urljoin current_url href with
        | None => None
        | Some absolute_url =>
            match extract_product_urls rest current_url with
            | None => None
            | Some product_urls => Some (absolute_url :: product_urls)
            end
        end
      else extract_product_urls rest current_url
  end.

(** The first loop of [crawl_category_pages], over the anchors of the
    home page; it is not inside a [try]. *)
Fixpoint category_links (hrefs : list string) (start_url : string)
  : option (list string) :=
  match hrefs with
  | [] => Some []
  | href :: rest =>
      if negb (Str.nonempty href) || Str.startswith href "#"
         || Str.startswith href "javascript:"
      then category_links rest start_url
      else if Str.contains "/c-" href || Str.contains "category" href
              || Str.contains "department" href
      then
        match urljoin start_url href with
        | None => None
        | Some absolute_url =>
            match category_links rest start_url with
            | None => None
            | Some links => Some (absolute_url :: links)
            end
        end
      else category_links rest start_url
  end.

(** The second loop: an exception inside the [try] leaves [product_urls]
    as it was and goes on with the next category; the loop is left when
    the list has reached [max_products] entries. *)
Fixpoint visit_categories (max_products : Z) (links product_urls : list string)
  : list string :=
  match links with
  | [] => product_urls
  | category_url :: rest =>
      match load category_url with
      | None => visit_categories max_products rest product_urls
      | Some hrefs =>
          match extract_product_urls hrefs category_url with
          | None => visit_categories max_products rest product_urls
          | Some new_product_urls =>
              let product_urls := (product_urls ++ new_product_urls)%list in
              if Z.of_nat (List.length product_urls) >=? max_products
              then product_urls
              else visit_categories max_products rest product_urls
          end
      end
  end.

(** [product_urls] before [list(set(product_urls))]; [None] when the
    function raises. *)
Definition collected (start_url : string) (max_products : Z) : option (list string) :=
  match load start_url with
  | None => None
  | Some hrefs =>
      match category_links hrefs start_url with
      | None => None
      | Some links => Some (visit_categories max_products (firstn 5 links) [])
      end
  end.

(** [crawl_category_pages]: [list(set(product_urls))] is some listing of
    the set, and the result its slice. *)
Definition crawl_category_pages (start_url : string) (max_products : Z)
    (result : list string) : Prop :=
  exists product_urls unique,
    collected start_url max_products = Some product_urls
    /\ set_listing (list_to_set product_urls) unique
    /\ result = slice_to max_products unique.

End Driver.

(** A home page with two categories, which share a product. *)
Definition pages (url : string) : option (list string) :=
  if String.eqb url "https://t.com/" then Some ["/c-shoes"; "#top"; "/c-bags"; "/about"]
  else if String.eqb url "/c-shoes" then Some ["/p-1"; "/p-2"; "/help"]
  else if String.eqb url "/c-bags" then Some ["/p-2"; "/p-3"]
  else None.

Definition join (base href : string) : option string := Some href.

End Tata.

(** ** The text [urlsplit] works on *)

(** The URL as [urlsplit] reads it: C0 controls and spaces stripped on
    the left, tabs and line breaks removed everywhere. *)
Definition stripped (url : string) : string :=
  Str.filter (fun c => negb (Urllib.unsafe_byte c))
    (Str.lstrip Urllib.c0_control_or_space url).

(** A scheme as it is written: a letter, then letters, digits, [+-.] *)
Definition scheme_shaped (s : string) : Prop :=
  exists c0 s', s = String c0 s' /\ Str.is_alpha c0 = true
                /\ Str.forallb Urllib.scheme_char s = true.

(** A host in ASCII without square brackets, which no check of [urlsplit]
    looks at further. *)
Definition plain_host (nl : string) : Prop :=
  nl <> ""
  /\ Str.forallb (fun c => (Str.code c <? 128)%nat && negb (Str.mem c "/?#[]")
                           && negb (Urllib.unsafe_byte c)) nl = true.




(** ** Patterns that do not compile

    [re.search] raises [re.error] for a pattern that is no regular
    expression.  The classifiers above take [re.search] as a total
    function, that is, they are the classifiers for pattern lists that
    compile.  Here the function is partial, [None] standing for the
    exception, which none of the classifiers catches: the loops are left
    at the first pattern that raises. *)

Module Raising.

Section Classifier.

Variable re_search : string -> string -> option bool.

Fixpoint any_match (patterns : list string) (url : string) : option bool :=
  match patterns with
  | [] => Some false
  | pattern :: rest =>
      match re_search pattern url with
      | None => None
      | Some true => Some true
      | Some false => any_match rest url
      end
  end.

(** [is_product_url(url, patterns=None)] of [url_helpers.py] *)
Definition is_product_url (url : string) (patterns : option (list string))
  : option bool :=
  let patterns :=
    match patterns with
    | Some (p :: ps) => p :: ps
    | Some [] | None => default_patterns
    end in
  any_match patterns url.

(** [SimpleEcommerceCrawler.is_product] *)
Definition is_product (product_patterns : list string) (url : string) : option bool :=
  match any_match product_patterns url with
  | None => None
  | Some true => Some true
  | Some false => is_product_url url None
  end.

(** [EcommerceSpider.is_product_url] *)
Definition spider_is_product_url (site_specific_patterns : list string) (url : string)
  : option bool :=
  any_match (all_patterns site_specific_patterns) url.

End Classifier.

End Raising.

(** [re.search] with the pattern compiled first; [None] where the model
    cannot compile the pattern, as for the unterminated class ["["], for
    which Python raises [re.error]. *)
Definition search_or_error (pattern s : string) : option bool :=
  match PyRe.compile pattern with
  | Some r => Some (PyRe.search_from r s)
  | None => None
  end.

(** * Facts *)

(** ** The helpers on the examples of the specification *)

Example canonicalize_strips_noise :
  canonicalize "https://a.com/p?utm_source=x&id=7" = Some "https://a.com/p?id=7".
Proof. reflexivity. Qed.

Example canonicalize_strips_fragment :
  canonicalize "https://a.com/p#section" = Some "https://a.com/p".
Proof. reflexivity. Qed.

Example canonicalize_keeps_trailing_ampersand :
  canonicalize "https://a.com/p?id=7&utm_source=x" = Some "https://a.com/p?id=7&".
Proof. reflexivity. Qed.

Example same_domain_subdomains :
  is_same_domain (Tldextract.extract ["com"; "co"; "co.uk"])
    "https://shop.example.com/x" "https://www.example.com/y" = true.
Proof. reflexivity. Qed.

Example same_domain_other_suffix :
  is_same_domain (Tldextract.extract ["com"; "co"; "co.uk"])
    "https://example.com" "https://example.co" = false.
Proof. reflexivity. Qed.

Example classify_products_path :
  is_product PyRe.search [] "https://a.com/products/123" = true.
Proof. reflexivity. Qed.

Example login_is_excluded :
  is_excluded PyRe.search "https://a.com/login" = true
  /\ is_product PyRe.search [] "https://a.com/login" = false.
Proof. split; reflexivity. Qed.

Example built_in_patterns_compile :
  List.forallb (fun p => match PyRe.compile p with Some _ => true | None => false end)
    (exclude_patterns ++ default_patterns) = true.
Proof. reflexivity. Qed.

Example unconfigured_domain :
  _configure_for_domain ∅ "foo.com" 10 5 = mkSettings ["https://www.foo.com/"] [] 10 5.
Proof. reflexivity. Qed.



(** ** Sets and sizes *)

Lemma size_add_le (u : string) (s : gset string) :
  (size ({[u]} ∪ s) <= S (size s))%nat.
Proof.
  destruct (decide (u ∈ s)) as [Hin | Hnin].
  - assert (Heq : {[u]} ∪ s = s) by set_solver. rewrite Heq. lia.
  - rewrite size_union by set_solver. rewrite size_singleton. lia.
Qed.

Lemma size_add_ge (u : string) (s : gset string) :
  (size s <= size ({[u]} ∪ s))%nat.
Proof. apply subseteq_size. set_solver. Qed.

(** ** The classifier *)

Section ClassifierFacts.

Variable search : string -> string -> bool.

Lemma any_match_existsb patterns url :
  any_match search patterns url = List.existsb (fun p => search p url) patterns.
Proof.
  induction patterns as [| p ps IH]; simpl; [reflexivity |].
  rewrite IH. destruct (search p url); reflexivity.
Qed.

Lemma any_match_app ps qs url :
  any_match search (ps ++ qs) url
  = any_match search ps url || any_match search qs url.
Proof. rewrite !any_match_existsb. apply existsb_app. Qed.

Lemma any_match_true patterns url :
  any_match search patterns url = true
  <-> exists p, In p patterns /\ search p url = true.
Proof. rewrite any_match_existsb. apply existsb_exists. Qed.

End ClassifierFacts.

(** ** The crawl loop *)

Section CrawlFacts.

Variable env : collaborators.

Lemma enqueue_links_spec links depth st :
  enqueue_links env links depth st
  = set_queue (queue st ++ List.map (fun l => (l, depth + 1)) (accepted env st links)) st.
Proof.
  revert st. induction links as [| link rest IH]; intros st.
  - simpl. rewrite app_nil_r. destruct st; reflexivity.
  - simpl. unfold accepted in *. simpl.
    destruct (is_excluded (re_search env) link); simpl; [apply IH |].
    destruct (bool_decide (link ∈ visited_urls st)) eqn:Hv; simpl; [apply IH |].
    rewrite IH. simpl. rewrite <- app_assoc. reflexivity.
Qed.

Lemma iteration_pass cfg st fl st' :
  queue st <> [] -> iteration env cfg st = (fl, st') -> pass env cfg st fl st'.
Proof.
  intros Hq. unfold iteration.
  destruct (queue st) as [| [url depth] q] eqn:Eq; [contradiction |].
  cbv zeta.
  change (visited_urls (set_queue q st)) with (visited_urls st).
  destruct (bool_decide (url ∈ visited_urls st)) eqn:Hv.
  - apply bool_decide_eq_true in Hv. intros [= <- <-]. eapply pass_skip; eauto.
  - apply bool_decide_eq_false in Hv.
    fold (classified env cfg url q st).
    assert (Hx : (is_product (re_search env) (product_patterns cfg) url = true ->
                  product_count (classified env cfg url q st) < max_products cfg) ->
                 depth < max_depth cfg ->
                 forall r,
                   (match fetch_page env url with
                    | Some html =>
                        if Str.nonempty html
                        then (Continue,
                              enqueue_links env (extract_links env html url) depth
                                (log_fetch url (classified env cfg url q st)))
                        else (Continue, log_fetch url (classified env cfg url q st))
                    | None => (Continue, log_fetch url (classified env cfg url q st))
                    end) = r -> pass env cfg st (fst r) (snd r)).
    { intros H1 H2 r <-.
      pose proof (pass_expand env cfg st url depth q Eq Hv H1 H2) as Hx.
      unfold page_links in Hx.
      destruct (fetch_page env url) as [html |]; [destruct (Str.nonempty html) |];
        exact Hx. }
    destruct (is_product (re_search env) (product_patterns cfg) url) eqn:Hp; simpl.
    + destruct (max_products cfg <=? product_count (classified env cfg url q st)) eqn:Hm.
      * apply Z.leb_le in Hm. intros [= <- <-]. eapply pass_limit; eauto.
      * apply Z.leb_gt in Hm.
        destruct (max_depth cfg <=? depth) eqn:Hd.
        -- apply Z.leb_le in Hd. intros [= <- <-]. eapply pass_deep; eauto.
        -- apply Z.leb_gt in Hd. intros H.
           apply (Hx (fun _ => Hm) Hd) in H. exact H.
    + destruct (max_depth cfg <=? depth) eqn:Hd.
      * apply Z.leb_le in Hd. intros [= <- <-]. eapply pass_deep; eauto. congruence.
      * apply Z.leb_gt in Hd. intros H.
        apply Hx in H; [exact H | congruence | exact Hd].
Qed.

Lemma loop_condition_queue cfg st :
  loop_condition cfg st = true -> queue st <> [].
Proof. unfold loop_condition. destruct (queue st); discriminate. Qed.

Lemma loop_condition_count cfg st :
  loop_condition cfg st = true -> product_count st < max_products cfg.
Proof.
  unfold loop_condition. destruct (queue st); [discriminate |].
  apply Z.ltb_lt.
Qed.

(** Every state of a crawl is the seeded state or the result of a pass. *)
Lemma reachable_ind_pass cfg (P : crawler -> Prop) :
  P (seed cfg initial) ->
  (forall st fl st', reachable env cfg st -> P st ->
     product_count st < max_products cfg -> pass env cfg st fl st' -> P st') ->
  forall st, reachable env cfg st -> P st.
Proof.
  intros Hseed Hstep st Hr. induction Hr as [| st fl st' Hr IH Hc Hi].
  - exact Hseed.
  - eapply Hstep; eauto using loop_condition_count.
    apply iteration_pass; eauto using loop_condition_queue.
Qed.

(** *** What a pass changes *)

Lemma classified_visited cfg url q st :
  visited_urls (classified env cfg url q st) = {[url]} ∪ visited_urls st.
Proof. unfold classified. destruct (is_product _ _ _); reflexivity. Qed.

Lemma classified_queue cfg url q st :
  queue (classified env cfg url q st) = q.
Proof. unfold classified. destruct (is_product _ _ _); reflexivity. Qed.

Lemma classified_fetch_log cfg url q st :
  fetch_log (classified env cfg url q st) = fetch_log st.
Proof. unfold classified. destruct (is_product _ _ _); reflexivity. Qed.

Lemma classified_products cfg url q st :
  product_urls (classified env cfg url q st)
  = if is_product (re_search env) (product_patterns cfg) url
    then {[url]} ∪ product_urls st else product_urls st.
Proof. unfold classified. destruct (is_product _ _ _); reflexivity. Qed.

Lemma classified_found_log cfg url q st :
  found_log (classified env cfg url q st)
  = if is_product (re_search env) (product_patterns cfg) url
    then (found_log st ++ [url])%list else found_log st.
Proof. unfold classified. destruct (is_product _ _ _); reflexivity. Qed.

Lemma enqueue_links_visited links depth st :
  visited_urls (enqueue_links env links depth st) = visited_urls st.
Proof. rewrite enqueue_links_spec. reflexivity. Qed.

Lemma enqueue_links_products links depth st :
  product_urls (enqueue_links env links depth st) = product_urls st.
Proof. rewrite enqueue_links_spec. reflexivity. Qed.

Lemma enqueue_links_fetch_log links depth st :
  fetch_log (enqueue_links env links depth st) = fetch_log st.
Proof. rewrite enqueue_links_spec. reflexivity. Qed.

Lemma enqueue_links_found_log links depth st :
  found_log (enqueue_links env links depth st) = found_log st.
Proof. rewrite enqueue_links_spec. reflexivity. Qed.

Lemma enqueue_links_queue links depth st :
  queue (enqueue_links env links depth st)
  = (queue st ++ List.map (fun l => (l, depth + 1)) (accepted env st links))%list.
Proof. rewrite enqueue_links_spec. reflexivity. Qed.

Lemma classified_count_le cfg url q st :
  product_count (classified env cfg url q st) <= product_count st + 1.
Proof.
  unfold product_count. rewrite classified_products.
  destruct (is_product _ _ _); [| lia].
  pose proof (size_add_le url (product_urls st)). lia.
Qed.

Lemma pass_count_le cfg st fl st' :
  pass env cfg st fl st' -> product_count st' <= product_count st + 1.
Proof.
  intros [url depth q Hq Hv | url depth q Hq Hv Hp Hm | url depth q Hq Hv Hp Hd
         | url depth q Hq Hv Hp Hd].
  - unfold product_count; simpl; lia.
  - apply classified_count_le.
  - apply classified_count_le.
  - unfold product_count. rewrite enqueue_links_products. simpl.
    apply classified_count_le.
Qed.

(** *** Invariants of the two sets and the two traces *)

Lemma consistent_seed cfg : consistent env cfg (seed cfg initial).
Proof.
  split; simpl; try set_solver; try apply NoDup_nil_2.
Qed.

Lemma consistent_classified cfg url q st :
  url ∉ visited_urls st ->
  consistent env cfg st -> consistent env cfg (classified env cfg url q st).
Proof.
  intros Hv [H1 H2 H3 H4 H5 H6].
  split; rewrite ?classified_visited, ?classified_products, ?classified_found_log,
           ?classified_fetch_log.
  - destruct (is_product _ _ _); set_solver.
  - intros u Hu Hp. apply elem_of_union in Hu as [Hu | Hu].
    + apply elem_of_singleton in Hu as ->. rewrite Hp. set_solver.
    + destruct (is_product _ _ url); [apply elem_of_union_r |]; auto.
  - destruct (is_product _ _ _); [| assumption].
    apply NoDup_app. split; [assumption |]. split; [| apply NoDup_singleton].
    intros x Hx Hx'. apply list_elem_of_singleton in Hx' as ->.
    apply H4 in Hx. set_solver.
  - intros u. destruct (is_product _ _ _); [| apply H4].
    rewrite elem_of_app, list_elem_of_singleton, H4. set_solver.
  - assumption.
  - intros u Hu. apply H6 in Hu. set_solver.
Qed.

Lemma consistent_pass cfg st fl st' :
  consistent env cfg st -> pass env cfg st fl st' -> consistent env cfg st'.
Proof.
  intros Hc [url depth q Hq Hv | url depth q Hq Hv Hp Hm | url depth q Hq Hv Hp Hd
            | url depth q Hq Hv Hp Hd].
  - destruct Hc; split; simpl; assumption.
  - apply consistent_classified; assumption.
  - apply consistent_classified; assumption.
  - pose proof (consistent_classified cfg url q st Hv Hc) as [H1 H2 H3 H4 H5 H6].
    rewrite classified_fetch_log in H5, H6.
    split; rewrite ?enqueue_links_visited, ?enqueue_links_products,
             ?enqueue_links_found_log, ?enqueue_links_fetch_log; simpl;
      rewrite ?classified_fetch_log; try assumption.
    + apply NoDup_app. split; [assumption |]. split; [| apply NoDup_singleton].
      intros x Hx Hx'. apply list_elem_of_singleton in Hx' as ->.
      apply (fetch_visited _ _ _ Hc) in Hx. contradiction.
    + intros u Hu. apply elem_of_app in Hu as [Hu | Hu].
      * apply H6. exact Hu.
      * apply list_elem_of_singleton in Hu as ->.
        rewrite classified_visited. set_solver.
Qed.

Lemma reachable_consistent cfg st : reachable env cfg st -> consistent env cfg st.
Proof.
  apply reachable_ind_pass.
  - apply consistent_seed.
  - intros s fl s' _ Hc _ Hp. eapply consistent_pass; eauto.
Qed.

(** *** The product limit *)

Lemma reachable_count cfg st :
  0 <= max_products cfg -> reachable env cfg st ->
  product_count st <= max_products cfg.
Proof.
  intros Hmax. revert st.
  apply (reachable_ind_pass cfg (fun st => product_count st <= max_products cfg)).
  - unfold product_count.
    change (product_urls (seed cfg initial)) with (∅ : gset string).
    rewrite size_empty. lia.
  - intros s fl s' _ _ Hlt Hp. apply pass_count_le in Hp. lia.
Qed.

(** *** The exclusion gate *)

Lemma accepted_not_excluded st links u :
  u ∈ accepted env st links -> is_excluded (re_search env) u = false.
Proof.
  unfold accepted. rewrite list_elem_of_In, filter_In. intros [_ H].
  apply andb_true_iff in H as [H _]. apply negb_true_iff in H. exact H.
Qed.

Lemma all_gated_pass cfg st fl st' :
  all_gated env cfg st -> pass env cfg st fl st' -> all_gated env cfg st'.
Proof.
  intros [Hq Hvis] Hp.
  assert (Hhead : forall url depth q, queue st = (url, depth) :: q ->
            gated env cfg url /\ forall u d, (u, d) ∈ q -> gated env cfg u).
  { intros url depth q E. rewrite E in Hq. split.
    - apply (Hq url depth). left.
    - intros u d Hu. apply (Hq u d). right. exact Hu. }
  destruct Hp as [url depth q E Hv | url depth q E Hv Hp Hm | url depth q E Hv Hp Hd
                 | url depth q E Hv Hp Hd];
    destruct (Hhead _ _ _ E) as [Hu Hrest].
  - split; simpl; assumption.
  - split; rewrite ?classified_queue, ?classified_visited; [assumption |].
    intros u Hin. apply elem_of_union in Hin as [Hin | Hin]; [| auto].
    apply elem_of_singleton in Hin as ->. exact Hu.
  - split; rewrite ?classified_queue, ?classified_visited; [assumption |].
    intros u Hin. apply elem_of_union in Hin as [Hin | Hin]; [| auto].
    apply elem_of_singleton in Hin as ->. exact Hu.
  - split; rewrite ?enqueue_links_queue, ?enqueue_links_visited; simpl;
      rewrite ?classified_queue, ?classified_visited.
    + intros u d Hin. apply elem_of_app in Hin as [Hin | Hin]; [eauto |].
      apply list_elem_of_In, in_map_iff in Hin as [l [[= <- <-] Hl]].
      right. eapply accepted_not_excluded. apply list_elem_of_In. exact Hl.
    + intros u Hin. apply elem_of_union in Hin as [Hin | Hin]; [| auto].
      apply elem_of_singleton in Hin as ->. exact Hu.
Qed.

Lemma reachable_gated cfg st : reachable env cfg st -> all_gated env cfg st.
Proof.
  apply reachable_ind_pass.
  - split; simpl; [| set_solver].
    intros u d Hin. left.
    apply list_elem_of_In, in_map_iff in Hin as [x [[= <- <-] Hx]].
    apply list_elem_of_In. exact Hx.
  - intros s fl s' _ Hg _ Hp. eapply all_gated_pass; eauto.
Qed.

(** *** Termination *)

Lemma cost_pos k url : (1 <= cost env k url)%nat.
Proof. destruct k; simpl; lia. Qed.

Lemma list_sum_filter_le {A} (f : A -> nat) (p : A -> bool) (l : list A) :
  (list_sum (List.map f (List.filter p l)) <= list_sum (List.map f l))%nat.
Proof.
  induction l as [| x l IH]; simpl; [lia |].
  destruct (p x); simpl; lia.
Qed.

Lemma queue_cost_app cfg q1 q2 :
  queue_cost env cfg (q1 ++ q2) = (queue_cost env cfg q1 + queue_cost env cfg q2)%nat.
Proof. unfold queue_cost. rewrite List.map_app, list_sum_app. reflexivity. Qed.

Lemma queue_cost_cons cfg it q :
  queue_cost env cfg (it :: q) = (item_cost env cfg it + queue_cost env cfg q)%nat.
Proof. reflexivity. Qed.

Lemma queue_cost_children cfg (depth : Z) st links :
  Nat.le
    (queue_cost env cfg (List.map (fun l => (l, depth + 1)) (accepted env st links)))
    (list_sum (List.map (cost env (Z.to_nat (max_depth cfg - (depth + 1)))) links)).
Proof.
  unfold queue_cost. rewrite List.map_map. unfold item_cost. simpl.
  apply (list_sum_filter_le (cost env (Z.to_nat (max_depth cfg - (depth + 1))))).
Qed.

(** A pass that does not leave the loop lowers the cost of the queue. *)
Lemma pass_cost cfg st st' :
  pass env cfg st Continue st' ->
  (queue_cost env cfg (queue st') < queue_cost env cfg (queue st))%nat.
Proof.
  intros Hp. inversion Hp as [url depth q Hq Hv | | url depth q Hq Hv Hpr Hd
                             | url depth q Hq Hv Hpr Hd]; subst;
    rewrite Hq, queue_cost_cons;
    pose proof (cost_pos (Z.to_nat (max_depth cfg - depth)) url) as Hpos;
    unfold item_cost at 1; simpl fst; simpl snd.
  - simpl. lia.
  - rewrite classified_queue. lia.
  - rewrite enqueue_links_queue. simpl queue. rewrite classified_queue, queue_cost_app.
    pose proof (queue_cost_children cfg depth
                  (log_fetch url (classified env cfg url q st)) (page_links env url)) as Hc.
    replace (Z.to_nat (max_depth cfg - depth))
      with (S (Z.to_nat (max_depth cfg - (depth + 1)))) by lia.
    simpl cost. lia.
Qed.

(** The loop returns as soon as the fuel covers the cost of the queue. *)
Lemma crawl_loop_total cfg fuel st :
  (queue_cost env cfg (queue st) <= fuel)%nat ->
  exists r, crawl_loop env cfg fuel st = Some r.
Proof.
  revert st. induction fuel as [| fuel IH]; intros st Hc; simpl.
  - destruct (loop_condition cfg st) eqn:Hl; [| eauto].
    apply loop_condition_queue in Hl.
    destruct (queue st) as [| it q]; [contradiction |].
    rewrite queue_cost_cons in Hc.
    pose proof (cost_pos (Z.to_nat (max_depth cfg - snd it)) (fst it)).
    unfold item_cost in Hc. lia.
  - destruct (loop_condition cfg st) eqn:Hl; [| eauto].
    destruct (iteration env cfg st) as [[|] st'] eqn:Hi; [| eauto].
    apply IH.
    apply iteration_pass in Hi; [| eauto using loop_condition_queue].
    apply pass_cost in Hi. lia.
Qed.

Lemma crawl_total cfg :
  exists fuel r, crawl env cfg fuel = Some r.
Proof.
  exists (queue_cost env cfg (queue (seed cfg initial))).
  apply crawl_loop_total. lia.
Qed.

(** More fuel does not change the result. *)
Lemma crawl_loop_fuel cfg fuel fuel' st r :
  (fuel <= fuel')%nat ->
  crawl_loop env cfg fuel st = Some r -> crawl_loop env cfg fuel' st = Some r.
Proof.
  revert fuel' st. induction fuel as [| fuel IH]; intros fuel' st Hle; simpl.
  - destruct (loop_condition cfg st) eqn:Hl; [discriminate |].
    intros H. destruct fuel'; simpl; rewrite Hl; exact H.
  - destruct fuel' as [| fuel']; [lia |]. simpl.
    destruct (loop_condition cfg st); [| auto].
    destruct (iteration env cfg st) as [[|] st']; [| auto].
    apply IH. lia.
Qed.

(** The state the loop returns is a state of the crawl, and the loop has
    left it with the queue empty or the limit reached. *)
Lemma crawl_loop_final cfg fuel st r :
  reachable env cfg st ->
  crawl_loop env cfg fuel st = Some r ->
  reachable env cfg r /\ (queue r = [] \/ max_products cfg <= product_count r).
Proof.
  revert st. induction fuel as [| fuel IH]; intros st Hr; simpl.
  - destruct (loop_condition cfg st) eqn:Hl; [discriminate |].
    intros [= <-]. split; [exact Hr |].
    unfold loop_condition in Hl. destruct (queue st); [left; reflexivity |].
    right. apply Z.ltb_ge in Hl. exact Hl.
  - destruct (loop_condition cfg st) eqn:Hl.
    + destruct (iteration env cfg st) as [[|] st'] eqn:Hi.
      * apply IH. eapply reach_pass; eauto.
      * intros [= <-]. split; [eapply reach_pass; eauto |].
        apply iteration_pass in Hi; [| eauto using loop_condition_queue].
        inversion Hi; subst. right. assumption.
    + intros [= <-]. split; [exact Hr |].
      unfold loop_condition in Hl. destruct (queue st); [left; reflexivity |].
      right. apply Z.ltb_ge in Hl. exact Hl.
Qed.

(** *** A lower limit stops the same crawl earlier *)

(** *** A lower limit stops the same crawl earlier *)

Lemma iteration_with_limit n m cfg st :
  product_count st < n -> n <= m ->
  match iteration env (with_limit n cfg) st with
  | (Break, s) => product_count s = n
  | (Continue, s) =>
      iteration env (with_limit m cfg) st = (Continue, s) /\ product_count s <= n
  end.
Proof.
  intros Hlt Hnm. unfold iteration.
  destruct (queue st) as [| [url depth] q] eqn:Eq; [split; [reflexivity | lia] |].
  cbv zeta.
  change (visited_urls (set_queue q st)) with (visited_urls st).
  change (product_patterns (with_limit n cfg)) with (product_patterns cfg).
  change (product_patterns (with_limit m cfg)) with (product_patterns cfg).
  change (max_products (with_limit n cfg)) with n.
  change (max_products (with_limit m cfg)) with m.
  change (max_depth (with_limit n cfg)) with (max_depth cfg).
  change (max_depth (with_limit m cfg)) with (max_depth cfg).
  destruct (bool_decide (url ∈ visited_urls st)).
  { split; [reflexivity |]. unfold product_count in *. simpl. lia. }
  fold (classified env cfg url q st).
  pose proof (classified_count_le cfg url q st) as Hle.
  set (c := classified env cfg url q st) in *.
  destruct (is_product (re_search env) (product_patterns cfg) url); simpl.
  - destruct (n <=? product_count c) eqn:Hn.
    + apply Z.leb_le in Hn. lia.
    + apply Z.leb_gt in Hn.
      assert (Hm : (m <=? product_count c) = false) by (apply Z.leb_gt; lia).
      rewrite Hm.
      destruct (max_depth cfg <=? depth); [split; [reflexivity | lia] |].
      destruct (fetch_page env url) as [html |]; [destruct (Str.nonempty html) |];
        (split; [reflexivity |]); unfold product_count in *;
        rewrite ?enqueue_links_products; simpl; lia.
  - destruct (max_depth cfg <=? depth); [split; [reflexivity | lia] |].
    destruct (fetch_page env url) as [html |]; [destruct (Str.nonempty html) |];
      (split; [reflexivity |]); unfold product_count in *;
      rewrite ?enqueue_links_products; simpl; lia.
Qed.

Lemma crawl_loop_with_limit n m cfg fuel st r_m :
  n <= m ->
  product_count st <= n ->
  crawl_loop env (with_limit m cfg) fuel st = Some r_m ->
  n <= product_count r_m ->
  exists r, crawl_loop env (with_limit n cfg) fuel st = Some r /\ product_count r = n.
Proof.
  intros Hnm. revert st. induction fuel as [| fuel IH]; intros st Hle.
  - simpl. unfold loop_condition.
    change (max_products (with_limit n cfg)) with n.
    change (max_products (with_limit m cfg)) with m.
    destruct (queue st) as [| it q].
    + intros [= <-] Hge. exists st. split; [reflexivity | lia].
    + destruct (product_count st <? m) eqn:Hm; [discriminate |].
      intros [= <-] Hge. apply Z.ltb_ge in Hm.
      assert (Hn : (product_count st <? n) = false) by (apply Z.ltb_ge; lia).
      rewrite Hn. exists st. split; [reflexivity | lia].
  - simpl. unfold loop_condition.
    change (max_products (with_limit n cfg)) with n.
    change (max_products (with_limit m cfg)) with m.
    destruct (queue st) as [| it q] eqn:Eq.
    + intros [= <-] Hge. exists st. split; [reflexivity | lia].
    + destruct (product_count st <? n) eqn:Hn.
      * apply Z.ltb_lt in Hn.
        assert (Hm : (product_count st <? m) = true) by (apply Z.ltb_lt; lia).
        rewrite Hm.
        pose proof (iteration_with_limit n m cfg st Hn Hnm) as Hi.
        destruct (iteration env (with_limit n cfg) st) as [[|] s].
        -- destruct Hi as [Hi Hs]. rewrite Hi. apply IH. exact Hs.
        -- intros _ _. exists s. split; [reflexivity | exact Hi].
      * intros _ _. apply Z.ltb_ge in Hn. exists st. split; [reflexivity | lia].
Qed.

Lemma with_limit_same cfg : with_limit (max_products cfg) cfg = cfg.
Proof. destruct cfg; reflexivity. Qed.

End CrawlFacts.
(** ** The synthetic site *)

Lemma crawl_reachable env cfg fuel r :
  crawl env cfg fuel = Some r -> reachable env cfg r.
Proof.
  intros H. eapply crawl_loop_final in H as [H _]; [exact H | apply reach_seed].
Qed.

Lemma shop_final_two :
  crawl (Site.env Site.shop) Site.two_products 10
  = Some (Site.final Site.shop Site.two_products 10).
Proof. vm_compute. reflexivity. Qed.

Lemma shop_final_ten :
  crawl (Site.env Site.shop) Site.ten_products 10
  = Some (Site.final Site.shop Site.ten_products 10).
Proof. vm_compute. reflexivity. Qed.

Lemma about_final :
  crawl (Site.env Site.about) Site.about_settings 5
  = Some (Site.final Site.about Site.about_settings 5).
Proof. vm_compute. reflexivity. Qed.

(** ** Breadth-first completeness *)

Section Completeness.

Variable env : collaborators.

Lemma queue_levels_head u hd q v d :
  queue_levels ((u, hd) :: q) -> (v, d) ∈ (u, hd) :: q -> hd <= d.
Proof.
  intros [m [A [B E]]] Hin. rewrite E in Hin.
  destruct A as [| a A]; simpl in E, Hin.
  - destruct B as [| b B]; [discriminate |].
    apply list_elem_of_In, in_map_iff in Hin as [x [[= <- <-] _]].
    simpl in E. injection E as Eu Em Eq. lia.
  - injection E as Eu Em Eq.
    apply elem_of_cons in Hin as [[= -> ->] | Hin]; [lia |].
    apply elem_of_app in Hin as [Hin | Hin];
      apply list_elem_of_In, in_map_iff in Hin as [x [[= <- <-] _]]; lia.
Qed.

(** Popping the head and appending items one level deeper keeps the shape. *)
Lemma queue_levels_pass u hd q C :
  queue_levels ((u, hd) :: q) ->
  queue_levels (q ++ List.map (fun l => (l, hd + 1)) C).
Proof.
  intros [m [A [B E]]].
  destruct A as [| a A]; simpl in E.
  - destruct B as [| b B]; [discriminate |]. simpl in E.
    injection E as Eu Em Eq. rewrite Eq, Em. exists (m + 1), B, C. reflexivity.
  - injection E as Eu Em Eq. rewrite Eq, Em. exists m, A, (B ++ C)%list.
    rewrite List.map_app, app_assoc. reflexivity.
Qed.

Lemma queue_levels_tail u hd q :
  queue_levels ((u, hd) :: q) -> queue_levels q.
Proof.
  intros H. apply (queue_levels_pass u hd q []) in H.
  simpl in H. rewrite app_nil_r in H. exact H.
Qed.

(** Every URL nearer to the seeds than the head of the queue is visited. *)
Lemma bfs_below_head cfg st u hd q :
  bfs env cfg st -> queue st = (u, hd) :: q ->
  forall n v, reach env cfg n v -> Z.of_nat n < hd -> v ∈ visited_urls st.
Proof.
  intros [Hl Hc] Hq. rewrite Hq in Hl.
  induction n as [| n IH]; intros v Hr Hn.
  - destruct (Hc 0%nat v Hr) as [Hv | [[d [Hd Hin]] | [k [w [E _]]]]];
      [exact Hv | | discriminate].
    rewrite Hq in Hin. apply (queue_levels_head _ _ _ _ _ Hl) in Hin. lia.
  - destruct (Hc (S n) v Hr) as [Hv | [[d [Hd Hin]] | [k [w [E [Hw [Hk [_ Hnv]]]]]]]];
      [exact Hv | |].
    + rewrite Hq in Hin. apply (queue_levels_head _ _ _ _ _ Hl) in Hin. lia.
    + injection E as <-. exfalso. apply Hnv. apply IH; [exact Hw | lia].
Qed.

(** With the queue empty, every URL of the link graph is visited. *)
Lemma bfs_empty_queue cfg st :
  bfs env cfg st -> queue st = [] ->
  forall n v, reach env cfg n v -> v ∈ visited_urls st.
Proof.
  intros [Hl Hc] Hq.
  induction n as [| n IH]; intros v Hr.
  - destruct (Hc 0%nat v Hr) as [Hv | [[d [Hd Hin]] | [k [w [E _]]]]];
      [exact Hv | | discriminate].
    rewrite Hq in Hin. inversion Hin.
  - destruct (Hc (S n) v Hr) as [Hv | [[d [Hd Hin]] | [k [w [E [Hw [Hk [_ Hnv]]]]]]]];
      [exact Hv | |].
    + rewrite Hq in Hin. inversion Hin.
    + injection E as <-. exfalso. apply Hnv. apply IH. exact Hw.
Qed.

Lemma bfs_seed cfg : bfs env cfg (seed cfg initial).
Proof.
  split.
  - exists 0, (start_urls cfg), []. simpl. rewrite app_nil_r. reflexivity.
  - intros n v Hr. destruct Hr as [s Hs | n u v Hu Hn He].
    + right. left. exists 0. split; [lia |]. simpl.
      apply list_elem_of_In, in_map_iff. exists s.
      split; [reflexivity | apply list_elem_of_In; exact Hs].
    + right. right. exists n, u.
      split; [reflexivity |]. split; [exact Hu |]. split; [exact Hn |].
      split; [exact He |].
      change (visited_urls (seed cfg initial)) with (∅ : gset string).
      apply not_elem_of_empty.
Qed.

Lemma accepted_elem st links v :
  v ∈ links -> is_excluded (re_search env) v = false -> v ∉ visited_urls st ->
  v ∈ accepted env st links.
Proof.
  intros Hin Hex Hv. unfold accepted.
  apply list_elem_of_In, filter_In. split; [apply list_elem_of_In; exact Hin |].
  rewrite Hex. simpl. apply negb_true_iff, bool_decide_eq_false_2. exact Hv.
Qed.

(** A pass that stays in the loop keeps the invariant. *)
Lemma bfs_pass cfg st st' :
  bfs env cfg st -> pass env cfg st Continue st' -> bfs env cfg st'.
Proof.
  intros Hb Hp.
  inversion Hp as [u hd q Hq Hv | | u hd q Hq Hv Hpr Hd | u hd q Hq Hv Hpr Hd]; subst.
  - (* the popped URL was visited already *)
    destruct Hb as [Hl Hc]. rewrite Hq in Hl. split.
    + simpl. eapply queue_levels_tail; eauto.
    + intros n v Hr. destruct (Hc n v Hr) as [H | [[d [Hd Hin]] | H]].
      * left. exact H.
      * rewrite Hq in Hin. apply elem_of_cons in Hin as [[= -> ->] | Hin].
        -- left. exact Hv.
        -- right. left. exists d. split; [exact Hd | exact Hin].
      * right. right. exact H.
  - (* at the depth limit: marked, not expanded *)
    pose proof (bfs_below_head cfg st u hd q Hb Hq) as Hlow.
    destruct Hb as [Hl Hc]. rewrite Hq in Hl. split.
    + rewrite classified_queue. eapply queue_levels_tail; eauto.
    + intros n v Hr. unfold cover. rewrite classified_visited, classified_queue.
      destruct (Hc n v Hr) as [H | [[d [Hd' Hin]] | [k [w [E [Hw [Hk [He Hnv]]]]]]]].
      * left. set_solver.
      * rewrite Hq in Hin. apply elem_of_cons in Hin as [[= -> ->] | Hin].
        -- left. set_solver.
        -- right. left. exists d. split; [exact Hd' | exact Hin].
      * destruct (decide (w = u)) as [-> | Hne].
        -- exfalso. apply Hv. apply (Hlow k u Hw). lia.
        -- right. right. exists k, w.
           split; [exact E |]. split; [exact Hw |]. split; [exact Hk |].
           split; [exact He |]. set_solver.
  - (* expanded *)
    pose proof (bfs_below_head cfg st u hd q Hb Hq) as Hlow.
    destruct Hb as [Hl Hc]. rewrite Hq in Hl. split.
    + rewrite enqueue_links_queue. simpl queue. rewrite classified_queue.
      eapply queue_levels_pass; eauto.
    + intros n v Hr. unfold cover.
      rewrite enqueue_links_visited, enqueue_links_queue. simpl.
      rewrite classified_visited, classified_queue.
      destruct (Hc n v Hr) as [H | [[d [Hd' Hin]] | [k [w [E [Hw [Hk [He Hnv]]]]]]]].
      * left. set_solver.
      * rewrite Hq in Hin. apply elem_of_cons in Hin as [[= -> ->] | Hin].
        -- left. set_solver.
        -- right. left. exists d. split; [exact Hd' |].
           apply elem_of_app. left. exact Hin.
      * destruct (decide (w = u)) as [-> | Hne].
        -- destruct (decide (v ∈ ({[u]} ∪ visited_urls st : gset string))) as [Hin | Hnin];
             [left; exact Hin |].
           right. left. exists (hd + 1). split.
           ++ assert (~ Z.of_nat k < hd) by (intros Hlt; apply Hv, (Hlow k u Hw Hlt)).
              lia.
           ++ apply elem_of_app. right.
              apply list_elem_of_In, in_map_iff. exists v. split; [reflexivity |].
              apply list_elem_of_In. destruct He as [He1 He2].
              apply accepted_elem; [exact He1 | exact He2 |].
              simpl. rewrite classified_visited. exact Hnin.
        -- right. right. exists k, w.
           split; [exact E |]. split; [exact Hw |]. split; [exact Hk |].
           split; [exact He |]. set_solver.
Qed.

(** A crawl that ends below the limit has emptied the queue and visited
    the whole link graph. *)
Lemma crawl_loop_complete cfg fuel st r :
  bfs env cfg st ->
  crawl_loop env cfg fuel st = Some r ->
  product_count r < max_products cfg ->
  bfs env cfg r /\ queue r = [].
Proof.
  revert st. induction fuel as [| fuel IH]; intros st Hb; simpl.
  - destruct (loop_condition cfg st) eqn:Hl; [discriminate |].
    intros [= <-] Hlt. split; [exact Hb |].
    unfold loop_condition in Hl. destruct (queue st); [reflexivity |].
    apply Z.ltb_ge in Hl. lia.
  - destruct (loop_condition cfg st) eqn:Hl.
    + destruct (iteration env cfg st) as [[|] st'] eqn:Hi;
        (apply iteration_pass in Hi; [| eauto using loop_condition_queue]).
      * apply IH. eapply bfs_pass; eauto.
      * intros [= <-] Hlt. inversion Hi; subst. lia.
    + intros [= <-] Hlt. split; [exact Hb |].
      unfold loop_condition in Hl. destruct (queue st); [reflexivity |].
      apply Z.ltb_ge in Hl. lia.
Qed.

(** With enough product URLs in the link graph the crawl ends at the limit. *)
Lemma crawl_reaches_limit cfg fuel r (products : list string) :
  0 <= max_products cfg ->
  NoDup products ->
  (forall u, u ∈ products ->
     (exists n, reach env cfg n u)
     /\ is_product (re_search env) (product_patterns cfg) u = true) ->
  max_products cfg <= Z.of_nat (List.length products) ->
  crawl env cfg fuel = Some r ->
  product_count r = max_products cfg.
Proof.
  intros Hmax Hnd Hprod Hlen Hrun.
  pose proof (crawl_reachable env cfg fuel r Hrun) as Hr.
  pose proof (reachable_count env cfg r Hmax Hr) as Hle.
  destruct (Z.eq_dec (product_count r) (max_products cfg)) as [E | Hne]; [exact E |].
  exfalso.
  destruct (crawl_loop_complete cfg fuel (seed cfg initial) r (bfs_seed cfg) Hrun)
    as [Hb Hq]; [lia |].
  pose proof (reachable_consistent env cfg r Hr) as Hc.
  assert (Hsub : (list_to_set products : gset string) ⊆ product_urls r).
  { intros u Hu. apply elem_of_list_to_set in Hu.
    destruct (Hprod u Hu) as [[n Hn] Hp].
    apply (visited_classified _ _ _ Hc); [| exact Hp].
    apply (bfs_empty_queue cfg r Hb Hq n u Hn). }
  apply subseteq_size in Hsub. rewrite size_list_to_set in Hsub by exact Hnd.
  unfold product_count in *. lia.
Qed.

End Completeness.
(** ** C1: when a URL is marked visited *)

(** C1, counterexample.  On a page that links twice to the same category
    page, the pass over the home page leaves that URL in the queue twice
    and not in the visited set: enqueueing neither marks the URL visited
    nor rejects the second copy. *)
Lemma same_url_queued_twice :
  exists st,
    iteration (Site.env Site.twice) Site.two_products
      (seed Site.two_products initial) = (Continue, st)
    /\ queue st = [("https://www.shop.com/c/shoes", 1); ("https://www.shop.com/c/shoes", 1)]
    /\ "https://www.shop.com/c/shoes" ∉ visited_urls st.
Proof.
  eexists. split; [vm_compute; reflexivity |]. split; [reflexivity |].
  apply (bool_decide_unpack _). vm_compute. exact I.
Qed.

(** C1, as amended.  A URL is marked visited when it is dequeued, not when
    it is enqueued: enqueueing links leaves the visited set as it is, and a
    link that is not excluded and not yet visited is appended each time it
    is met; a dequeued URL that is already visited is dropped without being
    classified or fetched, so that in every state of a crawl no URL has been
    fetched twice or logged as a product twice. *)
Theorem visited_at_dequeue env cfg st :
  reachable env cfg st ->
  (forall links depth,
      visited_urls (enqueue_links env links depth st) = visited_urls st)
  /\ (forall link depth,
        is_excluded (re_search env) link = false ->
        link ∉ visited_urls st ->
        queue (enqueue_links env [link; link] depth st)
        = (queue st ++ [(link, depth + 1); (link, depth + 1)])%list)
  /\ (forall url depth q,
        queue st = (url, depth) :: q ->
        url ∈ visited_urls st ->
        iteration env cfg st = (Continue, set_queue q st))
  /\ NoDup (fetch_log st)
  /\ NoDup (found_log st).
Proof.
  intros Hr. pose proof (reachable_consistent env cfg st Hr) as Hc.
  split; [| split; [| split; [| split]]].
  - intros links depth. apply enqueue_links_visited.
  - intros link depth Hex Hv.
    assert (Hb : bool_decide (link ∈ visited_urls st) = false)
      by (apply bool_decide_eq_false_2; exact Hv).
    simpl. rewrite Hex, Hb. simpl. rewrite ?Hb.
    simpl. rewrite <- app_assoc. reflexivity.
  - intros url depth q Hq Hv. unfold iteration. rewrite Hq. cbv zeta.
    change (visited_urls (set_queue q st)) with (visited_urls st).
    assert (Hb : bool_decide (url ∈ visited_urls st) = true)
      by (apply bool_decide_eq_true_2; exact Hv).
    rewrite Hb. reflexivity.
  - apply (fetch_nodup _ _ _ Hc).
  - apply (found_nodup _ _ _ Hc).
Qed.

Lemma visited_at_dequeue_witness :
  NoDup (fetch_log (Site.final Site.shop Site.two_products 10))
  /\ NoDup (found_log (Site.final Site.shop Site.two_products 10)).
Proof.
  apply (visited_at_dequeue (Site.env Site.shop) Site.two_products).
  apply crawl_reachable with (fuel := 10%nat). apply shop_final_two.
Defined.

(** ** C2: the product limit *)

Lemma shop_product_reach u :
  u ∈ ["https://www.shop.com/p/1"; "https://www.shop.com/p/2"] ->
  (exists n, reach (Site.env Site.shop) Site.two_products n u)
  /\ is_product PyRe.search (product_patterns Site.two_products) u = true.
Proof.
  intros Hu.
  assert (Hhome : reach (Site.env Site.shop) Site.two_products 0 Site.home).
  { apply reach_start. left. }
  assert (Hdepth : Z.of_nat 0 < max_depth Site.two_products) by reflexivity.
  apply elem_of_cons in Hu as [-> | Hu];
    [| apply elem_of_cons in Hu as [-> | Hu]; [| inversion Hu]].
  - split; [| reflexivity]. exists 1%nat.
    apply (reach_link _ _ _ _ _ Hhome Hdepth).
    split; [| reflexivity]. apply (bool_decide_unpack _). vm_compute. exact I.
  - split; [| reflexivity]. exists 1%nat.
    apply (reach_link _ _ _ _ _ Hhome Hdepth).
    split; [| reflexivity]. apply (bool_decide_unpack _). vm_compute. exact I.
Qed.

(** C2.  With a limit that is not negative, the number of recorded product
    URLs is at most the limit in every state of a crawl, and the crawl
    returns.  When the link graph the crawl can walk (links that pass the
    exclusion gate, followed from the seeds through pages below
    [max_depth]) holds at least [max_products] distinct URLs the classifier
    accepts, the crawl ends with exactly [max_products] recorded URLs; so
    it does whenever the same crawl under a larger limit records at least
    that many.  It can end with the queue not empty. *)
Theorem product_limit env cfg :
  0 <= max_products cfg ->
  (forall st, reachable env cfg st -> product_count st <= max_products cfg)
  /\ (exists fuel r, crawl env cfg fuel = Some r)
  /\ (forall products fuel r,
        NoDup products ->
        (forall u, u ∈ products ->
           (exists n, reach env cfg n u)
           /\ is_product (re_search env) (product_patterns cfg) u = true) ->
        max_products cfg <= Z.of_nat (List.length products) ->
        crawl env cfg fuel = Some r ->
        product_count r = max_products cfg)
  /\ (forall m fuel r_m,
        max_products cfg <= m ->
        crawl env (with_limit m cfg) fuel = Some r_m ->
        max_products cfg <= product_count r_m ->
        exists r, crawl env cfg fuel = Some r
                  /\ product_count r = max_products cfg)
  /\ (exists r,
        crawl (Site.env Site.shop) Site.two_products 10 = Some r
        /\ product_count r = max_products Site.two_products
        /\ queue r <> []).
Proof.
  intros Hmax. split; [| split; [| split; [| split]]].
  - intros st Hr. apply (reachable_count env cfg st Hmax Hr).
  - apply crawl_total.
  - intros products fuel r Hnd Hp Hlen Hrun.
    apply (crawl_reaches_limit env cfg fuel r products Hmax Hnd Hp Hlen Hrun).
  - intros m fuel r_m Hm Hrun Hge.
    destruct (crawl_loop_with_limit env (max_products cfg) m cfg fuel
                (seed (with_limit m cfg) initial) r_m Hm) as [r [Hr Hn]].
    + unfold product_count. change (product_urls (seed (with_limit m cfg) initial))
        with (∅ : gset string). rewrite size_empty. exact Hmax.
    + exact Hrun.
    + exact Hge.
    + exists r. split; [| exact Hn].
      unfold crawl. rewrite with_limit_same in Hr. exact Hr.
  - exists (Site.final Site.shop Site.two_products 10).
    split; [apply shop_final_two |]. split; [vm_compute; reflexivity |].
    vm_compute. discriminate.
Qed.

Lemma product_limit_witness :
  0 <= max_products Site.two_products
  /\ product_count (Site.final Site.shop Site.two_products 10) = 2.
Proof.
  assert (H : 0 <= max_products Site.two_products) by (vm_compute; discriminate).
  split; [exact H |].
  apply (proj1 (proj2 (proj2 (product_limit (Site.env Site.shop) Site.two_products H)))
           ["https://www.shop.com/p/1"; "https://www.shop.com/p/2"] 10%nat).
  - apply (bool_decide_unpack _). vm_compute. exact I.
  - apply shop_product_reach.
  - vm_compute. discriminate.
  - apply shop_final_two.
Defined.

(** ** C3: items at the depth limit *)



(** ** C4: the exclusion gate *)

(** C4, counterexample.  A seed URL that matches the exclude pattern
    [/about] and the product pattern [/product[s]?/] is recorded as a
    product: seeds are queued without passing the gate. *)
Lemma excluded_seed_recorded :
  is_excluded PyRe.search Site.about_us = true
  /\ crawl (Site.env Site.about) Site.about_settings 5
     = Some (Site.final Site.about Site.about_settings 5)
  /\ Site.about_us ∈ product_urls (Site.final Site.about Site.about_settings 5).
Proof.
  split; [reflexivity |]. split; [apply about_final |].
  apply (bool_decide_unpack _). vm_compute. exact I.
Qed.

(** C4, as amended.  The exclusion gate stands before the queue for
    discovered links only: an excluded link is not enqueued, and in every
    state of a crawl each URL in the queue, in the visited set or recorded
    as a product is a seed URL or matches no exclude pattern, whatever
    include patterns it matches. *)
Theorem excluded_links_never_products env cfg st :
  reachable env cfg st ->
  (forall link depth,
      is_excluded (re_search env) link = true ->
      enqueue_links env [link] depth st = st)
  /\ (forall u d, (u, d) ∈ queue st ->
        u ∈ start_urls cfg \/ is_excluded (re_search env) u = false)
  /\ (forall u, u ∈ visited_urls st ->
        u ∈ start_urls cfg \/ is_excluded (re_search env) u = false)
  /\ (forall u, u ∈ product_urls st ->
        u ∈ start_urls cfg \/ is_excluded (re_search env) u = false).
Proof.
  intros Hr. pose proof (reachable_gated env cfg st Hr) as [Hq Hv].
  pose proof (reachable_consistent env cfg st Hr) as Hc.
  split; [| split; [| split]].
  - intros link depth Hex. simpl. rewrite Hex. reflexivity.
  - exact Hq.
  - exact Hv.
  - intros u Hu. apply Hv. apply (products_visited _ _ _ Hc). exact Hu.
Qed.

Lemma excluded_links_never_products_witness :
  "https://www.shop.com/p/1" ∈ start_urls Site.two_products
  \/ is_excluded PyRe.search "https://www.shop.com/p/1" = false.
Proof.
  apply (excluded_links_never_products (Site.env Site.shop) Site.two_products
           (Site.final Site.shop Site.two_products 10)).
  - apply crawl_reachable with (fuel := 10%nat). apply shop_final_two.
  - apply (bool_decide_unpack _). vm_compute. exact I.
Defined.
(** ** C8: what is written at the end of a crawl *)

Lemma map_filter_nodup {A B} (f : A -> B) (p : A -> bool) (l : list A) :
  NoDup (List.map f l) -> NoDup (List.map f (List.filter p l)).
Proof.
  induction l as [| x l IH]; simpl; intros H; [exact H |].
  apply NoDup_cons in H as [Hx Hl].
  destruct (p x); simpl; [| auto].
  apply NoDup_cons. split; [| auto].
  intros Hin. apply Hx.
  apply list_elem_of_In, in_map_iff in Hin as [y [Hy Hin]].
  apply filter_In in Hin as [Hin _].
  apply list_elem_of_In, in_map_iff. eauto.
Qed.

Lemma first_occurrences_fresh seen items :
  NoDup (List.map Items.url (first_occurrences seen items))
  /\ forall u, u ∈ List.map Items.url (first_occurrences seen items) -> u ∉ seen.
Proof.
  revert seen. induction items as [| item rest IH]; intros seen; simpl.
  - split; [apply NoDup_nil_2 | intros u Hu; inversion Hu].
  - destruct (bool_decide (Items.url item ∈ seen)) eqn:Hs; [apply IH |].
    apply bool_decide_eq_false in Hs.
    destruct (IH ({[Items.url item]} ∪ seen)) as [Hnd Hfresh]. simpl. split.
    + apply NoDup_cons. split; [| exact Hnd].
      intros Hin. apply Hfresh in Hin. set_solver.
    + intros u Hu. apply elem_of_cons in Hu as [-> | Hu]; [exact Hs |].
      apply Hfresh in Hu. set_solver.
Qed.

Lemma domain_urls_process_item st item d :
  Pipelines.domain_urls (Pipelines.process_item st item) d
  = (Pipelines.domain_urls st d
     ++ List.map Items.url
          (List.filter (in_domain d) (first_occurrences (Pipelines.urls_seen st) [item])))%list
  /\ Pipelines.urls_seen (Pipelines.process_item st item)
     = {[Items.url item]} ∪ Pipelines.urls_seen st.
Proof.
  unfold Pipelines.process_item, Pipelines.duplicates_process_item. simpl.
  destruct (bool_decide (Items.url item ∈ Pipelines.urls_seen st)) eqn:Hs.
  - apply bool_decide_eq_true in Hs. simpl. rewrite app_nil_r.
    split; [reflexivity | set_solver].
  - split; [| reflexivity].
    unfold Pipelines.output_process_item, Pipelines.domain_urls, in_domain. simpl.
    destruct (String.eqb_spec (Items.domain item) d) as [-> | Hne].
    + rewrite lookup_insert_eq. simpl. rewrite List.map_app. reflexivity.
    + rewrite lookup_insert_ne by exact Hne. simpl. rewrite app_nil_r. reflexivity.
Qed.

Lemma first_occurrences_cons seen item rest :
  first_occurrences seen (item :: rest)
  = (first_occurrences seen [item]
     ++ first_occurrences ({[Items.url item]} ∪ seen) rest)%list.
Proof.
  simpl. destruct (bool_decide (Items.url item ∈ seen)) eqn:Hs; simpl; [| reflexivity].
  apply bool_decide_eq_true in Hs.
  assert (Heq : {[Items.url item]} ∪ seen = seen) by set_solver.
  rewrite Heq. reflexivity.
Qed.

Lemma domain_urls_process_items items st d :
  Pipelines.domain_urls (Pipelines.process_items items st) d
  = (Pipelines.domain_urls st d
     ++ List.map Items.url
          (List.filter (in_domain d) (first_occurrences (Pipelines.urls_seen st) items)))%list.
Proof.
  revert st. induction items as [| item rest IH]; intros st.
  - simpl. rewrite app_nil_r. reflexivity.
  - change (Pipelines.process_items (item :: rest) st)
      with (Pipelines.process_items rest (Pipelines.process_item st item)).
    rewrite IH. destruct (domain_urls_process_item st item d) as [-> ->].
    rewrite (first_occurrences_cons (Pipelines.urls_seen st) item rest).
    rewrite List.filter_app, List.map_app, app_assoc. reflexivity.
Qed.

Lemma shop_found_log :
  found_log (Site.final Site.shop Site.ten_products 10)
  = ["https://www.shop.com/p/1"; "https://www.shop.com/p/2";
     "https://www.shop.com/p/3"].
Proof. vm_compute. reflexivity. Qed.

Lemma shop_listing :
  _save_results (Site.final Site.shop Site.ten_products 10)
    ["https://www.shop.com/p/2"; "https://www.shop.com/p/1";
     "https://www.shop.com/p/3"].
Proof.
  pose proof (reachable_consistent _ _ _ (crawl_reachable _ _ _ _ shop_final_ten)) as Hc.
  split.
  - apply (bool_decide_unpack _). vm_compute. exact I.
  - intros x. rewrite <- (found_products _ _ _ Hc). rewrite shop_found_log.
    rewrite !elem_of_cons. tauto.
Qed.

(** C8, counterexample.  The crawl of the three-product site logs the
    products in the order 1, 2, 3; the list [2, 1, 3] has the same
    elements, each once, so it is a list the set of product URLs can be
    written as, and it is not the discovery order. *)
Lemma saved_order_not_discovery_order :
  found_log (Site.final Site.shop Site.ten_products 10)
  = ["https://www.shop.com/p/1"; "https://www.shop.com/p/2";
     "https://www.shop.com/p/3"]
  /\ _save_results (Site.final Site.shop Site.ten_products 10)
       ["https://www.shop.com/p/2"; "https://www.shop.com/p/1";
        "https://www.shop.com/p/3"]
  /\ ["https://www.shop.com/p/2"; "https://www.shop.com/p/1";
      "https://www.shop.com/p/3"]
     <> found_log (Site.final Site.shop Site.ten_products 10).
Proof.
  split; [apply shop_found_log |]. split; [apply shop_listing |].
  rewrite shop_found_log. discriminate.
Qed.

(** C8, as amended.  The list the direct crawler writes holds each
    recorded product URL once, in the order a Python set yields them: it
    is a permutation of the discovery order, not necessarily that order.
    In the Scrapy driver the list written for a domain is in discovery
    order and without duplicates: it holds, in order of arrival, the URLs
    of the items of that domain whose URL had not arrived before. *)
Theorem saved_results_distinct env cfg st written items d :
  reachable env cfg st ->
  _save_results st written ->
  NoDup written
  /\ written ≡ₚ found_log st
  /\ Pipelines.domain_urls (Pipelines.process_items items Pipelines.empty) d
     = List.map Items.url (List.filter (in_domain d) (first_occurrences ∅ items))
  /\ NoDup (Pipelines.domain_urls (Pipelines.process_items items Pipelines.empty) d).
Proof.
  intros Hr [Hnd Hel].
  pose proof (reachable_consistent env cfg st Hr) as Hc.
  assert (Hp : Pipelines.domain_urls (Pipelines.process_items items Pipelines.empty) d
               = List.map Items.url (List.filter (in_domain d) (first_occurrences ∅ items))).
  { rewrite domain_urls_process_items. reflexivity. }
  split; [exact Hnd |]. split; [| split; [exact Hp |]].
  - apply NoDup_Permutation; [exact Hnd | apply (found_nodup _ _ _ Hc) |].
    intros x. rewrite Hel. symmetry. apply (found_products _ _ _ Hc).
  - rewrite Hp. apply map_filter_nodup. apply first_occurrences_fresh.
Qed.

Lemma saved_results_distinct_witness :
  NoDup ["https://www.shop.com/p/2"; "https://www.shop.com/p/1";
         "https://www.shop.com/p/3"]
  /\ ["https://www.shop.com/p/2"; "https://www.shop.com/p/1";
      "https://www.shop.com/p/3"]
     ≡ₚ found_log (Site.final Site.shop Site.ten_products 10).
Proof.
  pose proof (saved_results_distinct (Site.env Site.shop) Site.ten_products
                (Site.final Site.shop Site.ten_products 10)
                ["https://www.shop.com/p/2"; "https://www.shop.com/p/1";
                 "https://www.shop.com/p/3"]
                [] "shop.com"
                (crawl_reachable _ _ _ _ shop_final_ten)
                shop_listing) as H.
  split; [exact (proj1 H) | exact (proj1 (proj2 H))].
Defined.

(** ** C7: the classifier *)

(** C7, counterexample.  The domain supplies a pattern of its own, that
    pattern does not match, and the URL is accepted all the same: the
    generic patterns are consulted although the domain has patterns. *)
Lemma generic_patterns_always_consulted :
  any_match PyRe.search ["/dp/"] "https://a.com/product/1" = false
  /\ is_product PyRe.search ["/dp/"] "https://a.com/product/1" = true.
Proof. split; reflexivity. Qed.

Section RaisingFacts.

Variable search : string -> string -> option bool.

(** The loop is left at the first pattern that matches or raises. *)
Lemma raising_any_match_first l url o :
  o <> Some false ->
  Raising.any_match search l url = o
  <-> exists l1 p l2,
        l = (l1 ++ p :: l2)%list /\ search p url = o
        /\ forall q, In q l1 -> search q url = Some false.
Proof.
  intros Ho. induction l as [| p rest IH]; cbn [Raising.any_match].
  - split; [intros H; congruence |].
    intros [l1 [p [l2 [E _]]]]. destruct l1; discriminate.
  - assert (Hstop : search p url = o ->
              exists l1 p0 l2,
                (p :: rest = l1 ++ p0 :: l2)%list /\ search p0 url = o
                /\ forall q, In q l1 -> search q url = Some false).
    { intros Hp. exists [], p, rest. split; [reflexivity |].
      split; [exact Hp | intros q []]. }
    assert (Hhead : forall l1 p0 l2,
              (p :: rest = l1 ++ p0 :: l2)%list -> search p0 url = o ->
              (forall q, In q l1 -> search q url = Some false) ->
              search p url = o
              \/ (search p url = Some false
                  /\ exists l1', l1 = p :: l1' /\ (rest = l1' ++ p0 :: l2)%list)).
    { intros l1 p0 l2 E Hp0 Hl1. destruct l1 as [| x l1'].
      - left. simpl in E. congruence.
      - right. simpl in E. injection E as -> E.
        split; [apply Hl1; left; reflexivity | eauto]. }
    destruct (search p url) as [[|] |] eqn:Hp.
    + split; [intros <-; apply Hstop; reflexivity |].
      intros [l1 [p0 [l2 [E [Hp0 Hl1]]]]].
      destruct (Hhead l1 p0 l2 E Hp0 Hl1) as [H | [H _]]; congruence.
    + rewrite IH. split.
      * intros [l1 [p0 [l2 [E [Hp0 Hl1]]]]]. exists (p :: l1), p0, l2.
        split; [simpl; rewrite E; reflexivity |]. split; [exact Hp0 |].
        intros q [<- | Hq]; [exact Hp | apply Hl1, Hq].
      * intros [l1 [p0 [l2 [E [Hp0 Hl1]]]]].
        destruct (Hhead l1 p0 l2 E Hp0 Hl1) as [H | [_ [l1' [-> E']]]];
          [congruence |].
        exists l1', p0, l2. split; [exact E' |]. split; [exact Hp0 |].
        intros q Hq. apply Hl1. right. exact Hq.
    + split; [intros <-; apply Hstop; reflexivity |].
      intros [l1 [p0 [l2 [E [Hp0 Hl1]]]]].
      destruct (Hhead l1 p0 l2 E Hp0 Hl1) as [H | [H _]]; congruence.
Qed.

Lemma raising_any_match_false l url :
  Raising.any_match search l url = Some false
  <-> forall q, In q l -> search q url = Some false.
Proof.
  induction l as [| p rest IH]; cbn [Raising.any_match].
  - split; [intros _ q [] | reflexivity].
  - destruct (search p url) as [[|] |] eqn:Hp.
    + split; [discriminate |]. intros H. rewrite <- Hp. apply H. left. reflexivity.
    + rewrite IH. split.
      * intros H q [<- | Hq]; [exact Hp | apply H, Hq].
      * intros H q Hq. apply H. right. exact Hq.
    + split; [discriminate |]. intros H. rewrite <- Hp. apply H. left. reflexivity.
Qed.

Lemma raising_any_match_app l1 l2 url :
  Raising.any_match search (l1 ++ l2) url
  = match Raising.any_match search l1 url with
    | Some false => Raising.any_match search l2 url
    | r => r
    end.
Proof.
  induction l1 as [| p rest IH]; cbn [Raising.any_match app]; [reflexivity |].
  destruct (search p url) as [[|] |]; [reflexivity | exact IH | reflexivity].
Qed.

Lemma raising_is_product patterns url :
  Raising.is_product search patterns url
  = Raising.any_match search (patterns ++ default_patterns) url.
Proof.
  rewrite raising_any_match_app. unfold Raising.is_product, Raising.is_product_url.
  destruct (Raising.any_match search patterns url) as [[|] |]; reflexivity.
Qed.

(** With patterns that compile the partial classifiers are the total ones. *)
Lemma raising_any_match_total (total : string -> string -> bool) l url :
  (forall p, search p url = Some (total p url)) ->
  Raising.any_match search l url = Some (any_match total l url).
Proof.
  intros H. induction l as [| p rest IH]; cbn [Raising.any_match any_match];
    [reflexivity |].
  rewrite H. destruct (total p url); [reflexivity | exact IH].
Qed.

(** The order of two lists shows only in which of them raises first. *)
Lemma raising_any_match_comm l1 l2 url b1 b2 :
  Raising.any_match search (l1 ++ l2) url = Some b1 ->
  Raising.any_match search (l2 ++ l1) url = Some b2 ->
  b1 = b2.
Proof.
  assert (Hsw : forall a b,
            Raising.any_match search (a ++ b) url = Some false ->
            Raising.any_match search (b ++ a) url = Some false).
  { intros a b H. apply raising_any_match_false. intros q Hq.
    apply (proj1 (raising_any_match_false _ _) H).
    apply in_app_iff. apply in_app_iff in Hq. tauto. }
  intros H1 H2. destruct b1, b2; try reflexivity.
  - apply Hsw in H2. congruence.
  - apply Hsw in H1. congruence.
Qed.

End RaisingFacts.

(** C7, as amended.  [SimpleEcommerceCrawler.is_product] tries the
    domain-specific patterns first and then, whether or not the domain
    supplies patterns, the built-in generic ones: the loop over the two
    lists, in that order, is left at the first pattern that matches the
    URL, with true, or that is no regular expression, with the exception
    of [re.search], and gives false when every pattern fails to match.
    The spider tries the generic patterns before the site-specific ones,
    which shows when a pattern raises: with the one domain pattern ["["]
    and a URL under [/product/], [is_product] raises and the spider
    returns true.  Only the helper [is_product_url] takes the generic
    patterns in place of a list that is missing or empty.  For pattern
    lists that compile the result is the one of the total classifier. *)
Theorem is_product_any_pattern (search : string -> string -> option bool)
    (patterns : list string) (url : string) :
  Raising.is_product search patterns url
  = Raising.any_match search (patterns ++ default_patterns) url
  /\ Raising.spider_is_product_url search patterns url
     = Raising.any_match search (common_product_patterns ++ patterns) url
  /\ (forall l,
        (Raising.any_match search l url = Some true
         <-> exists l1 p l2,
               l = (l1 ++ p :: l2)%list /\ search p url = Some true
               /\ forall q, In q l1 -> search q url = Some false)
        /\ (Raising.any_match search l url = None
            <-> exists l1 p l2,
                  l = (l1 ++ p :: l2)%list /\ search p url = None
                  /\ forall q, In q l1 -> search q url = Some false)
        /\ (Raising.any_match search l url = Some false
            <-> forall q, In q l -> search q url = Some false))
  /\ Raising.is_product_url search url (Some patterns)
     = Raising.any_match search
         (match patterns with [] => default_patterns | _ :: _ => patterns end) url
  /\ Raising.is_product_url search url None
     = Raising.any_match search default_patterns url
  /\ Raising.is_product search_or_error ["["] "https://a.com/product/1" = None
  /\ Raising.spider_is_product_url search_or_error ["["] "https://a.com/product/1"
     = Some true
  /\ (forall total : string -> string -> bool,
        (forall p, search p url = Some (total p url)) ->
        Raising.is_product search patterns url = Some (is_product total patterns url)
        /\ (is_product total patterns url = true
            <-> exists p, In p (patterns ++ default_patterns) /\ total p url = true)).
Proof.
  split; [apply raising_is_product |]. split; [reflexivity |].
  split; [intros l; split; [| split] |].
  - apply raising_any_match_first. discriminate.
  - apply raising_any_match_first. discriminate.
  - apply raising_any_match_false.
  - split; [destruct patterns; reflexivity |]. split; [reflexivity |].
    split; [reflexivity |]. split; [reflexivity |].
    intros total H.
    assert (Ht : is_product total patterns url
                 = any_match total (patterns ++ default_patterns) url).
    { unfold is_product, is_product_url. rewrite any_match_app.
      destruct (any_match total patterns url); reflexivity. }
    split; [| rewrite Ht; apply any_match_true].
    rewrite raising_is_product, Ht.
    apply (raising_any_match_total search total _ url H).
Qed.

(** ** C6: validity *)

Lemma mem_filter c p s : Str.mem c s = false -> Str.mem c (Str.filter p s) = false.
Proof.
  unfold Str.mem. induction s as [| x s IH]; simpl; [reflexivity |].
  intros H. apply orb_false_iff in H as [H1 H2].
  destruct (p x); simpl; [rewrite H1 |]; auto.
Qed.

Lemma mem_lstrip c p s : Str.mem c s = false -> Str.mem c (Str.lstrip p s) = false.
Proof.
  unfold Str.mem. induction s as [| x s IH]; simpl; [reflexivity |].
  intros H. apply orb_false_iff in H as [H1 H2].
  destruct (p x); simpl; [| rewrite H1]; auto.
Qed.

Lemma span_all p s :
  Str.forallb p s = true -> Str.span p s = (s, EmptyString).
Proof.
  induction s as [| x s IH]; simpl; [reflexivity |].
  intros H. apply andb_true_iff in H as [H1 H2]. rewrite H1, IH by exact H2.
  reflexivity.
Qed.

Lemma not_mem_forallb c s :
  Str.mem c s = false -> Str.forallb (fun x => negb (Ascii.eqb x c)) s = true.
Proof.
  unfold Str.mem. induction s as [| x s IH]; simpl; [reflexivity |].
  intros H. apply orb_false_iff in H as [H1 H2].
  rewrite Ascii.eqb_sym, H1. simpl. auto.
Qed.

Lemma split_scheme_no_colon url :
  Str.mem ":" url = false -> Urllib.split_scheme url = (EmptyString, url).
Proof.
  intros H. unfold Urllib.split_scheme.
  rewrite span_all by (apply not_mem_forallb; exact H).
  destruct url; reflexivity.
Qed.

Lemma no_colon_no_scheme url :
  Str.mem ":" url = false -> is_valid_url url = false.
Proof.
  intros H. unfold is_valid_url, Urllib.urlparse, Urllib.urlsplit.
  rewrite split_scheme_no_colon by (apply mem_filter, mem_lstrip; exact H).
  match goal with |- context [if ?b then Urllib._splitnetloc ?u else ?x] =>
    destruct (if b then Urllib._splitnetloc u else x) as [nl url2] end.
  destruct (Urllib.bracket_error nl); [reflexivity |].
  destruct (Urllib.split_once "#" url2) as [url3 frag].
  destruct (Urllib.split_once "?" url3) as [url4 q].
  simpl Urllib.s_scheme. simpl Urllib.s_path.
  match goal with |- context [if ?b then Urllib._splitparams ?u else ?x] =>
    destruct (if b then Urllib._splitparams u else x) as [pth prm] end.
  reflexivity.
Qed.

(** C6, counterexample.  An [ftp] URL with a host is accepted. *)
Lemma ftp_url_is_valid : is_valid_url "ftp://example.com/file.txt" = true.
Proof. reflexivity. Qed.

(** ** C9: canonicalizing twice *)

(** C9, the failing input.  The first pass deletes [utm_a=1&] from the
    middle of the key [utm_utm_a] and leaves [utm_a=2], which the second
    pass deletes. *)
Lemma canonicalize_twice_differs :
  is_valid_url "https://a.com/p?utm_utm_a=1&a=2" = true
  /\ canonicalize "https://a.com/p?utm_utm_a=1&a=2" = Some "https://a.com/p?utm_a=2"
  /\ canonicalize "https://a.com/p?utm_a=2" = Some "https://a.com/p".
Proof. repeat split; reflexivity. Qed.

(** ** C10: the domain of a host without a public suffix *)

Lemma string_length_app (a b : string) :
  String.length (a ++ b) = (String.length a + String.length b)%nat.
Proof. induction a as [| c a IH]; simpl; [reflexivity | rewrite IH; reflexivity]. Qed.

Lemma parse_links_loop_domain env pats limit response_url d links n item :
  In item (fst (parse_links_loop env pats limit response_url d links n)) ->
  Items.domain item = d.
Proof.
  revert n. induction links as [| link rest IH]; intros n; simpl; [tauto |].
  destruct (urljoin env response_url link) as [u |]; [| simpl; tauto].
  destruct (negb (is_valid_url u)); [apply IH |].
  destruct (negb (is_same_domain (tld_extract env) u response_url)); [apply IH |].
  destruct (canonicalize u) as [u' |]; [| simpl; tauto].
  destruct (spider_is_product_url (re_search env) pats u'); [| apply IH].
  destruct (limit_reached limit n); [simpl; tauto |].
  specialize (IH (n + 1)).
  destruct (parse_links_loop env pats limit response_url d rest (n + 1)) as [items n'].
  simpl in *. intros [<- | Hin]; [reflexivity | auto].
Qed.




(** ** C5: fragments and noise parameters *)

(** *** Strings *)

#[local] Arguments String.append !_ _ / : simpl nomatch.

Lemma string_app_assoc (a b c : string) : (a ++ b) ++ c = a ++ (b ++ c).
Proof. induction a as [| x a IH]; [reflexivity |]. simpl. f_equal. exact IH. Qed.

Lemma string_app_nil_r (a : string) : a ++ "" = a.
Proof. induction a as [| x a IH]; [reflexivity |]. simpl. f_equal. exact IH. Qed.

Lemma span_app (p : ascii -> bool) (a : string) :
  fst (Str.span p a) ++ snd (Str.span p a) = a.
Proof.
  induction a as [| x a IH]; simpl; [reflexivity |].
  destruct (p x); [| reflexivity].
  destruct (Str.span p a) as [u v]. simpl in *. rewrite IH. reflexivity.
Qed.

(** A character that fails the test ends the prefix. *)
Lemma span_app_stop p a c b :
  p c = false ->
  Str.span p (a ++ String c b) = (fst (Str.span p a), snd (Str.span p a) ++ String c b).
Proof.
  intros Hc. induction a as [| x a IH]; simpl.
  - rewrite Hc. reflexivity.
  - destruct (p x); [| reflexivity].
    rewrite IH. destruct (Str.span p a) as [u v]. reflexivity.
Qed.

(** A prefix that ends inside [a] is not moved by what follows [a]. *)
Lemma span_app_inside p a b :
  snd (Str.span p a) <> "" ->
  Str.span p (a ++ b) = (fst (Str.span p a), snd (Str.span p a) ++ b).
Proof.
  induction a as [| x a IH]; simpl; [contradiction |].
  destruct (p x); [| reflexivity].
  destruct (Str.span p a) as [u v] eqn:E. simpl. intros Hv.
  rewrite IH by exact Hv. reflexivity.
Qed.

Lemma span_app_through p a b :
  snd (Str.span p a) = "" ->
  Str.span p (a ++ b) = (a ++ fst (Str.span p b), snd (Str.span p b)).
Proof.
  induction a as [| x a IH]; simpl.
  - intros _. destruct (Str.span p b); reflexivity.
  - destruct (p x); [| discriminate].
    destruct (Str.span p a) as [u v] eqn:E. simpl. intros Hv.
    rewrite IH by exact Hv. destruct (Str.span p b); reflexivity.
Qed.

Lemma mem_app c a b : Str.mem c (a ++ b) = Str.mem c a || Str.mem c b.
Proof.
  unfold Str.mem. induction a as [| x a IH]; simpl; [reflexivity |].
  rewrite IH, orb_assoc. reflexivity.
Qed.

Lemma mem_span c p a :
  Str.mem c a = false ->
  Str.mem c (fst (Str.span p a)) = false /\ Str.mem c (snd (Str.span p a)) = false.
Proof.
  intros H. rewrite <- (span_app p a), mem_app in H.
  apply orb_false_iff in H. exact H.
Qed.

Lemma mem_drop c n a : Str.mem c a = false -> Str.mem c (Str.drop n a) = false.
Proof.
  revert a. induction n as [| n IH]; intros a H; [exact H |].
  destruct a as [| x a]; [reflexivity |]. simpl.
  unfold Str.mem in H. simpl in H. apply orb_false_iff in H as [_ H]. apply IH, H.
Qed.

Lemma forallb_app p a b : Str.forallb p (a ++ b) = Str.forallb p a && Str.forallb p b.
Proof.
  induction a as [| x a IH]; simpl; [reflexivity |].
  rewrite IH, andb_assoc. reflexivity.
Qed.

Lemma filter_app p a b : Str.filter p (a ++ b) = Str.filter p a ++ Str.filter p b.
Proof.
  induction a as [| x a IH]; simpl; [reflexivity |].
  rewrite IH. destruct (p x); reflexivity.
Qed.

Lemma lstrip_app_stop p a c b :
  p c = false -> Str.lstrip p (a ++ String c b) = Str.lstrip p a ++ String c b.
Proof.
  intros Hc. induction a as [| x a IH]; simpl.
  - rewrite Hc. reflexivity.
  - destruct (p x); [exact IH | reflexivity].
Qed.

(** *** [urlsplit] and the fragment *)

Lemma split_scheme_fragment b f :
  Str.mem "#" b = false ->
  Urllib.split_scheme (b ++ String "#" f)
  = (fst (Urllib.split_scheme b), snd (Urllib.split_scheme b) ++ String "#" f)
  /\ Str.mem "#" (snd (Urllib.split_scheme b)) = false.
Proof.
  intros Hb. unfold Urllib.split_scheme.
  set (p := fun c : ascii => negb (Ascii.eqb c ":")).
  pose proof (mem_span "#" p b Hb) as [Hpre Hrest].
  pose proof (span_app p b) as Happ.
  destruct (Str.span p b) as [pre rest] eqn:E. simpl in *.
  destruct rest as [| c rest0].
  - rewrite string_app_nil_r in Happ. subst pre.
    rewrite (span_app_through p b (String "#" f)) by (rewrite E; reflexivity).
    assert (Hno : forall t, Str.forallb Urllib.scheme_char (b ++ String "#" t) = false).
    { intros t. rewrite forallb_app. simpl. apply andb_false_r. }
    destruct (Str.span p (String "#" f)) as [pre2 rest2] eqn:E2.
    simpl in E2. destruct (Str.span p f) as [u v]. injection E2 as <- <-.
    simpl fst. simpl snd.
    destruct b as [| c0 b']; simpl; [destruct v; split; auto |].
    destruct v as [| y v']; [split; auto |].
    specialize (Hno u). simpl in Hno. rewrite Hno, andb_false_r. split; auto.
  - rewrite (span_app_inside p b (String "#" f)) by (rewrite E; discriminate).
    rewrite E. simpl fst. simpl snd.
    destruct pre as [| c0 pre']; [split; auto |].
    change (String c rest0 ++ String "#" f) with (String c (rest0 ++ String "#" f)).
    cbv iota beta.
    destruct (Str.is_alpha c0 && Str.forallb Urllib.scheme_char (String c0 pre'));
      simpl; split; auto.
    unfold Str.mem in *. simpl in Hrest. apply orb_false_iff in Hrest as [_ H]. exact H.
Qed.

Lemma startswith_slashes_fragment r f :
  Str.mem "#" r = false ->
  Str.startswith (r ++ String "#" f) "//" = Str.startswith r "//".
Proof.
  intros H. unfold Str.startswith.
  destruct r as [| c1 [| c2 r]]; cbn [String.append Str.strip_prefix].
  - reflexivity.
  - destruct (Ascii.eqb "/" c1); reflexivity.
  - destruct (Ascii.eqb "/" c1); [| reflexivity].
    destruct (Ascii.eqb "/" c2); reflexivity.
Qed.

Lemma drop2_fragment r f :
  Str.startswith r "//" = true ->
  Str.drop 2 (r ++ String "#" f) = Str.drop 2 r ++ String "#" f.
Proof.
  unfold Str.startswith.
  destruct r as [| c1 [| c2 r]]; cbn [String.append Str.strip_prefix Str.drop].
  - discriminate.
  - destruct (Ascii.eqb "/" c1); discriminate.
  - reflexivity.
Qed.

Lemma split_once_fragment u f :
  Str.mem "#" u = false ->
  Urllib.split_once "#" (u ++ String "#" f) = (u, f)
  /\ Urllib.split_once "#" u = (u, "").
Proof.
  intros H. unfold Urllib.split_once.
  assert (Hs : Str.span (fun x => negb (Ascii.eqb x "#")) u = (u, "")).
  { apply span_all. apply not_mem_forallb. exact H. }
  rewrite span_app_stop by reflexivity. rewrite Hs. simpl. split; reflexivity.
Qed.

Lemma urlsplit_fragment base f :
  Str.mem "#" base = false ->
  Urllib.urlsplit (base ++ String "#" f)
  = option_map
      (Urllib.with_fragment (Str.filter (fun c => negb (Urllib.unsafe_byte c)) f))
      (Urllib.urlsplit base)
  /\ forall r, Urllib.urlsplit base = Some r -> Urllib.s_fragment r = "".
Proof.
  intros Hb. unfold Urllib.urlsplit.
  rewrite lstrip_app_stop by reflexivity.
  rewrite filter_app. simpl Str.filter.
  set (b := Str.filter (fun c => negb (Urllib.unsafe_byte c))
              (Str.lstrip Urllib.c0_control_or_space base)).
  set (f' := Str.filter (fun c => negb (Urllib.unsafe_byte c)) f).
  assert (Hb' : Str.mem "#" b = false) by (apply mem_filter, mem_lstrip; exact Hb).
  destruct (split_scheme_fragment b f' Hb') as [Hs Hr]. rewrite Hs.
  destruct (Urllib.split_scheme b) as [sch r]. simpl fst in *. simpl snd in *.
  rewrite startswith_slashes_fragment by exact Hr.
  assert (Hn : exists nl url2,
             (if Str.startswith r "//" then Urllib._splitnetloc r else ("", r)) = (nl, url2)
             /\ (if Str.startswith r "//" then Urllib._splitnetloc (r ++ String "#" f')
                 else ("", r ++ String "#" f')) = (nl, url2 ++ String "#" f')
             /\ Str.mem "#" url2 = false).
  { destruct (Str.startswith r "//") eqn:Hsl.
    - unfold Urllib._splitnetloc. rewrite drop2_fragment by exact Hsl.
      rewrite span_app_stop by reflexivity.
      pose proof (mem_span "#" (fun c => negb (Str.mem c "/?#")) (Str.drop 2 r)
                    (mem_drop _ _ _ Hr)) as [_ H2].
      destruct (Str.span _ (Str.drop 2 r)) as [nl url2]. eauto.
    - eauto. }
  destruct Hn as [nl [url2 [E1 [E2 Hu]]]]. rewrite E1, E2.
  destruct (Urllib.bracket_error nl); [split; [reflexivity | discriminate] |].
  destruct (split_once_fragment url2 f' Hu) as [F1 F2]. rewrite F1, F2.
  destruct (Urllib.split_once "?" url2) as [url4 q].
  split; [reflexivity |]. intros r0 [= <-]. reflexivity.
Qed.




(** *** The substitution *)




Lemma sub_noise_from_subseq s : forall n, Str.subseq (Re.sub_noise_from n s) s.
Proof.
  induction s as [| c s IH]; intros n; simpl; [constructor |].
  destruct n as [| n]; [| constructor; apply IH].
  destruct (Re.noise_match (String c s)); constructor; apply IH.
Qed.









Lemma contains_startswith sub s :
  Str.contains sub s = false -> Str.startswith s sub = false.
Proof.
  destruct s as [| c s]; simpl; intros H; apply orb_false_iff in H; apply H.
Qed.



(** * Further properties *)

(** ** The crawl loop and the link graph *)

Section CrawlGraphFacts.

Variable env : collaborators.

Lemma grounded_seed cfg : grounded env cfg (seed cfg initial).
Proof.
  split; simpl.
  - intros u d Hin. apply list_elem_of_In, in_map_iff in Hin as [s [[= <- <-] Hs]].
    exists 0%nat. split; [reflexivity |]. apply reach_start, list_elem_of_In, Hs.
  - intros u Hu. apply not_elem_of_empty in Hu. contradiction.
  - intros u Hu. inversion Hu.
  - intros u Hu. apply not_elem_of_empty in Hu. contradiction.
Qed.

Lemma grounded_classified cfg st url depth q :
  grounded env cfg st -> queue st = (url, depth) :: q ->
  grounded env cfg (classified env cfg url q st).
Proof.
  intros [Hq Hv Hf Hp] E.
  destruct (Hq url depth) as [n [Hd Hn]]; [rewrite E; left |].
  split; rewrite ?classified_queue, ?classified_visited, ?classified_fetch_log,
           ?classified_products.
  - intros u d Hin. apply Hq. rewrite E. right. exact Hin.
  - intros u Hu. apply elem_of_union in Hu as [Hu | Hu]; [| auto].
    apply elem_of_singleton in Hu as ->. eauto.
  - exact Hf.
  - intros u. destruct (is_product (re_search env) (product_patterns cfg) url) eqn:Hpr;
      [| apply Hp].
    intros Hu. apply elem_of_union in Hu as [Hu | Hu]; [| auto].
    apply elem_of_singleton in Hu as ->. exact Hpr.
Qed.

Lemma accepted_edge st url v :
  v ∈ accepted env st (page_links env url) -> edge env url v.
Proof.
  intros H. split; [| eapply accepted_not_excluded; exact H].
  unfold accepted in H. apply list_elem_of_In, filter_In in H as [H _].
  apply list_elem_of_In. exact H.
Qed.

Lemma grounded_pass cfg st fl st' :
  grounded env cfg st -> pass env cfg st fl st' -> grounded env cfg st'.
Proof.
  intros Hg Hp.
  destruct Hp as [url depth q E Hv | url depth q E Hv Hpr Hm | url depth q E Hv Hpr Hd
                 | url depth q E Hv Hpr Hd].
  - destruct Hg as [Hq Hvis Hf Hacc]. split; simpl; try assumption.
    intros u d Hin. apply Hq. rewrite E. right. exact Hin.
  - eapply grounded_classified; eauto.
  - eapply grounded_classified; eauto.
  - destruct (queue_grounded _ _ _ Hg url depth) as [n [Hn Hr]]; [rewrite E; left |].
    pose proof (grounded_classified cfg st url depth q Hg E) as [Hq Hvis Hf Hacc].
    rewrite classified_queue in Hq. rewrite classified_fetch_log in Hf.
    split; rewrite ?enqueue_links_queue, ?enqueue_links_visited,
             ?enqueue_links_fetch_log, ?enqueue_links_products; simpl;
      rewrite ?classified_queue, ?classified_fetch_log; try assumption.
    + intros u d Hin. apply elem_of_app in Hin as [Hin | Hin]; [auto |].
      apply list_elem_of_In, in_map_iff in Hin as [v [[= <- <-] Hin]].
      exists (S n). split; [lia |].
      apply (reach_link env cfg n url v Hr); [lia |].
      eapply accepted_edge. apply list_elem_of_In. exact Hin.
    + intros u Hu. apply elem_of_app in Hu as [Hu | Hu]; [auto |].
      apply list_elem_of_singleton in Hu as ->. exists n. split; [exact Hr | lia].
Qed.

Lemma reachable_grounded cfg st : reachable env cfg st -> grounded env cfg st.
Proof.
  apply reachable_ind_pass.
  - apply grounded_seed.
  - intros s fl s' _ Hg _ Hp. eapply grounded_pass; eauto.
Qed.

Lemma reachable_levels cfg st : reachable env cfg st -> queue_levels (queue st).
Proof.
  revert st. apply (reachable_ind_pass env cfg (fun st => queue_levels (queue st))).
  - exists 0, (start_urls cfg), []. simpl. rewrite app_nil_r. reflexivity.
  - intros s fl s' _ Hl _ Hp.
    destruct Hp as [url depth q E Hv | url depth q E Hv Hpr Hm | url depth q E Hv Hpr Hd
                   | url depth q E Hv Hpr Hd]; rewrite E in Hl.
    + simpl. eapply queue_levels_tail; eauto.
    + rewrite classified_queue. eapply queue_levels_tail; eauto.
    + rewrite classified_queue. eapply queue_levels_tail; eauto.
    + rewrite enqueue_links_queue. simpl queue. rewrite classified_queue.
      eapply queue_levels_pass; eauto.
Qed.

Lemma queue_levels_after u hd q v d :
  queue_levels ((u, hd) :: q) -> (v, d) ∈ q -> hd <= d <= hd + 1.
Proof.
  intros Hl Hin. split.
  - apply (queue_levels_head u hd q v d Hl). right. exact Hin.
  - destruct Hl as [m [A [B E]]].
    assert (Hall : forall x y, (x, y) ∈ (u, hd) :: q -> m <= y <= m + 1).
    { intros x y Hxy. rewrite E in Hxy.
      apply elem_of_app in Hxy as [Hxy | Hxy];
        apply list_elem_of_In, in_map_iff in Hxy as [z [[= <- <-] _]]; lia. }
    assert (H1 : m <= hd <= m + 1) by (apply (Hall u); left).
    assert (H2 : m <= d <= m + 1) by (apply (Hall v); right; exact Hin).
    lia.
Qed.

Lemma reach_depth cfg n v :
  reach env cfg n v -> Z.of_nat n <= Z.max 0 (max_depth cfg).
Proof. intros [s Hs | k u w Hu Hk He]; lia. Qed.

(** X1.  Breadth-first order.  In every state of a crawl the queue holds
    items of one depth followed by items of the next depth, so that every
    item behind the head is at the depth of the head or one deeper.  No
    queued depth, that of the head included, is negative, and none exceeds
    [max_depth] (the depth 0 of the seeds apart, when [max_depth] is
    negative). *)
Theorem queue_breadth_first cfg st :
  reachable env cfg st ->
  (forall u d, (u, d) ∈ queue st -> 0 <= d <= Z.max 0 (max_depth cfg))
  /\ queue_levels (queue st)
  /\ (forall u hd q v d,
        queue st = (u, hd) :: q -> (v, d) ∈ q -> hd <= d <= hd + 1).
Proof.
  intros Hr.
  pose proof (reachable_levels cfg st Hr) as Hl.
  pose proof (reachable_grounded cfg st Hr) as Hg.
  split; [| split; [exact Hl |]].
  - intros u d Hin.
    destruct (queue_grounded _ _ _ Hg u d Hin) as [n [-> Hn]].
    split; [lia | eapply reach_depth; eauto].
  - intros u hd q v d E Hin. rewrite E in Hl.
    eapply queue_levels_after; eauto.
Qed.

(** X2.  A crawl that ends below the product limit has emptied the queue,
    has visited exactly the URLs of the link graph it can walk, and has
    recorded exactly those of them that the classifier accepts. *)
Theorem crawl_below_limit_exact cfg fuel r :
  crawl env cfg fuel = Some r ->
  product_count r < max_products cfg ->
  queue r = []
  /\ (forall u, u ∈ visited_urls r <-> exists n, reach env cfg n u)
  /\ (forall u, u ∈ product_urls r
                <-> (exists n, reach env cfg n u)
                    /\ is_product (re_search env) (product_patterns cfg) u = true).
Proof.
  intros Hrun Hlt.
  pose proof (crawl_reachable env cfg fuel r Hrun) as Hr.
  pose proof (reachable_grounded cfg r Hr) as Hg.
  pose proof (reachable_consistent env cfg r Hr) as Hc.
  destruct (crawl_loop_complete env cfg fuel (seed cfg initial) r (bfs_seed env cfg)
              Hrun Hlt) as [Hb Hq].
  split; [exact Hq |]. split.
  - intros u. split; [apply (visited_grounded _ _ _ Hg) |].
    intros [n Hn]. apply (bfs_empty_queue env cfg r Hb Hq n u Hn).
  - intros u. split.
    + intros Hu. split; [| apply (products_accepted _ _ _ Hg); exact Hu].
      apply (visited_grounded _ _ _ Hg). apply (products_visited _ _ _ Hc). exact Hu.
    + intros [[n Hn] Hp]. apply (visited_classified _ _ _ Hc); [| exact Hp].
      apply (bfs_empty_queue env cfg r Hb Hq n u Hn).
Qed.

(** X3.  Every URL handed to [fetch_page] lies in the link graph at a
    depth below [max_depth], and it is a seed or passes the exclusion gate;
    with [max_depth] at most 0 a crawl fetches nothing. *)
Theorem fetched_below_depth cfg st :
  reachable env cfg st ->
  (forall u, u ∈ fetch_log st ->
     (exists n, reach env cfg n u /\ Z.of_nat n < max_depth cfg)
     /\ (u ∈ start_urls cfg \/ is_excluded (re_search env) u = false))
  /\ (max_depth cfg <= 0 -> fetch_log st = []).
Proof.
  intros Hr.
  pose proof (reachable_grounded cfg st Hr) as Hg.
  pose proof (reachable_gated env cfg st Hr) as Hgat.
  pose proof (reachable_consistent env cfg st Hr) as Hc.
  split.
  - intros u Hu. split; [apply (fetch_grounded _ _ _ Hg); exact Hu |].
    apply (visited_gated _ _ _ Hgat). apply (fetch_visited _ _ _ Hc). exact Hu.
  - intros Hd. destruct (fetch_log st) as [| u l] eqn:E; [reflexivity |].
    destruct (fetch_grounded _ _ _ Hg u) as [n [_ Hn]]; [rewrite E; left | lia].
Qed.

End CrawlGraphFacts.

Lemma shop_after_home :
  iteration (Site.env Site.shop) Site.two_products (seed Site.two_products initial)
  = (Continue, site_after_home).
Proof. vm_compute. reflexivity. Qed.

Lemma shop_after_home_reachable :
  reachable (Site.env Site.shop) Site.two_products site_after_home.
Proof.
  eapply reach_pass; [apply reach_seed | reflexivity | apply shop_after_home].
Qed.

Lemma queue_breadth_first_witness :
  0 <= 0 <= Z.max 0 (max_depth Site.two_products)
  /\ queue_levels (queue site_after_home).
Proof.
  split.
  - apply (proj1 (queue_breadth_first (Site.env Site.shop) Site.two_products
                    (seed Site.two_products initial)
                    (reach_seed (Site.env Site.shop) Site.two_products))
             Site.home 0).
    left.
  - apply (queue_breadth_first (Site.env Site.shop) Site.two_products site_after_home).
    apply shop_after_home_reachable.
Defined.

Lemma crawl_below_limit_exact_witness :
  queue (Site.final Site.shop Site.ten_products 10) = [].
Proof.
  apply (crawl_below_limit_exact (Site.env Site.shop) Site.ten_products 10%nat).
  - apply shop_final_ten.
  - vm_compute. reflexivity.
Defined.

Lemma fetched_below_depth_witness :
  fetch_log (Site.final Site.shop (mkSettings [Site.home] [] 2 0) 10) = [].
Proof.
  apply (fetched_below_depth (Site.env Site.shop) (mkSettings [Site.home] [] 2 0)).
  - apply crawl_reachable with (fuel := 10%nat). vm_compute. reflexivity.
  - simpl. lia.
Defined.
(** ** The URL helpers *)

(** *** Same domain *)

Lemma app_dot_inj d1 s1 d2 s2 :
  Str.mem "." d1 = false -> Str.mem "." d2 = false ->
  d1 ++ "." ++ s1 = d2 ++ "." ++ s2 -> d1 = d2 /\ s1 = s2.
Proof.
  revert d2. induction d1 as [| a d1 IH]; intros [| b d2] H1 H2 E.
  - injection E as E. split; [reflexivity | exact E].
  - exfalso. injection E as E _. subst b.
    unfold Str.mem in H2. simpl in H2. discriminate.
  - exfalso. injection E as E _. subst a.
    unfold Str.mem in H1. simpl in H1. discriminate.
  - injection E as <- E.
    unfold Str.mem in H1, H2. simpl in H1, H2.
    apply orb_false_iff in H1 as [_ H1]. apply orb_false_iff in H2 as [_ H2].
    destruct (IH d2 H1 H2 E) as [-> ->]. split; reflexivity.
Qed.

(** X4.  [is_same_domain] is an equivalence on URLs, and two URLs are of
    the same domain exactly when [get_domain] gives the same string for
    both, as long as the domain parts the extraction returns hold no dot. *)
Theorem same_domain_equivalence (extract : string -> Tldextract.ExtractResult)
    (u v w : string) :
  is_same_domain extract u u = true
  /\ is_same_domain extract u v = is_same_domain extract v u
  /\ (is_same_domain extract u v = true -> is_same_domain extract v w = true ->
      is_same_domain extract u w = true)
  /\ (is_same_domain extract u v = true -> get_domain extract u = get_domain extract v)
  /\ (Str.mem "." (Tldextract.domain (extract u)) = false ->
      Str.mem "." (Tldextract.domain (extract v)) = false ->
      get_domain extract u = get_domain extract v ->
      is_same_domain extract u v = true).
Proof.
  unfold is_same_domain, get_domain.
  destruct (extract u) as [b1 d1 s1], (extract v) as [b2 d2 s2],
    (extract w) as [b3 d3 s3]. cbn [Tldextract.domain Tldextract.suffix].
  split; [rewrite !String.eqb_refl; reflexivity |].
  split; [rewrite (String.eqb_sym d1 d2), (String.eqb_sym s1 s2); reflexivity |].
  split; [| split].
  - intros H1 H2. apply andb_true_iff in H1 as [A1 B1], H2 as [A2 B2].
    apply String.eqb_eq in A1, B1, A2, B2. subst. rewrite !String.eqb_refl. reflexivity.
  - intros H. apply andb_true_iff in H as [A B].
    apply String.eqb_eq in A, B. subst. reflexivity.
  - intros H1 H2 E. destruct (app_dot_inj d1 s1 d2 s2 H1 H2 E) as [-> ->].
    rewrite !String.eqb_refl. reflexivity.
Qed.

(** *** No fragment in a canonical URL *)

Lemma forallb_span_fst p x : Str.forallb p (fst (Str.span p x)) = true.
Proof.
  induction x as [| c x IH]; simpl; [reflexivity |].
  destruct (p c) eqn:Hc; [| reflexivity].
  destruct (Str.span p x) as [a b]. simpl in *. rewrite Hc, IH. reflexivity.
Qed.

Lemma forallb_mem c (p : ascii -> bool) x :
  p c = false -> Str.forallb p x = true -> Str.mem c x = false.
Proof.
  intros Hc. unfold Str.mem. induction x as [| a x IH]; simpl; [reflexivity |].
  intros H. apply andb_true_iff in H as [Ha Hx]. rewrite (IH Hx), orb_false_r.
  destruct (Ascii.eqb_spec c a) as [-> |]; [congruence | reflexivity].
Qed.

Lemma last_segment_app s :
  fst (Urllib.last_segment s) ++ snd (Urllib.last_segment s) = s.
Proof.
  induction s as [| c s IH]; [reflexivity |].
  cbn [Urllib.last_segment]. destruct (Urllib.last_segment s) as [pre seg].
  cbn [fst snd] in IH.
  destruct (Str.nonempty pre) eqn:Hp.
  - cbn [fst snd]. simpl. rewrite IH. reflexivity.
  - destruct pre; [| discriminate]. simpl in IH. subst seg.
    destruct (Ascii.eqb c "/"); reflexivity.
Qed.

Lemma split_once_mem c d url :
  Str.mem c url = false ->
  Str.mem c (fst (Urllib.split_once d url)) = false
  /\ Str.mem c (snd (Urllib.split_once d url)) = false.
Proof.
  intros H. unfold Urllib.split_once.
  pose proof (mem_span c (fun x => negb (Ascii.eqb x d)) url H) as [H1 H2].
  destruct (Str.span _ url) as [a b]. cbn [fst snd] in *.
  split; [exact H1 | apply mem_drop; exact H2].
Qed.

Lemma split_once_fst_free d url :
  Str.mem d (fst (Urllib.split_once d url)) = false.
Proof.
  unfold Urllib.split_once.
  pose proof (forallb_span_fst (fun x => negb (Ascii.eqb x d)) url) as H.
  destruct (Str.span _ url) as [a b]. cbn [fst] in *.
  apply (forallb_mem d _ a) in H; [exact H |].
  rewrite Ascii.eqb_refl. reflexivity.
Qed.

Lemma splitparams_mem c url :
  Str.mem c url = false ->
  Str.mem c (fst (Urllib._splitparams url)) = false
  /\ Str.mem c (snd (Urllib._splitparams url)) = false.
Proof.
  intros H. unfold Urllib._splitparams.
  pose proof (last_segment_app url) as E.
  destruct (Urllib.last_segment url) as [pre seg]. cbn [fst snd] in E.
  rewrite <- E, mem_app in H. apply orb_false_iff in H as [Hpre Hseg].
  destruct (Str.mem ";" seg).
  - pose proof (split_once_mem c ";" seg Hseg) as [Ha Hb].
    destruct (Urllib.split_once ";" seg) as [a b]. cbn [fst snd] in *.
    rewrite mem_app, Hpre, Ha, Hb. split; reflexivity.
  - cbn [fst snd]. rewrite <- E, mem_app, Hpre, Hseg. split; reflexivity.
Qed.

Lemma scheme_char_facts c :
  Urllib.scheme_char c = true ->
  Urllib.scheme_char (Str.lower_char c) = true
  /\ Str.lower_char (Str.lower_char c) = Str.lower_char c
  /\ Ascii.eqb c ":" = false
  /\ Ascii.eqb "#" c = false
  /\ Urllib.unsafe_byte c = false
  /\ Urllib.c0_control_or_space c = false
  /\ Str.mem c "/?#" = false
  /\ (Str.is_alpha c = true -> Str.is_alpha (Str.lower_char c) = true).
Proof.
  destruct c as [[] [] [] [] [] [] [] []]; vm_compute; intros H;
    try discriminate H; repeat split; intros; first [reflexivity | assumption].
Qed.

Lemma map_lower_scheme pre :
  Str.forallb Urllib.scheme_char pre = true ->
  Str.forallb Urllib.scheme_char (Str.map Str.lower_char pre) = true
  /\ Str.map Str.lower_char (Str.map Str.lower_char pre) = Str.map Str.lower_char pre.
Proof.
  induction pre as [| c pre IH]; simpl; [split; reflexivity |].
  intros H. apply andb_true_iff in H as [Hc Hpre].
  destruct (IH Hpre) as [I1 I2].
  destruct (scheme_char_facts c Hc) as [F1 [F2 _]].
  rewrite F1, I1, F2, I2. split; reflexivity.
Qed.

Lemma scheme_chars_mem c s :
  Urllib.scheme_char c = false ->
  Str.forallb Urllib.scheme_char s = true -> Str.mem c s = false.
Proof. apply forallb_mem. Qed.

(** The scheme [split_scheme] returns is empty or made of scheme characters. *)
Lemma split_scheme_chars url :
  Str.forallb Urllib.scheme_char (fst (Urllib.split_scheme url)) = true.
Proof.
  unfold Urllib.split_scheme.
  destruct (Str.span _ url) as [pre rest].
  destruct pre as [| c0 pre']; [reflexivity |].
  destruct rest as [| x rest']; [reflexivity |].
  destruct (Str.is_alpha c0 && Str.forallb Urllib.scheme_char (String c0 pre')) eqn:H;
    [| reflexivity].
  apply andb_true_iff in H as [_ H]. cbn [fst].
  apply (map_lower_scheme (String c0 pre') H).
Qed.

Lemma split_scheme_rest_mem c url :
  Str.mem c url = false -> Str.mem c (snd (Urllib.split_scheme url)) = false.
Proof.
  intros H. unfold Urllib.split_scheme.
  pose proof (mem_span c (fun x => negb (Ascii.eqb x ":")) url H) as [_ H2].
  destruct (Str.span _ url) as [pre rest]. cbn [snd] in H2.
  destruct pre as [| c0 pre']; [exact H |].
  destruct rest as [| x rest']; [exact H |].
  destruct (Str.is_alpha c0 && Str.forallb Urllib.scheme_char (String c0 pre'));
    [| exact H].
  cbn [snd]. unfold Str.mem in *. simpl in H2.
  apply orb_false_iff in H2 as [_ H2]. exact H2.
Qed.

(** No component but the fragment holds a ['#']. *)
Lemma urlsplit_no_hash x r :
  Urllib.urlsplit x = Some r ->
  Str.mem "#" (Urllib.s_scheme r) = false
  /\ Str.mem "#" (Urllib.s_netloc r) = false
  /\ Str.mem "#" (Urllib.s_path r) = false
  /\ Str.mem "#" (Urllib.s_query r) = false.
Proof.
  unfold Urllib.urlsplit.
  set (b := Str.filter _ (Str.lstrip _ x)).
  pose proof (split_scheme_chars b) as Hs.
  destruct (Urllib.split_scheme b) as [sch url1]. cbn [fst] in Hs.
  assert (Hn : Str.mem "#"
                 (fst (if Str.startswith url1 "//" then Urllib._splitnetloc url1
                       else ("", url1))) = false).
  { destruct (Str.startswith url1 "//"); [| reflexivity].
    unfold Urllib._splitnetloc.
    apply (forallb_mem "#" (fun c => negb (Str.mem c "/?#"))); [reflexivity |].
    apply forallb_span_fst. }
  destruct (if Str.startswith url1 "//" then Urllib._splitnetloc url1 else ("", url1))
    as [nl url2]. cbn [fst] in Hn.
  destruct (Urllib.bracket_error nl); [discriminate |].
  pose proof (split_once_fst_free "#" url2) as H3.
  destruct (Urllib.split_once "#" url2) as [url3 frag]. cbn [fst] in H3.
  pose proof (split_once_mem "#" "?" url3 H3) as [H4 H5].
  destruct (Urllib.split_once "?" url3) as [url4 q]. cbn [fst snd] in *.
  intros [= <-]. cbn.
  split; [apply (scheme_chars_mem "#" sch); [reflexivity | exact Hs] |].
  split; [exact Hn |]. split; assumption.
Qed.

Lemma urlparse_no_hash x p :
  Urllib.urlparse x = Some p ->
  Str.mem "#" (Urllib.scheme p) = false
  /\ Str.mem "#" (Urllib.netloc p) = false
  /\ Str.mem "#" (Urllib.path p) = false
  /\ Str.mem "#" (Urllib.params p) = false
  /\ Str.mem "#" (Urllib.query p) = false.
Proof.
  unfold Urllib.urlparse.
  destruct (Urllib.urlsplit x) as [r |] eqn:E; [| discriminate].
  destruct (urlsplit_no_hash x r E) as [H1 [H2 [H3 H4]]].
  assert (Hp : forall pp,
             (if Urllib.in_list (Urllib.s_scheme r) Urllib.uses_params
                 && Str.mem ";" (Urllib.s_path r)
              then Urllib._splitparams (Urllib.s_path r)
              else (Urllib.s_path r, "")) = pp ->
             Str.mem "#" (fst pp) = false /\ Str.mem "#" (snd pp) = false).
  { intros pp <-. destruct (_ && _).
    - apply splitparams_mem. exact H3.
    - split; [exact H3 | reflexivity]. }
  destruct (if _ && _ then _ else _) as [pth prm].
  destruct (Hp _ eq_refl) as [H5 H6]. cbn [fst snd] in *.
  intros [= <-]. cbn. repeat split; assumption.
Qed.

Lemma geturl_no_hash p :
  Str.mem "#" (Urllib.scheme p) = false ->
  Str.mem "#" (Urllib.netloc p) = false ->
  Str.mem "#" (Urllib.path p) = false ->
  Str.mem "#" (Urllib.params p) = false ->
  Str.mem "#" (Urllib.query p) = false ->
  Urllib.fragment p = "" ->
  Str.mem "#" (Urllib.geturl p) = false.
Proof.
  intros H1 H2 H3 H4 H5 H6. unfold Urllib.geturl, Urllib.urlunsplit. rewrite H6.
  cbn [Str.nonempty].
  set (url := if Str.nonempty (Urllib.params p)
              then Urllib.path p ++ ";" ++ Urllib.params p else Urllib.path p).
  assert (Hu : Str.mem "#" url = false).
  { unfold url. destruct (Str.nonempty (Urllib.params p)); [| exact H3].
    rewrite !mem_app, H3, H4. reflexivity. }
  repeat (match goal with
          | |- context [if ?b then _ else _] => destruct b
          end);
    rewrite ?mem_app, ?H1, ?H2, ?H5, ?Hu; reflexivity.
Qed.

Lemma subseq_mem c a b :
  Str.subseq a b -> Str.mem c b = false -> Str.mem c a = false.
Proof.
  unfold Str.mem. induction 1 as [| x s t _ IH | x s t _ IH]; simpl; intros H.
  - reflexivity.
  - apply orb_false_iff in H as [H1 H2]. rewrite H1. auto.
  - apply orb_false_iff in H as [_ H2]. auto.
Qed.

Lemma urlparse_no_fragment x p :
  Str.mem "#" x = false -> Urllib.urlparse x = Some p -> Urllib.fragment p = "".
Proof.
  intros Hx. unfold Urllib.urlparse.
  destruct (Urllib.urlsplit x) as [r |] eqn:E; [| discriminate].
  destruct (urlsplit_fragment x "" Hx) as [_ Hf]. specialize (Hf r E).
  destruct (if _ && _ then _ else _) as [pth prm].
  intros [= <-]. exact Hf.
Qed.

Lemma normalize_url_no_hash u c :
  normalize_url u = Some c -> Str.mem "#" c = false.
Proof.
  unfold normalize_url. destruct (Urllib.urlparse u) as [p |] eqn:E; [| discriminate].
  intros [= <-].
  destruct (urlparse_no_hash u p E) as [H1 [H2 [H3 [H4 H5]]]].
  apply geturl_no_hash; assumption || reflexivity.
Qed.

Lemma clean_url_no_hash u c :
  Str.mem "#" u = false -> clean_url u = Some c -> Str.mem "#" c = false.
Proof.
  intros Hu. unfold clean_url.
  destruct (Urllib.urlparse u) as [p |] eqn:E; [| discriminate].
  intros [= <-].
  destruct (urlparse_no_hash u p E) as [H1 [H2 [H3 [H4 H5]]]].
  apply geturl_no_hash; cbn; try assumption.
  - apply (subseq_mem "#" _ (Urllib.query p)); [apply sub_noise_from_subseq | exact H5].
  - apply (urlparse_no_fragment u p Hu E).
Qed.

Lemma canonicalize_no_hash u c : canonicalize u = Some c -> Str.mem "#" c = false.
Proof.
  unfold canonicalize.
  destruct (normalize_url u) as [n |] eqn:E; [| discriminate].
  intros Hc. eapply clean_url_no_hash; [eapply normalize_url_no_hash; exact E | exact Hc].
Qed.

(** X5.  A canonical URL holds no ['#']: whatever the input, the result of
    [clean_url(normalize_url(url))] has no fragment, and parsing it again
    finds none. *)
Theorem canonical_has_no_fragment u c :
  canonicalize u = Some c ->
  Str.mem "#" c = false
  /\ forall p, Urllib.urlparse c = Some p -> Urllib.fragment p = "".
Proof.
  intros Hc. pose proof (canonicalize_no_hash u c Hc) as H.
  split; [exact H |]. intros p. apply urlparse_no_fragment. exact H.
Qed.

Lemma canonical_has_no_fragment_witness :
  Str.mem "#" "https://a.com/p?id=7" = false.
Proof.
  apply (canonical_has_no_fragment "https://a.com/p?utm_source=x&id=7#reviews").
  reflexivity.
Defined.

(** *** A valid URL stays valid *)

Lemma filter_id p s : Str.forallb p s = true -> Str.filter p s = s.
Proof.
  induction s as [| c s IH]; simpl; [reflexivity |].
  intros H. apply andb_true_iff in H as [Hc Hs]. rewrite Hc, IH by exact Hs.
  reflexivity.
Qed.

Lemma forallb_filter p s : Str.forallb p (Str.filter p s) = true.
Proof.
  induction s as [| c s IH]; simpl; [reflexivity |].
  destruct (p c) eqn:Hc; simpl; [rewrite Hc |]; exact IH.
Qed.

Lemma forallb_span p q x :
  Str.forallb p x = true ->
  Str.forallb p (fst (Str.span q x)) = true /\ Str.forallb p (snd (Str.span q x)) = true.
Proof.
  intros H. rewrite <- (span_app q x), forallb_app in H.
  apply andb_true_iff in H. exact H.
Qed.

Lemma forallb_drop p n x :
  Str.forallb p x = true -> Str.forallb p (Str.drop n x) = true.
Proof.
  revert x. induction n as [| n IH]; intros x H; [exact H |].
  destruct x as [| c x]; [reflexivity |]. simpl in *.
  apply andb_true_iff in H as [_ H]. apply IH, H.
Qed.

Lemma forallb_weaken (p q : ascii -> bool) s :
  (forall c, p c = true -> q c = true) ->
  Str.forallb p s = true -> Str.forallb q s = true.
Proof.
  intros Hpq. induction s as [| c s IH]; simpl; [reflexivity |].
  intros H. apply andb_true_iff in H as [Hc Hs]. rewrite (Hpq c Hc), IH by exact Hs.
  reflexivity.
Qed.

Lemma split_scheme_good url :
  fst (Urllib.split_scheme url) <> "" -> good_scheme (fst (Urllib.split_scheme url)).
Proof.
  unfold Urllib.split_scheme.
  destruct (Str.span _ url) as [pre rest].
  destruct pre as [| c0 pre']; [contradiction |].
  destruct rest as [| x rest']; [contradiction |].
  destruct (Str.is_alpha c0 && Str.forallb Urllib.scheme_char (String c0 pre')) eqn:H;
    [| contradiction].
  intros _. apply andb_true_iff in H as [Ha Hs]. cbn [fst].
  destruct (map_lower_scheme (String c0 pre') Hs) as [M1 M2].
  exists (Str.lower_char c0), (Str.map Str.lower_char pre').
  split; [reflexivity |]. split; [| split; assumption].
  simpl in Hs. apply andb_true_iff in Hs as [Hc _].
  apply (scheme_char_facts c0 Hc). exact Ha.
Qed.

Lemma split_scheme_rest_forallb p url :
  Str.forallb p url = true -> Str.forallb p (snd (Urllib.split_scheme url)) = true.
Proof.
  intros H. unfold Urllib.split_scheme.
  pose proof (forallb_span p (fun c => negb (Ascii.eqb c ":")) url H) as [_ H2].
  destruct (Str.span _ url) as [pre rest]. cbn [snd] in H2.
  destruct pre as [| c0 pre']; [exact H |].
  destruct rest as [| x rest']; [exact H |].
  destruct (Str.is_alpha c0 && Str.forallb Urllib.scheme_char (String c0 pre'));
    [| exact H].
  cbn [snd]. simpl in H2. apply andb_true_iff in H2 as [_ H2]. exact H2.
Qed.

(** What [urlsplit] returns as scheme and as network location. *)
Lemma urlsplit_good x r :
  Urllib.urlsplit x = Some r ->
  (Urllib.s_scheme r <> "" -> good_scheme (Urllib.s_scheme r))
  /\ (Urllib.s_netloc r <> "" -> good_netloc (Urllib.s_netloc r)).
Proof.
  unfold Urllib.urlsplit.
  set (safe := fun c => negb (Urllib.unsafe_byte c)).
  set (b := Str.filter safe (Str.lstrip _ x)).
  assert (Hb : Str.forallb safe b = true) by apply forallb_filter.
  pose proof (split_scheme_good b) as Hs.
  pose proof (split_scheme_rest_forallb safe b Hb) as Hr.
  destruct (Urllib.split_scheme b) as [sch url1]. cbn [fst snd] in Hs, Hr.
  assert (Hn : forall nu,
             (if Str.startswith url1 "//" then Urllib._splitnetloc url1
              else ("", url1)) = nu ->
             fst nu <> "" ->
             Str.forallb (fun c => negb (Str.mem c "/?#")) (fst nu) = true
             /\ Str.forallb safe (fst nu) = true).
  { intros nu <-. destruct (Str.startswith url1 "//"); [| contradiction].
    intros _. unfold Urllib._splitnetloc. split; [apply forallb_span_fst |].
    apply forallb_span, forallb_drop, Hr. }
  destruct (if Str.startswith url1 "//" then Urllib._splitnetloc url1 else ("", url1))
    as [nl url2].
  specialize (Hn _ eq_refl). cbn [fst] in Hn.
  destruct (Urllib.bracket_error nl) eqn:Hbr; [discriminate |].
  destruct (Urllib.split_once "#" url2) as [url3 frag].
  destruct (Urllib.split_once "?" url3) as [url4 q].
  intros [= <-]. cbn. split; [exact Hs |].
  intros Hne. destruct (Hn Hne) as [H1 H2]. repeat split; assumption.
Qed.

Lemma urlunsplit_shape s nl url q frag :
  nl <> "" -> s <> "" ->
  exists r, Urllib.urlunsplit s nl url q frag = s ++ ":" ++ "//" ++ nl ++ r
            /\ after_netloc r.
Proof.
  intros Hnl Hs. unfold Urllib.urlunsplit.
  destruct nl as [| n0 nl']; [contradiction |].
  destruct s as [| s0 s']; [contradiction |].
  cbn [Str.nonempty orb andb].
  set (u := if Str.nonempty url && negb (Str.startswith url "/") then "/" ++ url else url).
  assert (Hu : forall t, after_netloc t -> after_netloc (u ++ t)).
  { intros t Ht. unfold u. destruct url as [| c url'].
    - exact Ht.
    - cbn [Str.nonempty andb]. unfold Str.startswith. cbn [Str.strip_prefix].
      destruct (Ascii.eqb_spec "/" c) as [<- |]; cbn [negb].
      + right. exists "/"%char, (url' ++ t). split; reflexivity.
      + right. exists "/"%char, (String c url' ++ t). split; reflexivity. }
  assert (Hq : forall t, after_netloc t ->
                 after_netloc ((if Str.nonempty q then "?" ++ q else "") ++ t)).
  { intros t Ht. destruct (Str.nonempty q); [| exact Ht].
    right. exists "?"%char, (q ++ t). split; reflexivity. }
  assert (Hf : after_netloc (if Str.nonempty frag then "#" ++ frag else "")).
  { destruct (Str.nonempty frag); [| left; reflexivity].
    right. exists "#"%char, frag. split; reflexivity. }
  exists (u ++ (if Str.nonempty q then "?" ++ q else "")
            ++ (if Str.nonempty frag then "#" ++ frag else "")).
  split; [| apply Hu, Hq, Hf].
  destruct (Str.nonempty q), (Str.nonempty frag);
    rewrite ?string_app_assoc, ?string_app_nil_r; reflexivity.
Qed.

Lemma span_all_app_after (nl r : string) :
  Str.forallb (fun c => negb (Str.mem c "/?#")) nl = true ->
  after_netloc r ->
  Str.span (fun c => negb (Str.mem c "/?#")) (nl ++ r) = (nl, r).
Proof.
  intros Hnl [-> | [c [r' [-> Hc]]]].
  - rewrite string_app_nil_r. apply span_all. exact Hnl.
  - rewrite span_app_stop by (rewrite Hc; reflexivity).
    rewrite (span_all _ nl Hnl). reflexivity.
Qed.

Lemma after_netloc_filter r :
  after_netloc r -> after_netloc (Str.filter (fun c => negb (Urllib.unsafe_byte c)) r).
Proof.
  intros [-> | [c [r' [-> Hc]]]]; [left; reflexivity |].
  right. exists c, (Str.filter (fun c => negb (Urllib.unsafe_byte c)) r').
  split; [| exact Hc].
  cbn [Str.filter].
  assert (Hsafe : negb (Urllib.unsafe_byte c) = true).
  { unfold Str.mem in Hc. simpl in Hc.
    destruct (Ascii.eqb_spec c "/") as [-> |]; [reflexivity |].
    destruct (Ascii.eqb_spec c "?") as [-> |]; [reflexivity |].
    destruct (Ascii.eqb_spec c "#") as [-> |]; [reflexivity | discriminate]. }
  rewrite Hsafe. reflexivity.
Qed.

(** Parsing a URL put together from a scheme and a network location that
    came out of a parse finds them again. *)
Lemma urlsplit_shape s nl r :
  good_scheme s -> good_netloc nl -> after_netloc r ->
  exists res, Urllib.urlsplit (s ++ ":" ++ "//" ++ nl ++ r) = Some res
              /\ Urllib.s_scheme res = s /\ Urllib.s_netloc res = nl.
Proof.
  intros [c0 [s' [-> [Ha [Hs Hl]]]]] [Hne [Hn1 [Hn2 Hbr]]] Hr.
  unfold Urllib.urlsplit.
  set (safe := fun c => negb (Urllib.unsafe_byte c)).
  assert (Hc0 : Urllib.scheme_char c0 = true).
  { simpl in Hs. apply andb_true_iff in Hs. apply Hs. }
  destruct (scheme_char_facts c0 Hc0) as [_ [_ [_ [_ [_ [Hctl _]]]]]].
  change (String c0 s' ++ ":" ++ "//" ++ nl ++ r)
    with (String c0 (s' ++ ":" ++ "//" ++ nl ++ r)).
  cbn [Str.lstrip]. rewrite Hctl.
  change (String c0 (s' ++ ":" ++ "//" ++ nl ++ r))
    with (String c0 s' ++ String ":" ("//" ++ nl ++ r)).
  rewrite filter_app.
  rewrite (filter_id safe (String c0 s'))
    by (apply (forallb_weaken Urllib.scheme_char); [| exact Hs];
        intros c Hc; unfold safe; destruct (scheme_char_facts c Hc) as [_ [_ [_ [_ [-> _]]]]];
        reflexivity).
  change (Str.filter safe (String ":" ("//" ++ nl ++ r)))
    with (String ":" (String "/" (String "/" (Str.filter safe (nl ++ r))))).
  rewrite filter_app, (filter_id safe nl Hn2).
  pose proof (after_netloc_filter r Hr) as Hr'. fold safe in Hr'.
  set (r1 := Str.filter safe r) in *.
  (* the scheme *)
  unfold Urllib.split_scheme.
  rewrite span_app_stop by reflexivity.
  rewrite (span_all _ (String c0 s'))
    by (apply (forallb_weaken Urllib.scheme_char); [| exact Hs];
        intros c Hc; destruct (scheme_char_facts c Hc) as [_ [_ [-> _]]]; reflexivity).
  cbn [fst snd String.append]. rewrite Ha, Hs. cbn [andb]. rewrite Hl.
  (* the network location *)
  change (Str.startswith (String "/" (String "/" (nl ++ r1))) "//") with true.
  cbv iota. unfold Urllib._splitnetloc. cbn [Str.drop].
  rewrite (span_all_app_after nl r1 Hn1 Hr'). rewrite Hbr.
  destruct (Urllib.split_once "#" r1) as [url3 frag].
  destruct (Urllib.split_once "?" url3) as [url4 q].
  eexists. split; [reflexivity |]. split; reflexivity.
Qed.

Lemma urlparse_urlsplit x p :
  Urllib.urlparse x = Some p ->
  exists r, Urllib.urlsplit x = Some r
            /\ Urllib.scheme p = Urllib.s_scheme r /\ Urllib.netloc p = Urllib.s_netloc r.
Proof.
  unfold Urllib.urlparse. destruct (Urllib.urlsplit x) as [r |]; [| discriminate].
  destruct (if _ && _ then _ else _) as [pth prm].
  intros [= <-]. exists r. repeat split.
Qed.

Lemma urlsplit_urlparse x r :
  Urllib.urlsplit x = Some r ->
  exists p, Urllib.urlparse x = Some p
            /\ Urllib.scheme p = Urllib.s_scheme r /\ Urllib.netloc p = Urllib.s_netloc r.
Proof.
  intros E. unfold Urllib.urlparse. rewrite E.
  destruct (if _ && _ then _ else _) as [pth prm].
  eexists. split; [reflexivity |]. split; reflexivity.
Qed.

(** The URL [geturl] builds from a parse with a scheme and a network
    location parses again, to the same scheme and network location. *)
Lemma geturl_reparse x p p' :
  Urllib.urlparse x = Some p ->
  Urllib.scheme p <> "" -> Urllib.netloc p <> "" ->
  Urllib.scheme p' = Urllib.scheme p -> Urllib.netloc p' = Urllib.netloc p ->
  exists p2, Urllib.urlparse (Urllib.geturl p') = Some p2
             /\ Urllib.scheme p2 = Urllib.scheme p /\ Urllib.netloc p2 = Urllib.netloc p.
Proof.
  intros E Hs Hn Es En.
  destruct (urlparse_urlsplit x p E) as [r [Er [Rs Rn]]].
  destruct (urlsplit_good x r Er) as [Gs Gn].
  rewrite <- Rs in Gs. rewrite <- Rn in Gn.
  unfold Urllib.geturl. rewrite Es, En.
  destruct (urlunsplit_shape (Urllib.scheme p) (Urllib.netloc p)
              (if Str.nonempty (Urllib.params p')
               then Urllib.path p' ++ ";" ++ Urllib.params p' else Urllib.path p')
              (Urllib.query p') (Urllib.fragment p') Hn Hs) as [t [-> Ht]].
  destruct (urlsplit_shape _ _ t (Gs Hs) (Gn Hn) Ht) as [res [E2 [S2 N2]]].
  destruct (urlsplit_urlparse _ res E2) as [p2 [E3 [S3 N3]]].
  exists p2. split; [exact E3 |]. split; congruence.
Qed.

Lemma nonempty_neq s : Str.nonempty s = true <-> s <> "".
Proof. destruct s; simpl; split; congruence. Qed.

Lemma canonicalize_valid u :
  is_valid_url u = true -> exists c, canonicalize u = Some c /\ is_valid_url c = true.
Proof.
  unfold is_valid_url at 1.
  destruct (Urllib.urlparse u) as [p |] eqn:E; [| discriminate].
  intros H. apply andb_true_iff in H as [Hs Hn].
  apply nonempty_neq in Hs, Hn.
  destruct (geturl_reparse u p (Urllib.replace_fragment "" p) E Hs Hn eq_refl eq_refl)
    as [p1 [E1 [S1 N1]]].
  assert (Hs1 : Urllib.scheme p1 <> "") by congruence.
  assert (Hn1 : Urllib.netloc p1 <> "") by congruence.
  destruct (geturl_reparse _ p1
              (Urllib.replace_query (Re.sub_noise (Urllib.query p1)) p1)
              E1 Hs1 Hn1 eq_refl eq_refl) as [p2 [E2 [S2 N2]]].
  exists (Urllib.geturl (Urllib.replace_query (Re.sub_noise (Urllib.query p1)) p1)).
  split.
  - unfold canonicalize, normalize_url. rewrite E. unfold clean_url. rewrite E1.
    reflexivity.
  - unfold is_valid_url. rewrite E2.
    apply andb_true_iff. split; apply nonempty_neq; congruence.
Qed.

(** X6.  Canonicalization does not fail on a valid URL and keeps it valid:
    the canonical form parses to the same scheme and the same network
    location as the URL itself. *)
Theorem canonicalize_keeps_valid u :
  is_valid_url u = true ->
  exists c, canonicalize u = Some c
            /\ is_valid_url c = true
            /\ forall p pc, Urllib.urlparse u = Some p -> Urllib.urlparse c = Some pc ->
                 Urllib.scheme pc = Urllib.scheme p /\ Urllib.netloc pc = Urllib.netloc p.
Proof.
  unfold is_valid_url at 1.
  destruct (Urllib.urlparse u) as [p |] eqn:E; [| discriminate].
  intros H. apply andb_true_iff in H as [Hs Hn].
  apply nonempty_neq in Hs, Hn.
  destruct (geturl_reparse u p (Urllib.replace_fragment "" p) E Hs Hn eq_refl eq_refl)
    as [p1 [E1 [S1 N1]]].
  assert (Hs1 : Urllib.scheme p1 <> "") by congruence.
  assert (Hn1 : Urllib.netloc p1 <> "") by congruence.
  destruct (geturl_reparse _ p1
              (Urllib.replace_query (Re.sub_noise (Urllib.query p1)) p1)
              E1 Hs1 Hn1 eq_refl eq_refl) as [p2 [E2 [S2 N2]]].
  exists (Urllib.geturl (Urllib.replace_query (Re.sub_noise (Urllib.query p1)) p1)).
  split; [| split].
  - unfold canonicalize, normalize_url. rewrite E. unfold clean_url. rewrite E1.
    reflexivity.
  - unfold is_valid_url. rewrite E2.
    apply andb_true_iff. split; apply nonempty_neq; congruence.
  - intros p0 pc [= <-] Hpc. rewrite E2 in Hpc. injection Hpc as <-.
    split; congruence.
Qed.

Lemma canonicalize_keeps_valid_witness :
  exists c, canonicalize "HTTPS://Shop.example.com/p;v=1?utm_source=x&id=7#top" = Some c
            /\ is_valid_url c = true
            /\ forall p pc,
                 Urllib.urlparse "HTTPS://Shop.example.com/p;v=1?utm_source=x&id=7#top"
                 = Some p ->
                 Urllib.urlparse c = Some pc ->
                 Urllib.scheme pc = Urllib.scheme p /\ Urllib.netloc pc = Urllib.netloc p.
Proof.
  apply (canonicalize_keeps_valid "HTTPS://Shop.example.com/p;v=1?utm_source=x&id=7#top").
  reflexivity.
Defined.
(** ** The shape of a valid URL *)

Lemma span_snd_stop p x a c b : Str.span p x = (a, String c b) -> p c = false.
Proof.
  revert a. induction x as [| y x IH]; intros a; simpl; [discriminate |].
  destruct (p y) eqn:Hy.
  - destruct (Str.span p x) as [u v]. intros [= _ ->]. apply (IH u). reflexivity.
  - intros [= _ -> _]. exact Hy.
Qed.

Lemma span_snd_after x nl url2 :
  Str.span (fun c => negb (Str.mem c "/?#")) x = (nl, url2) -> after_netloc url2.
Proof.
  intros H. destruct url2 as [| c r]; [left; reflexivity |].
  right. exists c, r. split; [reflexivity |].
  apply span_snd_stop in H. apply negb_false_iff in H. exact H.
Qed.

Lemma startswith_two x : Str.startswith x "//" = true -> x = "//" ++ Str.drop 2 x.
Proof.
  unfold Str.startswith. destruct x as [| a [| b x]]; cbn [Str.strip_prefix];
    try discriminate.
  - destruct (Ascii.eqb "/" a); discriminate.
  - destruct (Ascii.eqb_spec "/" a) as [<- |]; [| discriminate].
    destruct (Ascii.eqb_spec "/" b) as [<- |]; [| discriminate]. reflexivity.
Qed.

Lemma scheme_no_colon s :
  Str.forallb Urllib.scheme_char s = true ->
  Str.forallb (fun c => negb (Ascii.eqb c ":")) s = true.
Proof.
  apply forallb_weaken. intros c Hc.
  destruct (scheme_char_facts c Hc) as [_ [_ [-> _]]]. reflexivity.
Qed.

Lemma split_scheme_shape url sch rest :
  Urllib.split_scheme url = (sch, rest) -> sch <> "" ->
  exists pre, url = pre ++ String ":" rest /\ scheme_shaped pre
              /\ sch = Str.map Str.lower_char pre.
Proof.
  unfold Urllib.split_scheme.
  destruct (Str.span (fun c => negb (Ascii.eqb c ":")) url) as [pre rest0] eqn:Esp.
  pose proof (span_app (fun c => negb (Ascii.eqb c ":")) url) as Happ.
  rewrite Esp in Happ. cbn [fst snd] in Happ.
  destruct pre as [| c0 pre']; [intros [= <- _] H; contradiction |].
  destruct rest0 as [| x rest']; [intros [= <- _] H; contradiction |].
  destruct (Str.is_alpha c0 && Str.forallb Urllib.scheme_char (String c0 pre')) eqn:Hc;
    [| intros [= <- _] H; contradiction].
  intros [= <- <-] _. apply andb_true_iff in Hc as [Ha Hs].
  apply span_snd_stop in Esp. apply negb_false_iff, Ascii.eqb_eq in Esp. subst x.
  exists (String c0 pre'). split; [symmetry; exact Happ |].
  split; [| reflexivity]. exists c0, pre'. auto.
Qed.

(** What [urlsplit] returns for a text with scheme and network location. *)
Lemma urlsplit_stripped x s nl r :
  stripped x = s ++ "://" ++ nl ++ r ->
  scheme_shaped s -> good_netloc nl -> after_netloc r ->
  Urllib.urlsplit x
  = Some (let (url3, frag) := Urllib.split_once "#" r in
          let (url4, q) := Urllib.split_once "?" url3 in
          Urllib.mkSplitResult (Str.map Str.lower_char s) nl url4 q frag).
Proof.
  intros Hx [c0 [s' [-> [Ha Hs]]]] [Hne [Hn1 [Hn2 Hbr]]] Hr.
  unfold Urllib.urlsplit.
  change (Str.filter (fun c => negb (Urllib.unsafe_byte c))
            (Str.lstrip Urllib.c0_control_or_space x)) with (stripped x).
  rewrite Hx.
  change (String c0 s' ++ "://" ++ nl ++ r)
    with (String c0 s' ++ String ":" (String "/" (String "/" (nl ++ r)))).
  unfold Urllib.split_scheme.
  rewrite span_app_stop by reflexivity.
  rewrite (span_all _ (String c0 s')) by (apply scheme_no_colon; exact Hs).
  cbn [fst snd String.append]. rewrite Ha, Hs. cbn [andb].
  change (Str.startswith (String "/" (String "/" (nl ++ r))) "//") with true.
  cbv iota. unfold Urllib._splitnetloc. cbn [Str.drop].
  rewrite (span_all_app_after nl r Hn1 Hr). rewrite Hbr.
  destruct (Urllib.split_once "#" r) as [url3 frag].
  destruct (Urllib.split_once "?" url3) as [url4 q]. reflexivity.
Qed.

Lemma stripped_safe url :
  Str.forallb (fun c => negb (Urllib.unsafe_byte c)) (stripped url) = true.
Proof. apply forallb_filter. Qed.

(** A valid URL reads [scheme://host...]. *)
Lemma valid_shape url :
  is_valid_url url = true ->
  exists s nl r,
    stripped url = s ++ "://" ++ nl ++ r
    /\ scheme_shaped s /\ good_netloc nl /\ after_netloc r.
Proof.
  unfold is_valid_url, Urllib.urlparse.
  destruct (Urllib.urlsplit url) as [res |] eqn:E; [| discriminate].
  match goal with |- context [if ?b then Urllib._splitparams ?u else ?y] =>
    destruct (if b then Urllib._splitparams u else y) as [pth prm] end.
  cbn [Urllib.scheme Urllib.netloc]. intros H. apply andb_true_iff in H as [Hs Hn].
  unfold Urllib.urlsplit in E.
  change (Str.filter (fun c => negb (Urllib.unsafe_byte c))
            (Str.lstrip Urllib.c0_control_or_space url)) with (stripped url) in E.
  pose proof (stripped_safe url) as Hsafe.
  destruct (Urllib.split_scheme (stripped url)) as [sch url1] eqn:Es.
  destruct (Str.startswith url1 "//") eqn:Hsl.
  - destruct (Urllib._splitnetloc url1) as [nl url2] eqn:En.
    destruct (Urllib.bracket_error nl) eqn:Hb; [discriminate |].
    destruct (Urllib.split_once "#" url2) as [url3 frag].
    destruct (Urllib.split_once "?" url3) as [url4 q].
    injection E as <-. cbn [Urllib.s_scheme Urllib.s_netloc] in Hs, Hn.
    destruct (split_scheme_shape _ _ _ Es) as [pre [Hx [Hpre _]]];
      [intros ->; discriminate |].
    unfold Urllib._splitnetloc in En.
    pose proof (span_app (fun c => negb (Str.mem c "/?#")) (Str.drop 2 url1)) as Happ.
    rewrite En in Happ. cbn [fst snd] in Happ.
    apply startswith_two in Hsl. rewrite <- Happ in Hsl.
    exists pre, nl, url2.
    assert (Heq : stripped url = pre ++ "://" ++ nl ++ url2).
    { rewrite Hx, Hsl. reflexivity. }
    split; [exact Heq |]. split; [exact Hpre |].
    split; [| exact (span_snd_after _ _ _ En)].
    split; [intros ->; discriminate |].
    split; [| split; [| exact Hb]].
    + pose proof (forallb_span_fst (fun c => negb (Str.mem c "/?#")) (Str.drop 2 url1)) as H.
      rewrite En in H. exact H.
    + rewrite Heq in Hsafe.
      change (pre ++ "://" ++ nl ++ url2) with (pre ++ ("://" ++ (nl ++ url2))) in Hsafe.
      rewrite forallb_app in Hsafe. apply andb_true_iff in Hsafe as [_ Hsafe].
      change ("://" ++ (nl ++ url2)) with (String ":" (String "/" (String "/" (nl ++ url2))))
        in Hsafe.
      cbn [Str.forallb] in Hsafe.
      apply andb_true_iff in Hsafe as [_ Hsafe].
      apply andb_true_iff in Hsafe as [_ Hsafe].
      apply andb_true_iff in Hsafe as [_ Hsafe].
      rewrite forallb_app in Hsafe. apply andb_true_iff in Hsafe as [Hsafe _].
      exact Hsafe.
  - change (Urllib.bracket_error "") with false in E. cbv iota in E.
    destruct (Urllib.split_once "#" url1) as [url3 frag].
    destruct (Urllib.split_once "?" url3) as [url4 q].
    injection E as <-. discriminate Hn.
Qed.

Lemma plain_host_good nl : plain_host nl -> good_netloc nl.
Proof.
  intros [Hne H]. split; [exact Hne |].
  set (p := fun c => (Str.code c <? 128)%nat && negb (Str.mem c "/?#[]")
                     && negb (Urllib.unsafe_byte c)) in H.
  split; [| split].
  - apply (forallb_weaken p); [| exact H]. intros c Hc. unfold p in Hc.
    apply andb_true_iff in Hc as [Hc _]. apply andb_true_iff in Hc as [_ Hc].
    apply negb_true_iff in Hc. unfold Str.mem in *. cbn [Str.existsb] in *.
    destruct (Ascii.eqb c "/"); [discriminate |].
    destruct (Ascii.eqb c "?"); [discriminate |].
    destruct (Ascii.eqb c "#"); [discriminate | reflexivity].
  - apply (forallb_weaken p); [| exact H]. intros c Hc. unfold p in Hc.
    apply andb_true_iff in Hc as [_ Hc]. exact Hc.
  - unfold Urllib.bracket_error.
    rewrite (forallb_mem "[" p nl eq_refl H), (forallb_mem "]" p nl eq_refl H).
    reflexivity.
Qed.

Lemma valid_of_shape url s nl r :
  stripped url = s ++ "://" ++ nl ++ r ->
  scheme_shaped s -> good_netloc nl -> after_netloc r ->
  is_valid_url url = true.
Proof.
  intros Hx Hs Hn Hr. unfold is_valid_url, Urllib.urlparse.
  rewrite (urlsplit_stripped url s nl r Hx Hs Hn Hr).
  destruct (Urllib.split_once "#" r) as [url3 frag].
  destruct (Urllib.split_once "?" url3) as [url4 q].
  match goal with |- context [if ?b then Urllib._splitparams ?u else ?y] =>
    destruct (if b then Urllib._splitparams u else y) as [pth prm] end.
  cbn [Urllib.scheme Urllib.netloc Urllib.s_scheme Urllib.s_netloc].
  destruct Hs as [c0 [s' [-> _]]]. destruct Hn as [Hne _].
  destruct nl; [contradiction | reflexivity].
Qed.

Lemma scheme_safe s :
  Str.forallb Urllib.scheme_char s = true ->
  Str.forallb (fun c => negb (Urllib.unsafe_byte c)) s = true.
Proof.
  apply forallb_weaken. intros c Hc.
  destruct (scheme_char_facts c Hc) as [_ [_ [_ [_ [-> _]]]]]. reflexivity.
Qed.

(** Stripping leaves the scheme and the host as they are. *)
Lemma stripped_shape s nl r :
  scheme_shaped s ->
  Str.forallb (fun c => negb (Urllib.unsafe_byte c)) nl = true ->
  stripped (s ++ "://" ++ nl ++ r)
  = s ++ "://" ++ nl ++ Str.filter (fun c => negb (Urllib.unsafe_byte c)) r.
Proof.
  intros [c0 [s' [-> [Ha Hs]]]] Hn. unfold stripped.
  assert (Hc0 : Urllib.scheme_char c0 = true).
  { cbn [Str.forallb] in Hs. apply andb_true_iff in Hs. apply Hs. }
  destruct (scheme_char_facts c0 Hc0) as [_ [_ [_ [_ [_ [Hctl _]]]]]].
  change (String c0 s' ++ "://" ++ nl ++ r)
    with (String c0 (s' ++ "://" ++ nl ++ r)).
  cbn [Str.lstrip]. rewrite Hctl.
  change (String c0 (s' ++ "://" ++ nl ++ r))
    with (String c0 s' ++ String ":" (String "/" (String "/" (nl ++ r)))).
  rewrite filter_app, (filter_id _ (String c0 s') (scheme_safe _ Hs)).
  change (Str.filter (fun c => negb (Urllib.unsafe_byte c))
            (String ":" (String "/" (String "/" (nl ++ r)))))
    with (String ":" (String "/" (String "/"
            (Str.filter (fun c => negb (Urllib.unsafe_byte c)) (nl ++ r))))).
  rewrite filter_app, (filter_id _ nl Hn). reflexivity.
Qed.

Lemma colon_split_inj a x b y :
  Str.forallb (fun c => negb (Ascii.eqb c ":")) a = true ->
  Str.forallb (fun c => negb (Ascii.eqb c ":")) b = true ->
  a ++ String ":" x = b ++ String ":" y -> a = b /\ x = y.
Proof.
  intros Ha Hb E.
  assert (H : Str.span (fun c => negb (Ascii.eqb c ":")) (a ++ String ":" x)
              = Str.span (fun c => negb (Ascii.eqb c ":")) (b ++ String ":" y))
    by (rewrite E; reflexivity).
  rewrite !span_app_stop in H by reflexivity.
  rewrite (span_all _ a Ha), (span_all _ b Hb) in H.
  cbn [fst snd String.append] in H. injection H as -> ->. split; reflexivity.
Qed.

(** C6, as amended.  A URL is valid exactly when [urlparse] finds a scheme
    and a network location in it: every valid URL reads, once [urlsplit]
    has stripped it, [<scheme>://<host><rest>], with a scheme that is a
    letter followed by letters, digits and [+-.], a host that is not
    empty, and a rest that is empty or opens with one of [/?#]; and every
    URL that reads so, with a host in ASCII without square brackets, is
    valid, whatever the scheme.  So a URL without a scheme or without a
    host is rejected, a URL without a colon among them, and a URL in which
    [//] does not follow the scheme; the scheme is not compared with
    [http] or [https].  [ftp://example.com/file.txt] is accepted, and so
    are [javascript://example.com/%0Aalert(1)] and
    [mailto://someone@example.com], while [javascript:alert(1)] and
    [mailto:someone@example.com] are rejected for the [//] they lack. *)
Theorem is_valid_url_scheme_and_host (url : string) :
  (is_valid_url url = true
   <-> exists p, Urllib.urlparse url = Some p
                 /\ Urllib.scheme p <> "" /\ Urllib.netloc p <> "")
  /\ (is_valid_url url = true ->
   exists s nl r,
     stripped url = s ++ "://" ++ nl ++ r
     /\ scheme_shaped s /\ good_netloc nl /\ after_netloc r)
  /\ (forall s nl r,
        stripped url = s ++ "://" ++ nl ++ r ->
        scheme_shaped s -> plain_host nl -> after_netloc r ->
        is_valid_url url = true)
  /\ (forall s nl r,
        scheme_shaped s -> plain_host nl -> after_netloc r ->
        is_valid_url (s ++ "://" ++ nl ++ r) = true)
  /\ (forall s rest,
        stripped url = s ++ ":" ++ rest -> Str.mem ":" s = false ->
        Str.startswith rest "//" = false ->
        is_valid_url url = false)
  /\ (Str.mem ":" url = false -> is_valid_url url = false)
  /\ is_valid_url "ftp://example.com/file.txt" = true
  /\ is_valid_url "javascript://example.com/%0Aalert(1)" = true
  /\ is_valid_url "mailto://someone@example.com" = true
  /\ is_valid_url "javascript:alert(1)" = false
  /\ is_valid_url "mailto:someone@example.com" = false.
Proof.
  split.
  { unfold is_valid_url. destruct (Urllib.urlparse url) as [p |].
    - rewrite andb_true_iff. split.
      + intros [H1 H2]. exists p. split; [reflexivity |].
        split; intros E; rewrite E in *; discriminate.
      + intros [p' [[= <-] [H1 H2]]].
        destruct (Urllib.scheme p); [contradiction |].
        destruct (Urllib.netloc p); [contradiction |]. split; reflexivity.
    - split; [discriminate |]. intros [p [H _]]. discriminate. }
  split; [apply valid_shape |].
  split; [intros s nl r Hx Hs Hn Hr;
          exact (valid_of_shape url s nl r Hx Hs (plain_host_good nl Hn) Hr) |].
  split; [| split; [| split; [apply no_colon_no_scheme | repeat split; reflexivity]]].
  - intros s nl r Hs Hn Hr. pose proof (plain_host_good nl Hn) as Hg.
    apply (valid_of_shape _ s nl (Str.filter (fun c => negb (Urllib.unsafe_byte c)) r));
      [| exact Hs | exact Hg | apply after_netloc_filter; exact Hr].
    apply stripped_shape; [exact Hs | apply Hg].
  - intros s rest Hx Hs Hsl.
    destruct (is_valid_url url) eqn:Hv; [| reflexivity]. exfalso.
    destruct (valid_shape url Hv) as [s' [nl [r [Hx' [[c0 [t [-> [_ Hs']]]] _]]]]].
    rewrite Hx in Hx'.
    change (s ++ ":" ++ rest) with (s ++ String ":" rest) in Hx'.
    change (String c0 t ++ "://" ++ nl ++ r)
      with (String c0 t ++ String ":" ("//" ++ nl ++ r)) in Hx'.
    apply colon_split_inj in Hx' as [_ ->];
      [| apply not_mem_forallb; exact Hs | apply scheme_no_colon; exact Hs'].
    discriminate.
Qed.

Lemma is_valid_url_scheme_and_host_witness :
  is_valid_url "gopher://example.org" = true /\ is_valid_url "/products/123" = false.
Proof.
  split.
  - apply (proj1 (proj2 (proj2 (is_valid_url_scheme_and_host "gopher://example.org")))
             "gopher" "example.org" "").
    + reflexivity.
    + exists "g"%char, "opher". repeat split; reflexivity.
    + split; [discriminate | reflexivity].
    + left. reflexivity.
  - apply (proj1 (proj2 (proj2 (proj2 (proj2 (proj2
             (is_valid_url_scheme_and_host "/products/123"))))))).
    reflexivity.
Defined.

(** ** The canonical form of a URL with a query *)












(** ** The links of a page *)

Section LinkFacts.

Variable env : collaborators.

Lemma extract_links_loop_spec base hrefs : forall acc l,
  l ∈ extract_links_loop env base hrefs acc ->
  l ∈ acc
  \/ (is_valid_url l = true
      /\ is_same_domain (tld_extract env) l base = true
      /\ exists href abs,
           href ∈ hrefs
           /\ Str.strip href <> ""
           /\ Str.startswith (Str.strip href) "javascript:" = false
           /\ Str.startswith (Str.strip href) "#" = false
           /\ urljoin env base (Str.strip href) = Some abs
           /\ canonicalize abs = Some l).
Proof.
  induction hrefs as [| h rest IH]; intros acc l; cbn [extract_links_loop].
  - intros H. left. exact H.
  - assert (Hrest : l ∈ acc
                    \/ (is_valid_url l = true
                        /\ is_same_domain (tld_extract env) l base = true
                        /\ exists href abs,
                             href ∈ rest
                             /\ Str.strip href <> ""
                             /\ Str.startswith (Str.strip href) "javascript:" = false
                             /\ Str.startswith (Str.strip href) "#" = false
                             /\ urljoin env base (Str.strip href) = Some abs
                             /\ canonicalize abs = Some l) ->
                    l ∈ acc
                    \/ (is_valid_url l = true
                        /\ is_same_domain (tld_extract env) l base = true
                        /\ exists href abs,
                             href ∈ h :: rest
                             /\ Str.strip href <> ""
                             /\ Str.startswith (Str.strip href) "javascript:" = false
                             /\ Str.startswith (Str.strip href) "#" = false
                             /\ urljoin env base (Str.strip href) = Some abs
                             /\ canonicalize abs = Some l)).
    { intros [H | [H1 [H2 [href [abs [Hin H3]]]]]]; [left; exact H |].
      right. split; [exact H1 |]. split; [exact H2 |].
      exists href, abs. split; [right; exact Hin | exact H3]. }
    destruct (Str.nonempty (Str.strip h)) eqn:Hne; cbn [andb];
      [| intros H; apply Hrest, IH, H].
    destruct (Str.startswith (Str.strip h) "javascript:") eqn:Hjs; cbn [negb andb];
      [intros H; apply Hrest, IH, H |].
    destruct (Str.startswith (Str.strip h) "#") eqn:Hfr; cbn [negb];
      [intros H; apply Hrest, IH, H |].
    destruct (urljoin env base (Str.strip h)) as [abs |] eqn:Hj;
      [| intros H; left; exact H].
    destruct (canonicalize abs) as [c |] eqn:Hc; [| intros H; left; exact H].
    destruct (is_valid_url c && is_same_domain (tld_extract env) c base) eqn:Hok;
      [| intros H; apply Hrest, IH, H].
    intros H. apply IH in H as [H | H]; [| apply Hrest; right; exact H].
    apply elem_of_app in H as [H | H]; [left; exact H |].
    apply list_elem_of_singleton in H as ->.
    apply andb_true_iff in Hok as [Hv Hd].
    right. split; [exact Hv |]. split; [exact Hd |].
    exists h, abs. split; [left |].
    split; [apply nonempty_neq; exact Hne |]. repeat split; assumption.
Qed.

(** X7.  Every link [extract_links] returns is a valid URL of the
    registrable domain of the page, holds no fragment, and is the
    canonical form of an [href] of the page that is not empty, is no
    [javascript:] URL and does not open with ['#'], joined to the page
    URL. *)
Theorem extract_links_sound html base l :
  l ∈ extract_links env html base ->
  is_valid_url l = true
  /\ is_same_domain (tld_extract env) l base = true
  /\ Str.mem "#" l = false
  /\ exists href abs,
       href ∈ find_hrefs env html
       /\ Str.strip href <> ""
       /\ Str.startswith (Str.strip href) "javascript:" = false
       /\ Str.startswith (Str.strip href) "#" = false
       /\ urljoin env base (Str.strip href) = Some abs
       /\ canonicalize abs = Some l.
Proof.
  intros H. apply extract_links_loop_spec in H as [H | [H1 [H2 H3]]]; [inversion H |].
  split; [exact H1 |]. split; [exact H2 |]. split; [| exact H3].
  destruct H3 as [href [abs [_ [_ [_ [_ [_ Hc]]]]]]].
  apply (canonicalize_no_hash abs l Hc).
Qed.

Lemma page_links_sound url l :
  l ∈ page_links env url ->
  is_valid_url l = true
  /\ is_same_domain (tld_extract env) l url = true
  /\ Str.mem "#" l = false.
Proof.
  unfold page_links. destruct (fetch_page env url) as [html |]; [| intros H; inversion H].
  destruct (Str.nonempty html); [| intros H; inversion H].
  intros H. apply extract_links_loop_spec in H as [H | [H1 [H2 H3]]]; [inversion H |].
  split; [exact H1 |]. split; [exact H2 |].
  destruct H3 as [href [abs [_ [_ [_ [_ [_ Hc]]]]]]].
  apply (canonicalize_no_hash abs l Hc).
Qed.

Lemma same_domain_trans u v w :
  is_same_domain (tld_extract env) u v = true ->
  is_same_domain (tld_extract env) v w = true ->
  is_same_domain (tld_extract env) u w = true.
Proof.
  unfold is_same_domain. intros H1 H2.
  apply andb_true_iff in H1 as [A1 B1], H2 as [A2 B2].
  apply String.eqb_eq in A1, B1, A2, B2.
  rewrite A1, A2, B1, B2, !String.eqb_refl. reflexivity.
Qed.

Lemma on_seed_domain_link cfg url l :
  on_seed_domain env cfg url -> l ∈ page_links env url -> on_seed_domain env cfg l.
Proof.
  intros Hu Hl. apply page_links_sound in Hl as [H1 [H2 H3]].
  right. split; [exact H1 |]. split; [exact H3 |].
  destruct Hu as [Hs | [_ [_ [s [Hs Hd]]]]].
  - exists url. split; [exact Hs | exact H2].
  - exists s. split; [exact Hs |]. eapply same_domain_trans; eauto.
Qed.

(** X8.  A crawl does not leave the domains of its seeds: in every state,
    each URL that is queued, visited or recorded as a product is a seed
    URL, or a valid URL without fragment that [is_same_domain] puts on the
    registrable domain of a seed URL. *)
Theorem crawl_stays_on_seed_domains cfg st :
  reachable env cfg st ->
  (forall u d, (u, d) ∈ queue st -> on_seed_domain env cfg u)
  /\ (forall u, u ∈ visited_urls st -> on_seed_domain env cfg u)
  /\ (forall u, u ∈ product_urls st -> on_seed_domain env cfg u).
Proof.
  intros Hr.
  assert (H : (forall u d, (u, d) ∈ queue st -> on_seed_domain env cfg u)
              /\ (forall u, u ∈ visited_urls st -> on_seed_domain env cfg u)).
  { revert st Hr.
    apply (reachable_ind_pass env cfg
             (fun st => (forall u d, (u, d) ∈ queue st -> on_seed_domain env cfg u)
                        /\ (forall u, u ∈ visited_urls st -> on_seed_domain env cfg u))).
    - split.
      + intros u d Hin. left. simpl in Hin.
        apply list_elem_of_In, in_map_iff in Hin as [s [[= <- <-] Hs]].
        apply list_elem_of_In. exact Hs.
      + intros u Hu. apply not_elem_of_empty in Hu. contradiction.
    - intros st fl st' _ [Hq Hv] _ Hp.
      assert (Hhead : forall url depth q, queue st = (url, depth) :: q ->
                on_seed_domain env cfg url
                /\ forall u d, (u, d) ∈ q -> on_seed_domain env cfg u).
      { intros url depth q E. rewrite E in Hq. split.
        - apply (Hq url depth). left.
        - intros u d Hu. apply (Hq u d). right. exact Hu. }
      assert (Hvis : forall url, on_seed_domain env cfg url ->
                forall u, u ∈ ({[url]} ∪ visited_urls st : gset string) ->
                          on_seed_domain env cfg u).
      { intros url Hurl u Hu. apply elem_of_union in Hu as [Hu | Hu]; [| auto].
        apply elem_of_singleton in Hu as ->. exact Hurl. }
      destruct Hp as [url depth q E Hvd | url depth q E Hvd Hpr Hm
                     | url depth q E Hvd Hpr Hd | url depth q E Hvd Hpr Hd];
        destruct (Hhead _ _ _ E) as [Hu Hrest].
      + split; simpl; assumption.
      + split; rewrite ?classified_queue, ?classified_visited;
          [assumption | apply (Hvis url Hu)].
      + split; rewrite ?classified_queue, ?classified_visited;
          [assumption | apply (Hvis url Hu)].
      + split; rewrite ?enqueue_links_queue, ?enqueue_links_visited; simpl;
          rewrite ?classified_queue, ?classified_visited; [| apply (Hvis url Hu)].
        intros u d Hin. apply elem_of_app in Hin as [Hin | Hin]; [eauto |].
        apply list_elem_of_In, in_map_iff in Hin as [l [[= <- <-] Hl]].
        apply (on_seed_domain_link cfg url l Hu).
        unfold accepted in Hl. apply filter_In in Hl as [Hl _].
        apply list_elem_of_In. exact Hl. }
  destruct H as [Hq Hv]. split; [exact Hq |]. split; [exact Hv |].
  intros u Hu. apply Hv.
  apply (products_visited _ _ _ (reachable_consistent env cfg st Hr)). exact Hu.
Qed.

End LinkFacts.

Lemma shop_home_links :
  extract_links (Site.env Site.shop) Site.home Site.home
  = ["https://www.shop.com/p/1"; "https://www.shop.com/p/2"; "https://www.shop.com/p/3"].
Proof. vm_compute. reflexivity. Qed.

Lemma extract_links_sound_witness :
  is_valid_url "https://www.shop.com/p/1" = true
  /\ is_same_domain (tld_extract (Site.env Site.shop))
       "https://www.shop.com/p/1" Site.home = true.
Proof.
  pose proof (extract_links_sound (Site.env Site.shop) Site.home Site.home
                "https://www.shop.com/p/1") as H.
  rewrite shop_home_links in H. specialize (H ltac:(left)).
  split; [exact (proj1 H) | exact (proj1 (proj2 H))].
Defined.

Lemma crawl_stays_on_seed_domains_witness :
  on_seed_domain (Site.env Site.shop) Site.two_products "https://www.shop.com/p/1".
Proof.
  apply (crawl_stays_on_seed_domains (Site.env Site.shop) Site.two_products
           (Site.final Site.shop Site.two_products 10)).
  - apply crawl_reachable with (fuel := 10%nat). apply shop_final_two.
  - apply (bool_decide_unpack _). vm_compute. exact I.
Defined.
(** ** The Scrapy driver *)

Section SpiderFacts.

Variable env : collaborators.

Lemma parse_links_loop_count pats limit response_url d links : forall n,
  snd (parse_links_loop env pats limit response_url d links n)
  = n + Z.of_nat (List.length (fst (parse_links_loop env pats limit response_url d links n)))
  /\ (0 < limit -> n <= limit ->
      snd (parse_links_loop env pats limit response_url d links n) <= limit).
Proof.
  induction links as [| link rest IH]; intros n; cbn [parse_links_loop].
  - simpl. split; lia.
  - destruct (urljoin env response_url link) as [u |]; [| simpl; split; lia].
    destruct (negb (is_valid_url u)); [apply IH |].
    destruct (negb (is_same_domain (tld_extract env) u response_url)); [apply IH |].
    destruct (canonicalize u) as [c |]; [| simpl; split; lia].
    destruct (spider_is_product_url (re_search env) pats c); [| apply IH].
    destruct (limit_reached limit n) eqn:Hl; [simpl; split; lia |].
    specialize (IH (n + 1)).
    destruct (parse_links_loop env pats limit response_url d rest (n + 1)) as [items n'].
    cbn [fst snd length] in *. destruct IH as [I1 I2]. split; [lia |].
    intros Hpos Hle. apply I2; [exact Hpos |].
    unfold limit_reached in Hl. apply andb_false_iff in Hl as [Hl | Hl].
    + apply negb_false_iff, Z.eqb_eq in Hl. lia.
    + apply Z.leb_gt in Hl. lia.
Qed.

(** X9.  One call of [parse_links] raises [products_found] by the number
    of items it yields; with a positive limit that the counter does not
    exceed before the call, the counter does not exceed it afterwards; and
    a call made with the limit reached yields nothing. *)
Theorem parse_links_counts pats limit response_url links n items n' :
  parse_links env pats limit response_url links n = (items, n') ->
  n' = n + Z.of_nat (List.length items)
  /\ (0 < limit -> n <= limit -> n' <= limit)
  /\ (limit_reached limit n = true -> items = []).
Proof.
  unfold parse_links. intros H.
  destruct (limit_reached limit n) eqn:Hl.
  - injection H as <- <-. simpl. repeat split; lia.
  - pose proof (parse_links_loop_count pats limit response_url
                  (get_domain (tld_extract env) response_url) links n) as [H1 H2].
    rewrite H in H1, H2. cbn [fst snd] in *.
    split; [exact H1 |]. split; [exact H2 | discriminate].
Qed.

Lemma parse_links_loop_items pats limit response_url d links : forall n item,
  In item (fst (parse_links_loop env pats limit response_url d links n)) ->
  Items.found_on item = response_url
  /\ spider_is_product_url (re_search env) pats (Items.url item) = true
  /\ exists link abs,
       In link links
       /\ urljoin env response_url link = Some abs
       /\ is_valid_url abs = true
       /\ is_same_domain (tld_extract env) abs response_url = true
       /\ canonicalize abs = Some (Items.url item).
Proof.
  induction links as [| link rest IH]; intros n item; cbn [parse_links_loop].
  - simpl. tauto.
  - assert (Hrest : forall m,
              In item (fst (parse_links_loop env pats limit response_url d rest m)) ->
              Items.found_on item = response_url
              /\ spider_is_product_url (re_search env) pats (Items.url item) = true
              /\ exists link0 abs,
                   In link0 (link :: rest)
                   /\ urljoin env response_url link0 = Some abs
                   /\ is_valid_url abs = true
                   /\ is_same_domain (tld_extract env) abs response_url = true
                   /\ canonicalize abs = Some (Items.url item)).
    { intros m Hm. destruct (IH m item Hm) as [H1 [H2 [l [abs [Hl H3]]]]].
      split; [exact H1 |]. split; [exact H2 |].
      exists l, abs. split; [right; exact Hl | exact H3]. }
    destruct (urljoin env response_url link) as [u |] eqn:Hj; [| simpl; tauto].
    destruct (is_valid_url u) eqn:Hv; cbn [negb]; [| apply Hrest].
    destruct (is_same_domain (tld_extract env) u response_url) eqn:Hd; cbn [negb];
      [| apply Hrest].
    destruct (canonicalize u) as [c |] eqn:Hc; [| simpl; tauto].
    destruct (spider_is_product_url (re_search env) pats c) eqn:Hp; [| apply Hrest].
    destruct (limit_reached limit n); [simpl; tauto |].
    specialize (Hrest (n + 1)).
    destruct (parse_links_loop env pats limit response_url d rest (n + 1)) as [items n'].
    cbn [fst] in *. intros [<- | Hin]; [| apply Hrest; exact Hin].
    cbn. split; [reflexivity |]. split; [exact Hp |].
    exists link, u. split; [left; reflexivity |]. repeat split; assumption.
Qed.

(** X10.  Every item [parse_links] yields names the response URL as the
    page it was found on, and its URL is one the spider's patterns accept,
    is valid, holds no fragment, and is the canonical form of a link of
    the page that, joined to the response URL, is valid and of the domain
    of the response.  No exclude pattern is consulted. *)
Theorem parse_links_items pats limit response_url links n item :
  In item (fst (parse_links env pats limit response_url links n)) ->
  Items.found_on item = response_url
  /\ Items.domain item = get_domain (tld_extract env) response_url
  /\ spider_is_product_url (re_search env) pats (Items.url item) = true
  /\ is_valid_url (Items.url item) = true
  /\ Str.mem "#" (Items.url item) = false
  /\ exists link abs,
       In link links
       /\ urljoin env response_url link = Some abs
       /\ is_valid_url abs = true
       /\ is_same_domain (tld_extract env) abs response_url = true
       /\ canonicalize abs = Some (Items.url item).
Proof.
  unfold parse_links. destruct (limit_reached limit n); [simpl; tauto |].
  intros Hin.
  pose proof (parse_links_loop_domain _ _ _ _ _ _ _ _ Hin) as Hd.
  destruct (parse_links_loop_items _ _ _ _ _ _ _ Hin) as [H1 [H2 H3]].
  split; [exact H1 |]. split; [exact Hd |]. split; [exact H2 |].
  destruct H3 as [link [abs [Hl [Hj [Hv [Hs Hc]]]]]].
  destruct (canonicalize_valid abs Hv) as [c [Hc' Hvc]].
  rewrite Hc in Hc'. injection Hc' as <-.
  split; [exact Hvc |]. split; [apply (canonicalize_no_hash abs _ Hc) |].
  exists link, abs. repeat split; assumption.
Qed.

End SpiderFacts.

(** The spider yields the excluded URL of the [about] page. *)
Lemma about_page_items :
  parse_links (Site.env Site.about) [] 10 Site.home [Site.about_us] 0
  = ([Items.mkProductURL Site.about_us "shop.com" Site.home], 1).
Proof. vm_compute. reflexivity. Qed.

Lemma parse_links_counts_witness :
  1 = 0 + Z.of_nat (List.length [Items.mkProductURL Site.about_us "shop.com" Site.home])
  /\ (0 < 10 -> 0 <= 10 -> 1 <= 10)
  /\ (limit_reached 10 0 = true
      -> [Items.mkProductURL Site.about_us "shop.com" Site.home] = []).
Proof.
  apply (parse_links_counts (Site.env Site.about) [] 10 Site.home [Site.about_us] 0).
  apply about_page_items.
Defined.

Lemma parse_links_items_witness :
  is_excluded PyRe.search Site.about_us = true
  /\ is_valid_url Site.about_us = true.
Proof.
  split; [reflexivity |].
  pose proof (parse_links_items (Site.env Site.about) [] 10 Site.home [Site.about_us] 0
                (Items.mkProductURL Site.about_us "shop.com" Site.home)) as H.
  rewrite about_page_items in H. specialize (H (or_introl eq_refl)).
  exact (proj1 (proj2 (proj2 (proj2 H)))).
Defined.

(** ** The pipelines *)

Lemma process_item_seen st item :
  Pipelines.urls_seen (Pipelines.process_item st item)
  = {[Items.url item]} ∪ Pipelines.urls_seen st.
Proof. apply (domain_urls_process_item st item ""). Qed.

Lemma process_items_seen items : forall st,
  Pipelines.urls_seen (Pipelines.process_items items st)
  = list_to_set (List.map Items.url items) ∪ Pipelines.urls_seen st.
Proof.
  induction items as [| item rest IH]; intros st.
  - simpl. set_solver.
  - change (Pipelines.process_items (item :: rest) st)
      with (Pipelines.process_items rest (Pipelines.process_item st item)).
    rewrite IH, process_item_seen. simpl. set_solver.
Qed.

(** X11.  After any sequence of items the set of seen URLs is the set seen
    before together with the URLs of the items; an item whose URL is seen
    already is dropped and changes nothing, so that processing an item a
    second time right away changes nothing. *)
Theorem duplicates_dropped (items : list Items.ProductURL) (st : Pipelines.state)
    (item : Items.ProductURL) :
  Pipelines.urls_seen (Pipelines.process_items items st)
  = list_to_set (List.map Items.url items) ∪ Pipelines.urls_seen st
  /\ (Items.url item ∈ Pipelines.urls_seen st ->
      Pipelines.duplicates_process_item item st = (None, st)
      /\ Pipelines.process_item st item = st)
  /\ Pipelines.process_item (Pipelines.process_item st item) item
     = Pipelines.process_item st item.
Proof.
  assert (Hdrop : forall s, Items.url item ∈ Pipelines.urls_seen s ->
                    Pipelines.duplicates_process_item item s = (None, s)
                    /\ Pipelines.process_item s item = s).
  { intros s Hs. unfold Pipelines.process_item, Pipelines.duplicates_process_item.
    rewrite bool_decide_eq_true_2 by exact Hs. split; reflexivity. }
  split; [apply process_items_seen |]. split; [apply Hdrop |].
  apply Hdrop. rewrite process_item_seen. set_solver.
Qed.

Lemma map_nodup_inj {A B} (f : A -> B) (l : list A) x y :
  NoDup (List.map f l) -> In x l -> In y l -> f x = f y -> x = y.
Proof.
  induction l as [| a l IH]; simpl; [tauto |].
  intros H. apply NoDup_cons in H as [Ha Hl].
  intros [<- | Hx] [<- | Hy] E; auto.
  - exfalso. apply Ha. rewrite E. apply list_elem_of_In, in_map. exact Hy.
  - exfalso. apply Ha. rewrite <- E. apply list_elem_of_In, in_map. exact Hx.
Qed.

Lemma first_occurrences_urls seen items u :
  u ∈ List.map Items.url (first_occurrences seen items)
  <-> u ∈ List.map Items.url items /\ u ∉ seen.
Proof.
  revert seen. induction items as [| item rest IH]; intros seen; simpl.
  - split; [intros H; inversion H | intros [H _]; inversion H].
  - destruct (bool_decide (Items.url item ∈ seen)) eqn:Hs.
    + apply bool_decide_eq_true in Hs. rewrite IH, elem_of_cons.
      split; [tauto |]. intros [[-> | H] Hn]; [contradiction | tauto].
    + apply bool_decide_eq_false in Hs. simpl. rewrite !elem_of_cons, IH.
      split.
      * intros [-> | [H Hn]]; [tauto |]. split; [tauto | set_solver].
      * intros [[-> | H] Hn]; [tauto |].
        destruct (decide (u = Items.url item)) as [-> | Hne]; [tauto |].
        right. split; [exact H | set_solver].
Qed.

(** X12.  Behind [DuplicatesPipeline], the files [OutputPipeline] writes
    do not share a URL: a URL is listed for one domain only, the domain of
    the first item that carried it, and the URLs listed are, all domains
    together, the URLs of the items. *)
Theorem one_domain_per_url (items : list Items.ProductURL) (d1 d2 u : string) :
  u ∈ Pipelines.domain_urls (Pipelines.process_items items Pipelines.empty) d1 ->
  u ∈ Pipelines.domain_urls (Pipelines.process_items items Pipelines.empty) d2 ->
  d1 = d2
  /\ u ∈ List.map Items.url items
  /\ forall v, v ∈ List.map Items.url items ->
       exists d, v ∈ Pipelines.domain_urls (Pipelines.process_items items Pipelines.empty) d.
Proof.
  rewrite !domain_urls_process_items. simpl. intros H1 H2.
  apply list_elem_of_In, in_map_iff in H1 as [i1 [E1 F1]].
  apply list_elem_of_In, in_map_iff in H2 as [i2 [E2 F2]].
  apply filter_In in F1 as [F1 D1], F2 as [F2 D2].
  pose proof (first_occurrences_fresh ∅ items) as [Hnd _].
  assert (i1 = i2) by (eapply map_nodup_inj; eauto; congruence). subst i2.
  apply String.eqb_eq in D1, D2. split; [congruence |]. split.
  - apply (first_occurrences_urls ∅ items u).
    apply list_elem_of_In, in_map_iff. eauto.
  - intros v Hv.
    assert (Hf : v ∈ List.map Items.url (first_occurrences ∅ items)).
    { apply first_occurrences_urls. split; [exact Hv | set_solver]. }
    apply list_elem_of_In, in_map_iff in Hf as [i [Ei Fi]].
    exists (Items.domain i). rewrite domain_urls_process_items. simpl.
    apply list_elem_of_In, in_map_iff. exists i. split; [exact Ei |].
    apply filter_In. split; [exact Fi |]. apply String.eqb_refl.
Qed.

Lemma one_domain_per_url_witness :
  "a.com" = "a.com"
  /\ "https://a.com/p/1"
     ∈ List.map Items.url
         [Items.mkProductURL "https://a.com/p/1" "a.com" "https://a.com/";
          Items.mkProductURL "https://a.com/p/1" "b.com" "https://b.com/"].
Proof.
  pose proof (one_domain_per_url
                [Items.mkProductURL "https://a.com/p/1" "a.com" "https://a.com/";
                 Items.mkProductURL "https://a.com/p/1" "b.com" "https://b.com/"]
                "a.com" "a.com" "https://a.com/p/1") as H.
  assert (Hin : "https://a.com/p/1"
                ∈ Pipelines.domain_urls
                    (Pipelines.process_items
                       [Items.mkProductURL "https://a.com/p/1" "a.com" "https://a.com/";
                        Items.mkProductURL "https://a.com/p/1" "b.com" "https://b.com/"]
                       Pipelines.empty) "a.com").
  { apply (bool_decide_unpack _). vm_compute. exact I. }
  specialize (H Hin Hin). split; [exact (proj1 H) | exact (proj1 (proj2 H))].
Defined.

(** ** The two classifiers *)

(** X17.  The two drivers classify alike as far as the patterns compile:
    whenever [SimpleEcommerceCrawler.is_product] and
    [EcommerceSpider.is_product_url] both return, they return the same
    value, and when [re.search] raises for no pattern of the domain's list
    or of the generic list, both return and so agree.  [is_product]
    accepts every URL the helper [is_product_url] accepts with the
    domain's list.  A pattern that is no regular expression tells them apart: with the one
    domain pattern ["["] and a URL under [/product/], [is_product] raises
    at its first pattern and the spider returns true at a generic one. *)
Theorem drivers_classify_alike (search : string -> string -> option bool)
    (patterns : list string) (url : string) :
  (forall b1 b2,
     Raising.is_product search patterns url = Some b1 ->
     Raising.spider_is_product_url search patterns url = Some b2 ->
     b1 = b2)
  /\ ((forall p, In p (patterns ++ default_patterns) -> search p url <> None) ->
      Raising.is_product search patterns url
      = Raising.spider_is_product_url search patterns url
      /\ Raising.is_product search patterns url <> None)
  /\ (Raising.is_product_url search url (Some patterns) = Some true ->
      Raising.is_product search patterns url = Some true)
  /\ Raising.is_product search_or_error ["["] "https://a.com/product/1" = None
  /\ Raising.spider_is_product_url search_or_error ["["] "https://a.com/product/1"
     = Some true.
Proof.
  assert (Hsp : Raising.spider_is_product_url search patterns url
                = Raising.any_match search (default_patterns ++ patterns) url)
    by reflexivity.
  assert (Hagree : forall b1 b2,
            Raising.is_product search patterns url = Some b1 ->
            Raising.spider_is_product_url search patterns url = Some b2 ->
            b1 = b2).
  { intros b1 b2 H1 H2. rewrite raising_is_product in H1. rewrite Hsp in H2.
    exact (raising_any_match_comm search _ _ url b1 b2 H1 H2). }
  split; [exact Hagree |]. split; [| split; [| split; reflexivity]].
  - intros Hok.
    assert (Hno : forall l, (forall p, In p l -> In p (patterns ++ default_patterns)) ->
                    Raising.any_match search l url <> None).
    { intros l Hl E.
      apply (raising_any_match_first search l url None) in E; [| discriminate].
      destruct E as [l1 [p [l2 [-> [Hp _]]]]].
      apply (Hok p); [| exact Hp]. apply Hl, in_app_iff. right. left. reflexivity. }
    assert (H1 : Raising.is_product search patterns url <> None).
    { rewrite raising_is_product. apply Hno. auto. }
    assert (H2 : Raising.spider_is_product_url search patterns url <> None).
    { rewrite Hsp. apply Hno. intros p Hp.
      apply in_app_iff. apply in_app_iff in Hp. tauto. }
    split; [| exact H1].
    destruct (Raising.is_product search patterns url) as [b1 |] eqn:E1;
      [| contradiction].
    destruct (Raising.spider_is_product_url search patterns url) as [b2 |] eqn:E2;
      [| contradiction].
    f_equal. apply Hagree; reflexivity.
  - unfold Raising.is_product, Raising.is_product_url.
    destruct patterns as [| p ps].
    + intros H. exact H.
    + intros ->. reflexivity.
Qed.
(** ** Result files *)

Lemma rsplit_none c s : Str.mem c s = false -> Files.rsplit c s = None.
Proof.
  unfold Str.mem. induction s as [| a s IH]; simpl; [reflexivity |].
  intros H. apply orb_false_iff in H as [H1 H2]. rewrite (IH H2).
  rewrite Ascii.eqb_sym, H1. reflexivity.
Qed.

Lemma rsplit_app c s post :
  Str.mem c post = false -> Files.rsplit c (s ++ String c post) = Some (s, post).
Proof.
  intros H. induction s as [| a s IH]; simpl.
  - rewrite (rsplit_none c post H), Ascii.eqb_refl. reflexivity.
  - rewrite IH. reflexivity.
Qed.

(** The stem of [s.json] is [s]. *)
Lemma stem_json s : s <> "" -> Files.stem (s ++ ".json") = s.
Proof.
  intros Hs. unfold Files.stem.
  change ".json" with (String "." "json").
  rewrite rsplit_app by reflexivity.
  destruct s; [contradiction | reflexivity].
Qed.

Lemma split_cons sep s : exists x l, Files.split sep s = x :: l.
Proof.
  induction s as [| c s [x [l IH]]]; simpl; [eauto |].
  destruct (Ascii.eqb c sep); [eauto |]. rewrite IH. eauto.
Qed.

Lemma split_span sep s :
  Files.split sep s
  = match Str.span (fun c => negb (Ascii.eqb c sep)) s with
    | (a, EmptyString) => [a]
    | (a, String _ b) => a :: Files.split sep b
    end.
Proof.
  induction s as [| c s IH]; simpl; [reflexivity |].
  destruct (Ascii.eqb c sep); simpl; [reflexivity |].
  rewrite IH. destruct (Str.span (fun c0 => negb (Ascii.eqb c0 sep)) s) as [a b].
  destruct b; reflexivity.
Qed.

Lemma replace_id old new s :
  Str.mem old s = false -> Files.replace old new s = s.
Proof.
  unfold Str.mem, Files.replace. induction s as [| c s IH]; simpl; [reflexivity |].
  intros H. apply orb_false_iff in H as [H1 H2].
  rewrite Ascii.eqb_sym, H1, (IH H2). reflexivity.
Qed.

Lemma replace_span d :
  fst (Str.span (fun c => negb (Ascii.eqb c "_")) (Files.replace "." "_" d))
  = fst (Str.span (fun c => negb (Ascii.eqb c "." || Ascii.eqb c "_")) d).
Proof.
  unfold Files.replace. induction d as [| c d IH]; simpl; [reflexivity |].
  destruct (Ascii.eqb c ".") eqn:E; simpl; [reflexivity |].
  destruct (Ascii.eqb c "_"); simpl; [reflexivity |].
  destruct (Str.span _ (Str.map _ d)) as [a b].
  destruct (Str.span _ d) as [a' b']. simpl in *. congruence.
Qed.

Lemma span_fst_id p s : fst (Str.span p s) = s <-> Str.forallb p s = true.
Proof.
  split.
  - intros H. rewrite <- H. apply forallb_span_fst.
  - intros H. rewrite (span_all p s H). reflexivity.
Qed.

Lemma forallb_neither s :
  Str.forallb (fun c => negb (Ascii.eqb c "." || Ascii.eqb c "_")) s = true
  <-> Str.mem "." s = false /\ Str.mem "_" s = false.
Proof.
  unfold Str.mem. induction s as [| c s IH]; cbn [Str.forallb Str.existsb]; [tauto |].
  rewrite (Ascii.eqb_sym c "."), (Ascii.eqb_sym c "_").
  destruct (Ascii.eqb "." c), (Ascii.eqb "_" c); cbn [orb negb andb];
    first [exact IH | split; [discriminate | intros [? ?]; discriminate]].
Qed.

Lemma saved_stem domain timestamp :
  Files.stem (Files.results_filename domain timestamp)
  = Files.replace "." "_" domain ++ String "_" timestamp.
Proof.
  unfold Files.results_filename.
  change ("_" ++ timestamp ++ ".json") with (String "_" (timestamp ++ ".json")).
  change (String "_" (timestamp ++ ".json")) with (String "_" timestamp ++ ".json").
  rewrite <- string_app_assoc. apply stem_json.
  destruct (Files.replace "." "_" domain); discriminate.
Qed.

Lemma saved_split domain timestamp :
  exists part l,
    Files.split "_" (Files.stem (Files.results_filename domain timestamp))
    = fst (Str.span (fun c => negb (Ascii.eqb c "." || Ascii.eqb c "_")) domain)
        :: part :: l.
Proof.
  rewrite saved_stem, split_span, span_app_stop by reflexivity.
  rewrite replace_span.
  destruct (snd (Str.span (fun c => negb (Ascii.eqb c "_")) (Files.replace "." "_" domain))
            ++ String "_" timestamp) as [| x b] eqn:E.
  - destruct (snd (Str.span (fun c => negb (Ascii.eqb c "_"))
                     (Files.replace "." "_" domain))); discriminate.
  - destruct (split_cons "_" b) as [part [l ->]]. eauto.
Qed.

(** X13.  The key under which [combine_results] and [merge_results] file
    the result file of a domain is the part of the domain before its first
    dot or underscore, whatever the time stamp: it is the domain only for
    a domain that holds neither, and the results of [shop.com] and
    [shop.in] go under the one key [shop]. *)
Theorem saved_file_domain (domain timestamp : string) :
  Files.file_domain (Files.results_filename domain timestamp)
  = Some (fst (Str.span (fun c => negb (Ascii.eqb c "." || Ascii.eqb c "_")) domain))
  /\ Files.merge_domain (Files.results_filename domain timestamp)
     = fst (Str.span (fun c => negb (Ascii.eqb c "." || Ascii.eqb c "_")) domain)
  /\ (Files.file_domain (Files.results_filename domain timestamp) = Some domain
      <-> Str.mem "." domain = false /\ Str.mem "_" domain = false)
  /\ Files.file_domain (Files.results_filename "shop.com" timestamp)
     = Files.file_domain (Files.results_filename "shop.in" timestamp).
Proof.
  assert (Hid : Files.replace "_" "."
                  (fst (Str.span (fun c => negb (Ascii.eqb c "." || Ascii.eqb c "_")) domain))
                = fst (Str.span (fun c => negb (Ascii.eqb c "." || Ascii.eqb c "_")) domain)).
  { apply replace_id.
    apply (forallb_mem "_" (fun c => negb (Ascii.eqb c "." || Ascii.eqb c "_")));
      [reflexivity | apply forallb_span_fst]. }
  assert (Hd : forall d,
             Files.file_domain (Files.results_filename d timestamp)
             = Some (Files.replace "_" "."
                       (fst (Str.span (fun c => negb (Ascii.eqb c "." || Ascii.eqb c "_")) d)))).
  { intros d. unfold Files.file_domain.
    destruct (saved_split d timestamp) as [part [l ->]]. reflexivity. }
  split; [rewrite Hd, Hid; reflexivity |]. split.
  - unfold Files.merge_domain.
    destruct (saved_split domain timestamp) as [part [l ->]]. exact Hid.
  - split; [| rewrite !Hd; reflexivity].
    rewrite Hd, Hid, <- forallb_neither, <- span_fst_id.
    split; [intros [= H]; exact H | intros H; f_equal; exact H].
Qed.

Lemma string_app_inv_tail (a b c : string) : a ++ c = b ++ c -> a = b.
Proof.
  revert b. induction a as [| x a IH]; intros [| y b] H; simpl in *.
  - reflexivity.
  - apply (f_equal String.length) in H. simpl in H.
    rewrite string_length_app in H. lia.
  - apply (f_equal String.length) in H. simpl in H.
    rewrite string_length_app in H. lia.
  - injection H as -> H. f_equal. apply IH, H.
Qed.

Lemma replace_dot_inj d1 d2 :
  Str.mem "_" d1 = false -> Str.mem "_" d2 = false ->
  Files.replace "." "_" d1 = Files.replace "." "_" d2 -> d1 = d2.
Proof.
  unfold Str.mem, Files.replace. revert d2.
  induction d1 as [| x d1 IH]; intros [| y d2]; simpl; try discriminate; [reflexivity |].
  intros H1 H2 H. apply orb_false_iff in H1 as [X1 H1], H2 as [Y1 H2].
  injection H as Hc H. rewrite (IH d2 H1 H2 H). f_equal.
  destruct (Ascii.eqb_spec x ".") as [-> |], (Ascii.eqb_spec y ".") as [-> |];
    [reflexivity | | | exact Hc].
  - subst y. discriminate.
  - subst x. discriminate.
Qed.

(** X14.  Under one time stamp, as in [close_spider], two domains that
    hold no underscore are written to the same file only if they are the
    same domain, so that no domain's file overwrites another's; the
    condition is needed, [a.b] and [a_b] share their file name. *)
Theorem results_filename_injective (d1 d2 timestamp : string) :
  Str.mem "_" d1 = false -> Str.mem "_" d2 = false ->
  (Files.results_filename d1 timestamp = Files.results_filename d2 timestamp
   <-> d1 = d2)
  /\ Files.results_filename "a.b" timestamp = Files.results_filename "a_b" timestamp.
Proof.
  intros H1 H2. split; [| reflexivity].
  split; [| intros ->; reflexivity].
  unfold Files.results_filename. intros H.
  apply string_app_inv_tail in H. apply (replace_dot_inj d1 d2 H1 H2 H).
Qed.

Lemma results_filename_injective_witness :
  (Files.results_filename "shop.com" "20240101_120000"
   = Files.results_filename "shop.in" "20240101_120000"
   <-> "shop.com" = "shop.in")
  /\ Files.results_filename "a.b" "20240101_120000"
     = Files.results_filename "a_b" "20240101_120000".
Proof.
  apply (results_filename_injective "shop.com" "shop.in" "20240101_120000");
    reflexivity.
Defined.

(** *** The combined dictionary *)

Lemma lookup_update k k' f r :
  Files.lookup k' (Files.update k f r)
  = if String.eqb k' k then Some (f (default [] (Files.lookup k r)))
    else Files.lookup k' r.
Proof.
  induction r as [| [k0 v] r IH]; simpl.
  - destruct (String.eqb k' k); reflexivity.
  - destruct (String.eqb_spec k k0) as [-> | Hk]; simpl.
    + destruct (String.eqb k' k0); reflexivity.
    + rewrite IH. destruct (String.eqb_spec k' k0) as [-> | Hk'].
      * destruct (String.eqb_spec k0 k); [congruence | reflexivity].
      * reflexivity.
Qed.

Lemma lookup_none k r : Files.lookup k r = None <-> ~ In k (List.map fst r).
Proof.
  induction r as [| [k0 v] r IH]; simpl; [tauto |].
  destruct (String.eqb_spec k k0) as [-> | Hk].
  - split; [discriminate | intros H; exfalso; apply H; left; reflexivity].
  - rewrite IH. split; [intros H [E | E]; [congruence | tauto] | tauto].
Qed.

Lemma update_keys k f r :
  List.map fst (Files.update k f r)
  = match Files.lookup k r with
    | Some _ => List.map fst r
    | None => (List.map fst r ++ [k])%list
    end.
Proof.
  induction r as [| [k0 v] r IH]; simpl; [reflexivity |].
  destruct (String.eqb k k0); simpl; [reflexivity |].
  rewrite IH. destruct (Files.lookup k r); reflexivity.
Qed.

Lemma update_nodup k f r :
  List.NoDup (List.map fst r) -> List.NoDup (List.map fst (Files.update k f r)).
Proof.
  intros H. rewrite update_keys. destruct (Files.lookup k r) eqn:E; [exact H |].
  apply lookup_none in E.
  apply NoDup_ListNoDup, NoDup_app. apply NoDup_ListNoDup in H.
  split; [exact H |]. split.
  - intros x Hx Hk. apply list_elem_of_In in Hx. apply list_elem_of_In in Hk.
    destruct Hk as [<- | []]. exact (E Hx).
  - apply NoDup_singleton.
Qed.

Lemma file_urls_creates domain f :
  Files.creates domain f = false -> Files.file_urls domain f = [].
Proof.
  unfold Files.creates, Files.file_urls.
  destruct (Files.data f); [reflexivity | intros -> |]; reflexivity.
Qed.

Lemma combine_file_lookup domain r f :
  Files.lookup domain (Files.combine_file r f)
  = match Files.lookup domain r with
    | Some v => Some (v ++ Files.file_urls domain f)%list
    | None => if Files.creates domain f then Some (Files.file_urls domain f) else None
    end.
Proof.
  assert (Hsame : Files.creates domain f = false ->
                  Files.lookup domain r
                  = match Files.lookup domain r with
                    | Some v => Some (v ++ Files.file_urls domain f)%list
                    | None => if Files.creates domain f
                              then Some (Files.file_urls domain f) else None
                    end).
  { intros Hc. rewrite Hc, (file_urls_creates _ _ Hc).
    destruct (Files.lookup domain r); [rewrite app_nil_r |]; reflexivity. }
  unfold Files.combine_file.
  destruct (Str.startswith (Files.name f) "all_domains_") eqn:Hs.
  { apply Hsame. unfold Files.creates, Files.counted. rewrite Hs.
    destruct (Files.data f); reflexivity. }
  destruct (Files.data f) as [| urls |] eqn:Hd.
  - apply Hsame. unfold Files.creates. rewrite Hd. reflexivity.
  - unfold Files.creates, Files.file_urls, Files.counted. rewrite Hd, Hs. simpl.
    destruct (Files.file_domain (Files.name f)) as [d |] eqn:Hf.
    + rewrite lookup_update. destruct (String.eqb_spec domain d) as [-> | Hne].
      * rewrite bool_decide_eq_true_2 by reflexivity.
        destruct (Files.lookup d r); reflexivity.
      * rewrite bool_decide_eq_false_2 by congruence.
        destruct (Files.lookup domain r); [rewrite app_nil_r |]; reflexivity.
    + rewrite bool_decide_eq_false_2 by congruence.
      destruct (Files.lookup domain r); [rewrite app_nil_r |]; reflexivity.
  - unfold Files.creates, Files.file_urls, Files.counted. rewrite Hd, Hs. simpl.
    destruct (Files.file_domain (Files.name f)) as [d |] eqn:Hf.
    + rewrite lookup_update. destruct (String.eqb_spec domain d) as [-> | Hne].
      * rewrite bool_decide_eq_true_2 by reflexivity.
        destruct (Files.lookup d r); [rewrite app_nil_r |]; reflexivity.
      * rewrite bool_decide_eq_false_2 by congruence.
        destruct (Files.lookup domain r); [rewrite app_nil_r |]; reflexivity.
    + rewrite bool_decide_eq_false_2 by congruence.
      destruct (Files.lookup domain r); [rewrite app_nil_r |]; reflexivity.
Qed.

Lemma combine_fold_lookup domain fs : forall r,
  Files.lookup domain (fold_left Files.combine_file fs r)
  = match Files.lookup domain r with
    | Some v => Some (v ++ concat (List.map (Files.file_urls domain) fs))%list
    | None => if List.existsb (Files.creates domain) fs
              then Some (concat (List.map (Files.file_urls domain) fs)) else None
    end.
Proof.
  induction fs as [| f fs IH]; intros r; simpl.
  - destruct (Files.lookup domain r); [rewrite app_nil_r |]; reflexivity.
  - rewrite IH, combine_file_lookup.
    destruct (Files.lookup domain r) as [v |].
    + rewrite app_assoc. reflexivity.
    + destruct (Files.creates domain f) eqn:Hc; simpl; [reflexivity |].
      rewrite (file_urls_creates _ _ Hc). reflexivity.
Qed.

Lemma combine_file_nodup r f :
  List.NoDup (List.map fst r) -> List.NoDup (List.map fst (Files.combine_file r f)).
Proof.
  intros H. unfold Files.combine_file.
  destruct (Str.startswith _ _); [exact H |].
  destruct (Files.data f); [exact H | |];
    (destruct (Files.file_domain _); [apply update_nodup, H | exact H]).
Qed.

Lemma combine_fold_nodup fs : forall r,
  List.NoDup (List.map fst r) ->
  List.NoDup (List.map fst (fold_left Files.combine_file fs r)).
Proof.
  induction fs as [| f fs IH]; intros r H; simpl; [exact H |].
  apply IH, combine_file_nodup, H.
Qed.

(** X15.  In the dictionary [combine_results] writes, no key occurs
    twice; a key is present when some file that is not a combined file,
    has that key as the first part of its name and holds JSON was listed,
    even a file that holds no list; and the list under a key is the
    concatenation, in the order of the listing, of the lists of those
    files, duplicates kept.  Every URL in it comes from such a file. *)
Theorem combine_results_groups (json_files : list Files.file)
    (results : list (string * list string)) (domain : string) :
  Files.combine_results json_files = Some results ->
  List.NoDup (List.map fst results)
  /\ Files.lookup domain results
     = (if List.existsb (Files.creates domain) json_files
        then Some (concat (List.map (Files.file_urls domain) json_files))
        else None)
  /\ (forall v u, Files.lookup domain results = Some v -> In u v ->
        exists f urls,
          In f json_files /\ Files.data f = Files.Urls urls /\ In u urls
          /\ Str.startswith (Files.name f) "all_domains_" = false
          /\ Files.file_domain (Files.name f) = Some domain).
Proof.
  intros H.
  assert (Hr : results = fold_left Files.combine_file json_files []).
  { destruct json_files; [discriminate | injection H as <-; reflexivity]. }
  subst results. clear H.
  assert (Hl := combine_fold_lookup domain json_files []). simpl in Hl.
  split; [apply combine_fold_nodup; constructor |]. split; [exact Hl |].
  intros v u Hv Hu. rewrite Hl in Hv.
  destruct (List.existsb _ _); [| discriminate]. injection Hv as <-.
  apply in_concat in Hu as [l [Hl' Hu]].
  apply in_map_iff in Hl' as [f [<- Hf]].
  unfold Files.file_urls in Hu. destruct (Files.data f) as [| urls |] eqn:Hd;
    [destruct Hu | | destruct Hu].
  destruct (Files.counted domain f) eqn:Hc; [| destruct Hu].
  unfold Files.counted in Hc. apply andb_true_iff in Hc as [Hs Hk].
  apply negb_true_iff in Hs. apply bool_decide_eq_true in Hk.
  exists f, urls. repeat split; assumption.
Qed.

Lemma combine_results_groups_witness :
  Files.lookup "shop" [("shop", ["u1"; "u2"; "u3"; "u1"]); ("num", [])]
  = (if List.existsb (Files.creates "shop") two_shops
     then Some (concat (List.map (Files.file_urls "shop") two_shops))
     else None).
Proof.
  apply (combine_results_groups two_shops
           [("shop", ["u1"; "u2"; "u3"; "u1"]); ("num", [])] "shop").
  reflexivity.
Defined.

(** *** The merged dictionary *)

Lemma in_list_In s l : Urllib.in_list s l = true <-> In s l.
Proof.
  unfold Urllib.in_list. rewrite existsb_exists. split.
  - intros [x [Hx E]]. apply String.eqb_eq in E. subst x. exact Hx.
  - intros H. exists s. split; [exact H | apply String.eqb_refl].
Qed.

Lemma add_unique_In url v u :
  In u (Files.add_unique url v) <-> In u v \/ u = url.
Proof.
  unfold Files.add_unique. destruct (Urllib.in_list url v) eqn:E.
  - apply in_list_In in E. split; [tauto | intros [H | ->]; assumption].
  - rewrite in_app_iff. simpl. split; [intros [H | [H | []]] | intros [H | H]]; auto.
Qed.

Lemma add_unique_nodup url v : List.NoDup v -> List.NoDup (Files.add_unique url v).
Proof.
  intros H. unfold Files.add_unique. destruct (Urllib.in_list url v) eqn:E; [exact H |].
  apply NoDup_ListNoDup, NoDup_app. apply NoDup_ListNoDup in H.
  split; [exact H |]. split; [| apply NoDup_singleton].
  intros x Hx Hu. apply list_elem_of_In in Hx. apply list_elem_of_In in Hu.
  destruct Hu as [<- | []]. apply in_list_In in Hx. congruence.
Qed.

Lemma add_all_unique_In urls : forall v u,
  In u (Files.add_all_unique v urls) <-> In u v \/ In u urls.
Proof.
  unfold Files.add_all_unique.
  induction urls as [| url urls IH]; intros v u; simpl; [tauto |].
  rewrite IH, add_unique_In. split; [intros [[H | H] | H] | intros [H | [H | H]]]; auto.
Qed.

Lemma add_all_unique_nodup urls : forall v,
  List.NoDup v -> List.NoDup (Files.add_all_unique v urls).
Proof.
  unfold Files.add_all_unique.
  induction urls as [| url urls IH]; intros v H; simpl; [exact H |].
  apply IH, add_unique_nodup, H.
Qed.

Lemma add_all_unique_app v l1 l2 :
  Files.add_all_unique v (l1 ++ l2)
  = Files.add_all_unique (Files.add_all_unique v l1) l2.
Proof. apply fold_left_app. Qed.

Lemma merge_urls_lookup domain k urls : forall r,
  Files.lookup domain
    (fold_left (fun r url => Files.update k (Files.add_unique url) r) urls r)
  = match (if String.eqb domain k then urls else []) with
    | [] => Files.lookup domain r
    | all => Some (Files.add_all_unique (default [] (Files.lookup domain r)) all)
    end.
Proof.
  induction urls as [| url urls IH]; intros r; simpl.
  - destruct (String.eqb domain k); reflexivity.
  - rewrite IH, lookup_update.
    destruct (String.eqb_spec domain k) as [-> | Hne]; [| reflexivity].
    destruct urls; reflexivity.
Qed.

Lemma merge_file_lookup domain r f :
  Files.lookup domain (Files.merge_file r f)
  = match Files.merged_urls domain f with
    | [] => Files.lookup domain r
    | all => Some (Files.add_all_unique (default [] (Files.lookup domain r)) all)
    end.
Proof.
  unfold Files.merge_file, Files.merged_urls.
  destruct (Str.startswith (Files.name f) "all_domains_").
  { destruct (Files.data f); reflexivity. }
  destruct (Files.data f) as [| urls |]; [reflexivity | | reflexivity].
  rewrite merge_urls_lookup, (String.eqb_sym domain). reflexivity.
Qed.

Lemma merge_fold_lookup domain fs : forall r,
  Files.lookup domain (fold_left Files.merge_file fs r)
  = match concat (List.map (Files.merged_urls domain) fs) with
    | [] => Files.lookup domain r
    | all => Some (Files.add_all_unique (default [] (Files.lookup domain r)) all)
    end.
Proof.
  induction fs as [| f fs IH]; intros r; simpl; [reflexivity |].
  rewrite IH, merge_file_lookup.
  destruct (Files.merged_urls domain f) as [| u us] eqn:Hm; [reflexivity |].
  simpl default.
  destruct (concat (List.map (Files.merged_urls domain) fs)) as [| x xs] eqn:Hc.
  - rewrite app_nil_r. reflexivity.
  - rewrite <- add_all_unique_app. reflexivity.
Qed.

Lemma merge_file_nodup r f :
  List.NoDup (List.map fst r) -> List.NoDup (List.map fst (Files.merge_file r f)).
Proof.
  unfold Files.merge_file. destruct (Str.startswith _ _); [auto |].
  destruct (Files.data f) as [| urls |]; [auto | | auto].
  revert r. induction urls as [| u urls IH]; intros r H; simpl; [exact H |].
  apply IH, update_nodup, H.
Qed.

Lemma merge_fold_nodup fs : forall r,
  List.NoDup (List.map fst r) ->
  List.NoDup (List.map fst (fold_left Files.merge_file fs r)).
Proof.
  induction fs as [| f fs IH]; intros r H; simpl; [exact H |].
  apply IH, merge_file_nodup, H.
Qed.

(** X16.  In the dictionary [merge_results] returns no key occurs twice,
    and a key is present exactly when a listed file that is not a combined
    file and holds a list gives it a URL; the list under it is not empty,
    holds no URL twice, and holds exactly the URLs of those files, each at
    the place of its first occurrence in the order of the listing. *)
Theorem merge_results_unique (json_files : list Files.file) (domain : string) :
  List.NoDup (List.map fst (Files.merge_results json_files))
  /\ Files.lookup domain (Files.merge_results json_files)
     = match concat (List.map (Files.merged_urls domain) json_files) with
       | [] => None
       | all => Some (Files.add_all_unique [] all)
       end
  /\ forall v, Files.lookup domain (Files.merge_results json_files) = Some v ->
       List.NoDup v /\ v <> []
       /\ forall u, In u v
                    <-> exists f urls,
                          In f json_files /\ Files.data f = Files.Urls urls /\ In u urls
                          /\ Str.startswith (Files.name f) "all_domains_" = false
                          /\ Files.merge_domain (Files.name f) = domain.
Proof.
  unfold Files.merge_results.
  assert (Hl : Files.lookup domain (fold_left Files.merge_file json_files [])
               = match concat (List.map (Files.merged_urls domain) json_files) with
                 | [] => None
                 | all => Some (Files.add_all_unique [] all)
                 end)
    by exact (merge_fold_lookup domain json_files []).
  split; [apply merge_fold_nodup; constructor |]. split; [exact Hl |].
  intros v Hv. rewrite Hl in Hv.
  destruct (concat (List.map (Files.merged_urls domain) json_files)) as [| x xs] eqn:Hc;
    [discriminate |].
  assert (Hv' : v = Files.add_all_unique [] (x :: xs)) by congruence.
  subst v. clear Hv.
  split; [apply (add_all_unique_nodup (x :: xs) []); constructor |]. split.
  - intros E. assert (Hx : In x (Files.add_all_unique [] (x :: xs))).
    { apply add_all_unique_In. right. left. reflexivity. }
    rewrite E in Hx. destruct Hx.
  - intros u. rewrite add_all_unique_In, <- Hc, in_concat. split.
    + intros [[] | [l [Hl' Hu]]]. apply in_map_iff in Hl' as [f [<- Hf]].
      unfold Files.merged_urls in Hu.
      destruct (Files.data f) as [| urls |] eqn:Hd; [destruct Hu | | destruct Hu].
      destruct (negb _ && _) eqn:Hk; [| destruct Hu].
      apply andb_true_iff in Hk as [Hs Hk]. apply negb_true_iff in Hs.
      apply String.eqb_eq in Hk. exists f, urls. repeat split; assumption.
    + intros [f [urls [Hf [Hd [Hu [Hs Hk]]]]]]. right.
      exists (Files.merged_urls domain f). split; [apply in_map, Hf |].
      unfold Files.merged_urls. rewrite Hd, Hs, Hk, String.eqb_refl. exact Hu.
Qed.
(** ** The TataCliq crawler *)

Section TataFacts.

Variable load : string -> option (list string).
Variable urljoin : string -> string -> option string.

Lemma extract_product_urls_elem current_url hrefs : forall product_urls u,
  Tata.extract_product_urls urljoin hrefs current_url = Some product_urls ->
  u ∈ product_urls ->
  exists href, href ∈ hrefs /\ Str.contains "/p-" href = true
               /\ urljoin current_url href = Some u.
Proof.
  induction hrefs as [| href rest IH]; intros l u; cbn [Tata.extract_product_urls].
  - intros [= <-] Hu. inversion Hu.
  - destruct (Str.contains "/p-" href) eqn:Hc.
    + destruct (urljoin current_url href) as [a |] eqn:Hj; [| discriminate].
      destruct (Tata.extract_product_urls urljoin rest current_url) as [l' |];
        [| discriminate].
      intros [= <-] Hu. apply elem_of_cons in Hu as [-> | Hu].
      * exists href. split; [left | split; assumption].
      * destruct (IH l' u eq_refl Hu) as [h [Hh H]].
        exists h. split; [right; exact Hh | exact H].
    + intros Hl Hu. destruct (IH l u Hl Hu) as [h [Hh H]].
      exists h. split; [right; exact Hh | exact H].
Qed.

Lemma visit_categories_elem max_products links : forall product_urls u,
  u ∈ Tata.visit_categories load urljoin max_products links product_urls ->
  u ∈ product_urls
  \/ exists category_url hrefs href,
       category_url ∈ links /\ load category_url = Some hrefs
       /\ href ∈ hrefs /\ Str.contains "/p-" href = true
       /\ urljoin category_url href = Some u.
Proof.
  induction links as [| c rest IH]; intros acc u; cbn [Tata.visit_categories].
  - auto.
  - assert (Hrest : u ∈ Tata.visit_categories load urljoin max_products rest acc ->
              u ∈ acc
              \/ exists category_url hrefs href,
                   category_url ∈ c :: rest /\ load category_url = Some hrefs
                   /\ href ∈ hrefs /\ Str.contains "/p-" href = true
                   /\ urljoin category_url href = Some u).
    { intros H. destruct (IH acc u H) as [H' | [c' [hs [h [Hc H']]]]]; [auto |].
      right. exists c', hs, h. split; [right; exact Hc | exact H']. }
    destruct (load c) as [hrefs |] eqn:Hl; [| exact Hrest].
    destruct (Tata.extract_product_urls urljoin hrefs c) as [new |] eqn:He;
      [| exact Hrest].
    assert (Hnew : u ∈ (acc ++ new)%list ->
              u ∈ acc
              \/ exists category_url hrefs0 href,
                   category_url ∈ c :: rest /\ load category_url = Some hrefs0
                   /\ href ∈ hrefs0 /\ Str.contains "/p-" href = true
                   /\ urljoin category_url href = Some u).
    { intros H. apply elem_of_app in H as [H | H]; [auto |].
      destruct (extract_product_urls_elem c hrefs new u He H) as [h [Hh H']].
      right. exists c, hrefs, h. split; [left | split; [exact Hl | split; [exact Hh | exact H']]]. }
    cbv zeta. destruct (Z.of_nat (List.length (acc ++ new)) >=? max_products);
      [exact Hnew |].
    intros H. destruct (IH _ u H) as [H' | [c' [hs [h [Hc H']]]]]; [auto |].
    right. exists c', hs, h. split; [right; exact Hc | exact H'].
Qed.

(** X18.  For a limit that is not negative, the list
    [crawl_category_pages] returns holds no URL twice and at most
    [max_products] URLs, and each of them is an anchor containing [/p-],
    joined to the category URL, of one of the first five category links
    of the home page. *)
Theorem category_pages_bounded (start_url : string) (max_products : Z)
    (result : list string) :
  0 <= max_products ->
  Tata.crawl_category_pages load urljoin start_url max_products result ->
  NoDup result
  /\ Z.of_nat (List.length result) <= max_products
  /\ forall u, u ∈ result ->
       exists home links category_url hrefs href,
         load start_url = Some home
         /\ Tata.category_links urljoin home start_url = Some links
         /\ category_url ∈ firstn 5 links
         /\ load category_url = Some hrefs
         /\ href ∈ hrefs /\ Str.contains "/p-" href = true
         /\ urljoin category_url href = Some u.
Proof.
  intros Hmax [product_urls [unique [Hc [[Hnd Hel] ->]]]].
  unfold Tata.slice_to. destruct (Z.leb_spec 0 max_products) as [_ | Hneg]; [| lia].
  split; [apply (sublist_NoDup _ unique Hnd), sublist_take |]. split.
  - pose proof (firstn_le_length (Z.to_nat max_products) unique). lia.
  - intros u Hu.
    assert (Hu' : u ∈ product_urls).
    { apply (elem_of_list_to_set (C := gset string)), Hel.
      apply (elem_of_sublist _ unique u Hu), sublist_take. }
    unfold Tata.collected in Hc.
    destruct (load start_url) as [home |] eqn:Hh; [| discriminate].
    destruct (Tata.category_links urljoin home start_url) as [links |] eqn:Hk;
      [| discriminate].
    injection Hc as <-.
    destruct (visit_categories_elem _ _ _ _ Hu') as [H | [c [hs [h H]]]];
      [inversion H |].
    exists home, links, c, hs, h. split; [reflexivity |]. split; [exact Hk | exact H].
Qed.

End TataFacts.

Lemma pages_collected :
  Tata.collected Tata.pages Tata.join "https://t.com/" 3 = Some ["/p-1"; "/p-2"; "/p-2"; "/p-3"].
Proof. vm_compute. reflexivity. Qed.

Lemma category_pages_bounded_witness :
  NoDup ["/p-3"; "/p-1"; "/p-2"]
  /\ Z.of_nat (List.length ["/p-3"; "/p-1"; "/p-2"]) <= 3.
Proof.
  pose proof (category_pages_bounded Tata.pages Tata.join "https://t.com/" 3
                ["/p-3"; "/p-1"; "/p-2"]) as H.
  assert (Hr : Tata.crawl_category_pages Tata.pages Tata.join "https://t.com/" 3
                 ["/p-3"; "/p-1"; "/p-2"]).
  { exists ["/p-1"; "/p-2"; "/p-2"; "/p-3"], ["/p-3"; "/p-1"; "/p-2"].
    split; [apply pages_collected |]. split; [| reflexivity].
    split.
    - apply (bool_decide_unpack _). vm_compute. exact I.
    - intros x. rewrite elem_of_list_to_set, !elem_of_cons, !elem_of_nil. tauto. }
  specialize (H ltac:(lia) Hr). split; [exact (proj1 H) | exact (proj1 (proj2 H))].
Defined.
